(** * Vincere OAuth proxy: token lifecycle, validation and forwarding

    A shallow embedding of the TypeScript sources
    [security/validators.ts], [infra/keyvault.ts], [infra/axiosClient.ts],
    [oauth/service.ts], [oauth/routes.ts], [proxy/vincereClient.ts] and
    [proxy/routes.ts], followed by the properties established about them.

    Conventions of the embedding.
    - A JavaScript string is a [string]: a sequence of code units, here the
      code units below 256.
    - An absent query parameter ([undefined]) and the empty string take the
      same branch of every [!x] and [if (x)] test they reach in these
      sources, so an absent parameter is passed as the empty string.
    - [Date.now()] readings are arguments of the functions that take them.
    - Logging and telemetry calls change nothing that is modelled and are
      left out; a [try]/[catch] that only logs and rethrows is the body alone.
    - The in-memory [Map], the Key Vault and the record of the requests sent
      to the outside live in an explicit [World]; [async] functions are
      computations over it that either return or throw an [Error] message.
    - What the platform and the network do is given by an [Env]: the outcome
      of each transmission of a request, the jitter drawn for each retry, and
      what [new URL] makes of a text. *)

From Stdlib Require Import ZArith NArith String Ascii List Bool Lia DecimalString.
From stdpp Require Import gmap strings list fin_maps.

Local Open Scope string_scope.
Local Open Scope Z_scope.

(** ** JavaScript string primitives *)

Module Js.

Definition code (c : ascii) : N := N_of_ascii c.

Definition in_range (lo hi : ascii) (c : ascii) : bool :=
  ((code lo <=? code c) && (code c <=? code hi))%N.

Definition is_char (a : ascii) (c : ascii) : bool := Ascii.eqb a c.

(** [WhiteSpace] and [LineTerminator] code units below 256, as removed by
    [String.prototype.trim]. *)
Definition is_white_space (c : ascii) : bool :=
  ((9 <=? code c) && (code c <=? 13) || (code c =? 32) || (code c =? 160))%N.

Fixpoint trimStart (s : string) : string :=
  match s with
  | EmptyString => EmptyString
  | String c r => if is_white_space c then trimStart r else s
  end.

Definition is_empty (s : string) : bool :=
  match s with EmptyString => true | String _ _ => false end.

Fixpoint trimEnd (s : string) : string :=
  match s with
  | EmptyString => EmptyString
  | String c r =>
      let r' := trimEnd r in
      if is_white_space c && is_empty r' then EmptyString else String c r'
  end.

Definition trim (s : string) : string := trimEnd (trimStart s).

Definition lower_char (c : ascii) : ascii :=
  let n := code c in
  if ((65 <=? n) && (n <=? 90)
      || (192 <=? n) && (n <=? 222) && negb (n =? 215))%N
  then ascii_of_N (n + 32) else c.

(** [toUpperCase] on one code unit; the three code units below 256 whose
    upper case is not one ([ß], [µ], [ÿ]) are left as they are. *)
Definition upper_char (c : ascii) : ascii :=
  let n := code c in
  if ((97 <=? n) && (n <=? 122)
      || (224 <=? n) && (n <=? 254) && negb (n =? 247))%N
  then ascii_of_N (n - 32) else c.

Fixpoint map_chars (f : ascii -> ascii) (s : string) : string :=
  match s with
  | EmptyString => EmptyString
  | String c r => String (f c) (map_chars f r)
  end.

Definition toLowerCase : string -> string := map_chars lower_char.
Definition toUpperCase : string -> string := map_chars upper_char.

Fixpoint startsWith (s p : string) : bool :=
  match p, s with
  | EmptyString, _ => true
  | String a p', String c s' => Ascii.eqb a c && startsWith s' p'
  | String _ _, EmptyString => false
  end.

Fixpoint includes (s needle : string) : bool :=
  startsWith s needle
  || match s with
     | EmptyString => false
     | String _ r => includes r needle
     end.

(** [s.split(sep)] for a one-character separator. *)
Fixpoint split (sep : ascii) (s : string) : list string :=
  match s with
  | EmptyString => [EmptyString]
  | String c r =>
      if Ascii.eqb c sep then EmptyString :: split sep r
      else match split sep r with
           | h :: t => String c h :: t
           | [] => [String c EmptyString]
           end
  end.

(** [s.replace(/[class]/g, rep)]: every code unit of the class is replaced. *)
Fixpoint replace_class_g (cls : ascii -> bool) (rep : string) (s : string) : string :=
  match s with
  | EmptyString => EmptyString
  | String c r =>
      (if cls c then rep else String c EmptyString) +:+ replace_class_g cls rep r
  end.

(** [!x] on a string. *)
Definition falsy (s : string) : bool := is_empty s.

(** [!x] on an optional property. *)
Definition absent (o : option string) : bool :=
  match o with Some s => is_empty s | None => true end.

Definition array_includes (l : list string) (s : string) : bool :=
  existsb (String.eqb s) l.

End Js.

(** ** Regular expressions, matched by derivatives *)

Module Regex.

Inductive regex : Type :=
| Void : regex
| Eps : regex
| Cls : (ascii -> bool) -> regex
| Seq : regex -> regex -> regex
| Alt : regex -> regex -> regex
| Star : regex -> regex.

Fixpoint nullable (r : regex) : bool :=
  match r with
  | Void => false
  | Eps => true
  | Cls _ => false
  | Seq a b => nullable a && nullable b
  | Alt a b => nullable a || nullable b
  | Star _ => true
  end.

Fixpoint deriv (c : ascii) (r : regex) : regex :=
  match r with
  | Void => Void
  | Eps => Void
  | Cls p => if p c then Eps else Void
  | Seq a b =>
      if nullable a then Alt (Seq (deriv c a) b) (deriv c b)
      else Seq (deriv c a) b
  | Alt a b => Alt (deriv c a) (deriv c b)
  | Star a => Seq (deriv c a) (Star a)
  end.

Fixpoint matches (r : regex) (s : string) : bool :=
  match s with
  | EmptyString => nullable r
  | String c s' => matches (deriv c r) s'
  end.

Definition Plus (r : regex) : regex := Seq r (Star r).

Fixpoint Lit (s : string) : regex :=
  match s with
  | EmptyString => Eps
  | String c r => Seq (Cls (Js.is_char c)) (Lit r)
  end.

Definition any : ascii -> bool := fun _ => true.

(** The [i] flag on a class of code units. *)
Definition ci (p : ascii -> bool) : ascii -> bool :=
  fun c => p c || p (Js.lower_char c) || p (Js.upper_char c).

(** [/^r$/.test(s)] *)
Definition test_anchored (r : regex) (s : string) : bool := matches r s.

(** [/^r/.test(s)] *)
Definition test_prefix (r : regex) (s : string) : bool :=
  matches (Seq r (Star (Cls any))) s.

End Regex.

(** Every code unit of [s] satisfies [p]. *)
Fixpoint every (p : ascii -> bool) (s : string) : bool :=
  match s with
  | EmptyString => true
  | String c r => p c && every p r
  end.

(** ** security/validators.ts *)

Record ValidationResult : Type := {
  valid : bool;
  error : option string
}.

Definition accepted : ValidationResult := {| valid := true; error := None |}.
Definition refused (msg : string) : ValidationResult :=
  {| valid := false; error := Some msg |}.

Definition lower_alpha : ascii -> bool := Js.in_range "a" "z".
Definition upper_alpha : ascii -> bool := Js.in_range "A" "Z".
Definition digit : ascii -> bool := Js.in_range "0" "9".

(** [[a-z0-9-]] *)
Definition host_label_class (c : ascii) : bool :=
  lower_alpha c || digit c || Js.is_char "-" c.

Fixpoint LitI (s : string) : Regex.regex :=
  match s with
  | EmptyString => Regex.Eps
  | String c r => Regex.Seq (Regex.Cls (Regex.ci (Js.is_char c))) (LitI r)
  end.

(** [/^[a-z0-9-]+\.vincere\.io$/i] *)
Definition VINCERE_HOST_PATTERN : Regex.regex :=
  Regex.Seq (Regex.Plus (Regex.Cls (Regex.ci host_label_class))) (LitI ".vincere.io").

Definition SSRF_BLOCKLIST : list string :=
  [ "localhost"; "127.0.0.1"; "0.0.0.0"; "::1"; "169.254.169.254";
    "metadata.google.internal" ].

(** The six prefix patterns, in the order of the source array. *)
Definition PRIVATE_IP_RANGES : list Regex.regex :=
  [ Regex.Lit "10.";
    Regex.Seq (Regex.Lit "172.")
      (Regex.Seq
         (Regex.Alt
            (Regex.Seq (Regex.Lit "1") (Regex.Cls (Js.in_range "6" "9")))
            (Regex.Alt
               (Regex.Seq (Regex.Lit "2") (Regex.Cls (Js.in_range "0" "9")))
               (Regex.Seq (Regex.Lit "3") (Regex.Cls (Js.in_range "0" "1")))))
         (Regex.Lit "."));
    Regex.Lit "192.168.";
    Regex.Lit "169.254.";
    LitI "fc00:";
    LitI "fe80:" ].

Definition validateTenantHost (tenantHost : string) : ValidationResult :=
  if Js.falsy tenantHost then refused "Tenant host is required"
  else
    let normalized := Js.toLowerCase (Js.trim tenantHost) in
    if ((String.length normalized =? 0) || (253 <? String.length normalized))%nat
    then refused "Invalid tenant host length"
    else if negb (Regex.test_anchored VINCERE_HOST_PATTERN normalized)
    then refused "Invalid tenant host format"
    else if Js.array_includes SSRF_BLOCKLIST normalized
    then refused "Invalid tenant host"
    else if existsb (fun range => Regex.test_prefix range normalized) PRIVATE_IP_RANGES
    then refused "Invalid tenant host"
    else accepted.

Definition NUL : string := String (ascii_of_N 0) EmptyString.

Definition validatePath (path : string) : ValidationResult :=
  if Js.falsy path then refused "Path is required"
  else
    let trimmed := Js.trim path in
    if Js.includes trimmed ".." || Js.includes trimmed "//"
    then refused "Invalid path"
    else if Js.includes trimmed NUL
    then refused "Invalid path"
    else if Js.startsWith trimmed "/" || Js.startsWith trimmed "http://"
            || Js.startsWith trimmed "https://"
    then refused "Invalid path format"
    else accepted.

Definition validateMethod (method : string) : ValidationResult :=
  let allowedMethods := ["GET"; "POST"] in
  let upperMethod := Js.toUpperCase method in
  if negb (Js.array_includes allowedMethods upperMethod)
  then refused ("Method " +:+ method +:+ " not allowed")
  else accepted.

(** A query value as Express parses it: a string, or something else. *)
Inductive QueryValue : Type :=
| QString (s : string)
| QOther.

(** [[\0-\x1F\x7F]] *)
Definition control_char (c : ascii) : bool :=
  ((Js.code c <=? 31) || (Js.code c =? 127))%N.

Fixpoint sanitizeQueryParams (params : list (string * QueryValue)) : list (string * string) :=
  match params with
  | [] => []
  | (key, QString value) :: rest =>
      (key, Js.replace_class_g control_char "" value) :: sanitizeQueryParams rest
  | (_, QOther) :: rest => sanitizeQueryParams rest
  end.

(** [[a-zA-Z0-9-_]] *)
Definition nonce_class (c : ascii) : bool :=
  lower_alpha c || upper_alpha c || digit c || Js.is_char "-" c || Js.is_char "_" c.

(** [[a-zA-Z0-9-_=+/]] *)
Definition code_class (c : ascii) : bool :=
  nonce_class c || Js.is_char "=" c || Js.is_char "+" c || Js.is_char "/" c.

Definition validateOAuthState (state : string) : ValidationResult :=
  if Js.falsy state then refused "State parameter is required"
  else
    match Js.split ":" state with
    | [nonce; tenantHost] =>
        if (Js.falsy nonce || (String.length nonce <? 16)%nat
            || (128 <? String.length nonce)%nat
            || negb (Regex.test_anchored (Regex.Plus (Regex.Cls nonce_class)) nonce))
        then refused "Invalid state"
        else
          let hostValidation := validateTenantHost tenantHost in
          if negb (valid hostValidation) then hostValidation else accepted
    | _ => refused "Invalid state format"
    end.

Definition validateAuthCode (code : string) : ValidationResult :=
  if Js.falsy code then refused "Authorization code is required"
  else if ((String.length code <? 10) || (1024 <? String.length code))%nat
  then refused "Invalid code length"
  else if negb (Regex.test_anchored (Regex.Plus (Regex.Cls code_class)) code)
  then refused "Invalid code format"
  else accepted.

(** ** config/index.ts (the fields the code below reads) *)

Record Config : Type := {
  idBase : string;
  clientId : string;
  redirectUri : string;
  idTokenCacheSeconds : Z
}.

(** ** The world outside the functions *)

Record TokenResponse : Type := {
  access_token : string;
  refresh_token : string;   (* optional in the source: absent is [""] *)
  id_token : string;
  expires_in : Z;
  token_type : string
}.

Record CachedIdToken : Type := {
  token : string;
  expiresAt : Z
}.

#[local] Unset Elimination Schemes.
Inductive Json : Type :=
| JArray (items : list Json)
| JObject (fields : list (string * Json))
| JOther.
#[local] Set Elimination Schemes.

(** Requests that leave the process, most recent first. The URL of an API
    request is what [url.toString()] gave; the query entries that were set on
    it are kept beside it. *)
Inductive Event : Type :=
| KvGet (name : string)
| KvSet (name value : string)
| TokenPost (url : string) (form : list (string * string))
| ApiRequest (url : string) (query : list (string * string)) (method : string)
             (headers : list (string * string)) (body : option Json).

Record World : Type := {
  idTokenCache : gmap string CachedIdToken;
  vault : gmap string string;
  sent : list Event
}.

Definition is_token_post (e : Event) : bool :=
  match e with TokenPost _ _ => true | _ => false end.

Definition token_posts (w : World) : nat :=
  length (List.filter is_token_post (sent w)).

Definition record_event (e : Event) (w : World) : World :=
  {| idTokenCache := idTokenCache w; vault := vault w; sent := e :: sent w |}.

Inductive Result (A : Type) : Type :=
| Ok (a : A)
| Thrown (message : string).
Arguments Ok {A} a.
Arguments Thrown {A} message.

(** An [async] function run to completion. *)
Definition Async (A : Type) : Type := World -> Result A * World.

#[global] Instance async_ret : MRet Async :=
  fun A a w => (Ok a, w).

#[global] Instance async_bind : MBind Async :=
  fun A B k m w =>
    match m w with
    | (Ok a, w') => k a w'
    | (Thrown msg, w') => (Thrown msg, w')
    end.

Definition throw {A : Type} (message : string) : Async A :=
  fun w => (Thrown message, w).

(** A synchronous call inside an [async] function: what it throws rejects
    the promise. *)
Definition of_result {A : Type} (r : Result A) : Async A :=
  fun w => (r, w).

(** ** axios and axios-retry, as [infra/axiosClient.ts] configures them

    What one transmission meets on the network: a failure without a response
    (the connection refused or reset, or the timeout running out), or a
    response with a status. An axios request settles a response by
    [validateStatus]: it resolves when the function accepts the status and
    rejects with an error carrying the response otherwise. axios-retry
    installs its handler on rejected requests only. The handler sends a
    rejected request again while fewer than [retries] retries were made and
    [retryCondition] accepts the error, after waiting [retryDelay]; and, with
    [shouldResetTimeout] left at [false], only while the timeout of the
    request is not used up: the time the failed transmission took and the
    wait are taken off the timeout, the request is rejected when nothing is
    left, and the retransmission has what is left as its timeout. *)

(** [elapsed] is the time in milliseconds from the sending of the
    transmission to the handling of its failure
    ([Date.now() - lastRequestTime]). *)
Inductive NetOutcome (A : Type) : Type :=
| NetError (message : string) (elapsed : Z)
| NetResponse (status : Z) (data : A).
Arguments NetError {A} message elapsed.
Arguments NetResponse {A} status data.

Record AxiosError : Type := {
  err_message : string;
  err_response : option Z    (* [error.response?.status] *)
}.

Inductive Settled (A : Type) : Type :=
| Resolved (status : Z) (data : A)
| Rejected (e : AxiosError).
Arguments Resolved {A} status data.
Arguments Rejected {A} e.

Record AxiosClient : Type := {
  timeout : Z;
  validateStatus : Z -> bool;
  retries : nat;
  retryDelay : nat -> Z -> Z;          (* retry count, [Math.random() * 1000] *)
  retryCondition : AxiosError -> bool
}.

Definition show_Z (z : Z) : string := NilEmpty.string_of_int (Z.to_int z).

Definition settle {A : Type} (client : AxiosClient) (o : NetOutcome A) : Settled A :=
  match o with
  | NetError msg _ => Rejected {| err_message := msg; err_response := None |}
  | NetResponse st d =>
      if validateStatus client st then Resolved st d
      else Rejected {| err_message := "Request failed with status code " +:+ show_Z st;
                       err_response := Some st |}
  end.

(** The time a transmission took, as the retry handler reads it. A response
    is taken to come at once: the time it took bears on a retry only when
    [validateStatus] refuses it. *)
Definition lastRequestDuration {A : Type} (o : NetOutcome A) : Z :=
  match o with
  | NetError _ elapsed => elapsed
  | NetResponse _ _ => 0
  end.

Record Exchange (A : Type) : Type := {
  outcome : Settled A;
  attempts : nat;          (* transmissions made *)
  delays : list Z          (* waits before each retry, in milliseconds *)
}.
Arguments outcome {A} _.
Arguments attempts {A} _.
Arguments delays {A} _.

(** [remaining] is [retries - retryCount]: the handler retries while
    [retryCount < retries]. [timeout] is [config.timeout] as it stands for
    this transmission ([0] is no timeout). [net k] is what transmission [k]
    meets and [random k] the jitter drawn for retry [k + 1]. *)
Fixpoint axios_send {A : Type} (client : AxiosClient) (remaining : nat) (timeout : Z)
    (net : nat -> NetOutcome A) (random : nat -> Z) : Exchange A :=
  let retryCount := (retries client - remaining)%nat in
  match settle client (net retryCount) with
  | Resolved st d => {| outcome := Resolved st d; attempts := 1; delays := [] |}
  | Rejected e =>
      match remaining with
      | S remaining' =>
          if retryCondition client e then
            let delay := retryDelay client (S retryCount) (random retryCount) in
            let left := timeout - lastRequestDuration (net retryCount) - delay in
            if negb (timeout =? 0) && (left <=? 0)
            then {| outcome := Rejected e; attempts := 1; delays := [] |}
            else
              let later :=
                axios_send client remaining' (if timeout =? 0 then 0 else left)
                  net random in
              {| outcome := outcome later;
                 attempts := S (attempts later);
                 delays := delay :: delays later |}
          else {| outcome := Rejected e; attempts := 1; delays := [] |}
      | O => {| outcome := Rejected e; attempts := 1; delays := [] |}
      end
  end.

Definition axios_request {A : Type} (client : AxiosClient)
    (net : nat -> NetOutcome A) (random : nat -> Z) : Exchange A :=
  axios_send client (retries client) (timeout client) net random.

Definition createAxiosClient : AxiosClient :=
  {| timeout := 100000;
     validateStatus := fun _ => true;
     retries := 3;
     retryDelay := fun retryCount jitter =>
       let baseDelay := 2 ^ Z.of_nat retryCount * 1000 in
       baseDelay + jitter;
     retryCondition := fun error =>
       match err_response error with
       | None => true
       | Some status =>
           (status =? 429) || (status =? 502) || (status =? 503) || (status =? 504)
       end |}.

Definition axiosClient : AxiosClient := createAxiosClient.

(** The network and the platform as the process meets them: what each
    transmission of a request gets, given the requests sent before it; the
    jitter drawn for each retry; and the URL parser. [new_URL text entries]
    is [url.toString()] after [url = new URL(text)] and
    [url.searchParams.set(key, value)] for each entry in turn, or the
    [TypeError] that [new URL] throws. *)
Record Env : Type := {
  token_endpoint : list Event -> list (string * string) -> nat -> NetOutcome TokenResponse;
  vincere_api : list Event -> string -> list (string * string) -> string
                -> list (string * string) -> option Json -> nat -> NetOutcome Json;
  random_ms : nat -> Z;
  new_URL : string -> list (string * string) -> Result string
}.

(** ** infra/keyvault.ts

    The Key Vault is a map from secret names to values that always answers:
    a read or a write that the service fails is not part of the embedding.
    [getSecretOrNull] gives [null] for a missing secret and for one without
    a value. *)

Inductive SecretType : Type :=
| SecretRefreshToken    (* 'refresh_token' *)
| SecretApiKey.         (* 'api_key' *)

Definition secret_type_name (secretType : SecretType) : string :=
  match secretType with
  | SecretRefreshToken => "refresh_token"
  | SecretApiKey => "api_key"
  end.

(** [[^a-zA-Z0-9-]] *)
Definition unclean_class (c : ascii) : bool :=
  negb (lower_alpha c || upper_alpha c || digit c || Js.is_char "-" c).

Definition buildSecretName (tenant : string) (secretType : SecretType) : string :=
  let cleanTenant := Js.replace_class_g unclean_class "-" tenant in
  "vincere/" +:+ cleanTenant +:+ "/" +:+ secret_type_name secretType.

Definition getSecretOrNull (secretName : string) : Async (option string) :=
  fun w =>
    let secret :=
      match vault w !! secretName with
      | Some value => if Js.falsy value then None else Some value
      | None => None
      end in
    (Ok secret, record_event (KvGet secretName) w).

Definition setSecret (secretName value : string) : Async unit :=
  fun w =>
    (Ok tt,
     {| idTokenCache := idTokenCache w;
        vault := <[secretName := value]> (vault w);
        sent := KvSet secretName value :: sent w |}).

Section Program.

Variable config : Config.
Variable env : Env.

(** ** oauth/service.ts *)

Definition tokenUrl : string := idBase config +:+ "/oauth2/token".

(** [axiosClient.post(tokenUrl, params.toString(), ...)]: the form is kept
    as its list of entries. *)
Definition post_token (form : list (string * string)) : Async (Z * TokenResponse) :=
  fun w =>
    let sending :=
      axios_request axiosClient (token_endpoint env (sent w) form) (random_ms env) in
    let w' := record_event (TokenPost tokenUrl form) w in
    match outcome sending with
    | Resolved status data => (Ok (status, data), w')
    | Rejected e => (Thrown (err_message e), w')
    end.

Definition exchangeCodeForTokens (code tenantHost : string) : Async (string * string) :=
  let params :=
    [ ("grant_type", "authorization_code"); ("code", code);
      ("client_id", clientId config); ("redirect_uri", redirectUri config) ] in
  response ← post_token params;
  let '(status, data) := response in
  if negb (status =? 200)
  then throw ("Token exchange failed with status " +:+ show_Z status)
  else if Js.falsy (refresh_token data) || Js.falsy (id_token data)
  then throw "Invalid token response"
  else mret (refresh_token data, id_token data).

Definition refreshTokens (refreshToken : string) : Async TokenResponse :=
  let params :=
    [ ("grant_type", "refresh_token"); ("refresh_token", refreshToken);
      ("client_id", clientId config) ] in
  response ← post_token params;
  let '(status, data) := response in
  if negb (status =? 200)
  then throw ("Token refresh failed with status " +:+ show_Z status)
  else if Js.falsy (id_token data)
  then throw "Invalid token refresh response"
  else mret data.

Definition cache_set (tenantHost : string) (entry : CachedIdToken) : Async unit :=
  fun w =>
    (Ok tt,
     {| idTokenCache := <[tenantHost := entry]> (idTokenCache w);
        vault := vault w;
        sent := sent w |}).

(** An entry that is there and not expired at [now]. *)
Definition cached_fresh (now : Z) (tenantHost : string) (w : World) : option string :=
  match idTokenCache w !! tenantHost with
  | Some cached => if expiresAt cached >? now then Some (token cached) else None
  | None => None
  end.

Definition getIdTokenForTenant (now : Z) (tenantHost : string) : Async string :=
  fun w =>
    match cached_fresh now tenantHost w with
    | Some idToken => (Ok idToken, w)
    | None =>
        let refreshTokenSecretName := buildSecretName tenantHost SecretRefreshToken in
        (refreshToken ← getSecretOrNull refreshTokenSecretName;
         match refreshToken with
         | None => throw "Tenant not authorized - no refresh token found"
         | Some refreshToken =>
             tokens ← refreshTokens refreshToken;
             let cacheSeconds := idTokenCacheSeconds config in
             let expiresAt := now + cacheSeconds * 1000 in
             _ ← cache_set tenantHost {| token := id_token tokens; expiresAt := expiresAt |};
             _ ← (if Js.falsy (refresh_token tokens) then mret tt
                  else setSecret refreshTokenSecretName (refresh_token tokens));
             mret (id_token tokens)
         end) w
    end.

Definition storeRefreshToken (tenantHost refreshToken : string) : Async unit :=
  let secretName := buildSecretName tenantHost SecretRefreshToken in
  setSecret secretName refreshToken.

(** [clearIdTokenCache(tenantHost?)] *)
Definition clearIdTokenCache (tenantHost : option string) (w : World) : World :=
  {| idTokenCache :=
       match tenantHost with
       | Some t => if Js.falsy t then ∅ else delete t (idTokenCache w)
       | None => ∅
       end;
     vault := vault w;
     sent := sent w |}.

(** ** [getIdTokenForTenant] between its [await]s

    A call runs up to its first [await] when it is made, and from one
    [await] to the next each time it is resumed. A request to the outside
    takes effect when it is issued; its result is handed over when the call
    is resumed. *)

Inductive Task : Type :=
| AwaitSecret (tenantHost : string) (now : Z) (name : string)
              (r : Result (option string))
| AwaitTokens (tenantHost : string) (now : Z) (name : string)
              (r : Result TokenResponse)
| AwaitWrite (idToken : string) (r : Result unit)
| Finished (r : Result string).

Definition call (now : Z) (tenantHost : string) (w : World) : Task * World :=
  match cached_fresh now tenantHost w with
  | Some idToken => (Finished (Ok idToken), w)
  | None =>
      let name := buildSecretName tenantHost SecretRefreshToken in
      let '(r, w') := getSecretOrNull name w in
      (AwaitSecret tenantHost now name r, w')
  end.

Definition resume (t : Task) (w : World) : Task * World :=
  match t with
  | AwaitSecret tenantHost now name r =>
      match r with
      | Thrown msg => (Finished (Thrown msg), w)
      | Ok None => (Finished (Thrown "Tenant not authorized - no refresh token found"), w)
      | Ok (Some refreshToken) =>
          let '(r', w') := refreshTokens refreshToken w in
          (AwaitTokens tenantHost now name r', w')
      end
  | AwaitTokens tenantHost now name r =>
      match r with
      | Thrown msg => (Finished (Thrown msg), w)
      | Ok tokens =>
          let expiresAt := now + idTokenCacheSeconds config * 1000 in
          let '(_, w1) :=
            cache_set tenantHost {| token := id_token tokens; expiresAt := expiresAt |} w in
          if Js.falsy (refresh_token tokens) then (Finished (Ok (id_token tokens)), w1)
          else
            let '(r', w2) := setSecret name (refresh_token tokens) w1 in
            (AwaitWrite (id_token tokens) r', w2)
      end
  | AwaitWrite idToken r =>
      match r with
      | Thrown msg => (Finished (Thrown msg), w)
      | Ok _ => (Finished (Ok idToken), w)
      end
  | Finished r => (Finished r, w)
  end.

(** The process: the shared world and the calls in flight. *)
Record Process : Type := {
  world : World;
  tasks : list Task
}.

(** Calls made one after the other without yielding, as by
    [Promise.all(nows.map(() => getIdTokenForTenant(tenantHost)))]. *)
Fixpoint call_all (nows : list Z) (tenantHost : string) (w : World) : Process :=
  match nows with
  | [] => {| world := w; tasks := [] |}
  | now :: rest =>
      let '(t, w') := call now tenantHost w in
      let p := call_all rest tenantHost w' in
      {| world := world p; tasks := t :: tasks p |}
  end.

(** The event loop resumes call [i]. *)
Definition resume_at (i : nat) (p : Process) : Process :=
  match tasks p !! i with
  | Some t =>
      let '(t', w') := resume t (world p) in
      {| world := w'; tasks := <[i := t']> (tasks p) |}
  | None => p
  end.

Definition run (schedule : list nat) (p : Process) : Process :=
  fold_left (fun p i => resume_at i p) schedule p.

Definition finished (t : Task) : bool :=
  match t with Finished _ => true | _ => false end.

End Program.

Section Routes.

Variable config : Config.
Variable env : Env.

(** ** oauth/routes.ts: GET /auth/callback *)

Inductive CallbackResponse : Type :=
| OAuthError (error error_description : string)        (* 400, the provider's error *)
| InvalidCode (error : option string)                  (* 400, reason invalid_code *)
| InvalidState (error : option string)                 (* 400, reason invalid_state *)
| AuthorizationComplete (tenantHost : string)          (* 200 *)
| ExchangeFailed.                                      (* 500, reason exchange_error *)

Definition callback_status (r : CallbackResponse) : Z :=
  match r with
  | OAuthError _ _ | InvalidCode _ | InvalidState _ => 400
  | AuthorizationComplete _ => 200
  | ExchangeFailed => 500
  end.

Definition oauth_callback (code state q_error q_error_description : string)
    (w : World) : CallbackResponse * World :=
  if negb (Js.falsy q_error) then (OAuthError q_error q_error_description, w)
  else
    let codeValidation := validateAuthCode code in
    if negb (valid codeValidation)
    then (InvalidCode (error codeValidation), w)
    else
      let stateValidation := validateOAuthState state in
      if negb (valid stateValidation)
      then (InvalidState (error stateValidation), w)
      else
        let tenantHost := nth 1 (Js.split ":" state) "" in
        match (tokens ← exchangeCodeForTokens config env code tenantHost;
               storeRefreshToken tenantHost (fst tokens)) w with
        | (Ok _, w') => (AuthorizationComplete tenantHost, w')
        | (Thrown _, w') => (ExchangeFailed, w')
        end.

(** ** proxy/vincereClient.ts *)

Record VincereResponse : Type := {
  status : Z;
  data : Json;
  durationMs : Z
}.

Definition substring_from_1 (s : string) : string :=
  match s with
  | EmptyString => EmptyString
  | String _ r => r
  end.

Definition buildVincereUrl (tenantHost path : string) (query : list (string * string))
    : Result string :=
  let cleanPath := if Js.startsWith path "/" then substring_from_1 path else path in
  let cleanPath :=
    if negb (Js.startsWith cleanPath "api/v2/") then "api/v2/" +:+ cleanPath
    else cleanPath in
  new_URL env ("https://" +:+ tenantHost +:+ "/" +:+ cleanPath) query.

Definition request_api (url : string) (query : list (string * string))
    (method : string) (headers : list (string * string)) (body : option Json)
    : Async (Z * Json) :=
  fun w =>
    let sending :=
      axios_request axiosClient
        (vincere_api env (sent w) url query method headers body) (random_ms env) in
    let w' := record_event (ApiRequest url query method headers body) w in
    match outcome sending with
    | Resolved status data => (Ok (status, data), w')
    | Rejected e => (Thrown (err_message e), w')
    end.

Definition callVincereApi (startTime now endTime : Z) (tenantHost path method : string)
    (query : list (string * string)) (body : option Json) : Async VincereResponse :=
  idToken ← getIdTokenForTenant config env now tenantHost;
  let apiKeySecretName := buildSecretName tenantHost SecretApiKey in
  apiKey ← getSecretOrNull apiKeySecretName;
  url ← of_result (buildVincereUrl tenantHost path query);
  let headers :=
    ([ ("id-token", idToken); ("Content-Type", "application/json");
       ("Accept", "application/json") ]
     ++ match apiKey with
        | Some k => [("x-api-key", k)]
        | None => []
        end)%list in
  response ←
    request_api url query method headers
      (if String.eqb method "POST" then body else None);
  let durationMs := endTime - startTime in
  mret {| status := fst response; data := snd response; durationMs := durationMs |}.

Fixpoint lookup_field (key : string) (fields : list (string * Json)) : option Json :=
  match fields with
  | [] => None
  | (k, v) :: rest => if String.eqb k key then Some v else lookup_field key rest
  end.

Definition extractRowCount (data : Json) : option nat :=
  match data with
  | JObject fields =>
      match lookup_field "results" fields with
      | Some (JArray results) => Some (length results)
      | _ => None
      end
  | JArray items => Some (length items)
  | JOther => None
  end.

(** ** The response object, as the route handler uses it

    [res.setHeader(name, value)] throws for a value with a code unit other
    than a tab, [0x20] to [0x7e] and [0x80] to [0xff]; sending the response
    throws for a status outside 100 to 999. *)

Definition header_char (c : ascii) : bool :=
  ((Js.code c =? 9) || (32 <=? Js.code c) && (Js.code c <=? 126) || (128 <=? Js.code c))%N.

Definition DQUOTE : string := String (ascii_of_N 34) EmptyString.

Definition setHeader (name value : string) : Result unit :=
  if every header_char value then Ok tt
  else Thrown ("Invalid character in header content [" +:+ DQUOTE +:+ name +:+ DQUOTE +:+ "]").

(** [res.status(status).json(data)] *)
Definition send_json (status : Z) : Result unit :=
  if (100 <=? status) && (status <=? 999) then Ok tt
  else Thrown ("Invalid status code: " +:+ show_Z status).

(** ** proxy/routes.ts: ALL /vincere/:tenantHost/* *)

Inductive ProxyResponse : Type :=
| InvalidTenant (error : option string)                 (* 400, reason invalid_host *)
| InvalidPath (error : option string)                   (* 400, reason invalid_path *)
| Proxied (r : VincereResponse) (rowCount : option nat) (* the upstream's status *)
| NeedsAuthorization (hint : string)                    (* 401 *)
| ProxyFailed (details : string).                       (* 502 *)

Definition proxy_status (r : ProxyResponse) : Z :=
  match r with
  | InvalidTenant _ | InvalidPath _ => 400
  | Proxied r _ => status r
  | NeedsAuthorization _ => 401
  | ProxyFailed _ => 502
  end.

(** The body of the [try] block. *)
Definition proxy_forward (startTime now endTime : Z) (tenantHost path method : string)
    (query : list (string * QueryValue)) (body : option Json) : Async ProxyResponse :=
  let query := sanitizeQueryParams query in
  response ← callVincereApi startTime now endTime tenantHost path method query
               (if String.eqb method "POST" then body else None);
  let rowCount := extractRowCount (data response) in
  _ ← of_result (setHeader "x-proxy-tenant" tenantHost);
  _ ← of_result (setHeader "x-proxy-target"
                   ("https://" +:+ tenantHost +:+ "/api/v2/" +:+ path));
  _ ← of_result (setHeader "x-proxy-duration-ms" (show_Z (durationMs response)));
  _ ← of_result (match rowCount with
                 | Some n => setHeader "x-proxy-row-count" (show_Z (Z.of_nat n))
                 | None => Ok tt
                 end);
  _ ← of_result (send_json (status response));
  mret (Proxied response rowCount).

Definition proxy_route (startTime now endTime : Z) (tenantHost path method : string)
    (query : list (string * QueryValue)) (body : option Json)
    (w : World) : ProxyResponse * World :=
  let hostValidation := validateTenantHost tenantHost in
  if negb (valid hostValidation)
  then (InvalidTenant (error hostValidation), w)
  else
    let pathValidation := validatePath path in
    if negb (valid pathValidation)
    then (InvalidPath (error pathValidation), w)
    else
      match proxy_forward startTime now endTime tenantHost path method query body w with
      | (Ok response, w') => (response, w')
      | (Thrown message, w') =>
          if Js.includes message "not authorized"
          then (NeedsAuthorization ("Visit /auth/start?tenantHost=" +:+ tenantHost), w')
          else (ProxyFailed message, w')
      end.

End Routes.

(** ** The entry points of the process *)

Inductive Op : Type :=
| OpGetIdToken (now : Z) (tenantHost : string)
| OpStoreRefreshToken (tenantHost refreshToken : string)
| OpClearIdTokenCache (tenantHost : option string)
| OpCallback (code state q_error q_error_description : string)
| OpProxy (startTime now endTime : Z) (tenantHost path method : string)
          (query : list (string * QueryValue)) (body : option Json).

Definition apply_op (config : Config) (env : Env) (op : Op) (w : World) : World :=
  match op with
  | OpGetIdToken now tenantHost => snd (getIdTokenForTenant config env now tenantHost w)
  | OpStoreRefreshToken tenantHost refreshToken =>
      snd (storeRefreshToken tenantHost refreshToken w)
  | OpClearIdTokenCache tenantHost => clearIdTokenCache tenantHost w
  | OpCallback code state q_error q_error_description =>
      snd (oauth_callback config env code state q_error q_error_description w)
  | OpProxy startTime now endTime tenantHost path method query body =>
      snd (proxy_route config env startTime now endTime tenantHost path method query body w)
  end.

(** The worlds the process can be in: it starts with an empty cache, nothing
    sent and whatever the Key Vault holds, and moves by its entry points. *)
Inductive reachable (config : Config) (env : Env) : World -> Prop :=
| reachable_start (secrets : gmap string string) :
    reachable config env {| idTokenCache := ∅; vault := secrets; sent := [] |}
| reachable_step (op : Op) (w : World) :
    reachable config env w -> reachable config env (apply_op config env op w).

(** ** Sample configuration and networks *)

Definition sample_config : Config :=
  {| idBase := "https://id.vincere.io";
     clientId := "client";
     redirectUri := "https://proxy.example/auth/callback";
     idTokenCacheSeconds := 50 |}.

(** A stand-in for the platform's URL parser in the examples. It drops tabs
    and line breaks, takes [https://host/path] with a host over letters,
    digits, [-] and [.] and a path over letters, digits, [-], [_] and [/],
    and gives it back with the host in lower case, followed by the query
    when its keys and values are letters and digits; every other text it
    refuses. *)
Definition tab_or_newline (c : ascii) : bool :=
  ((Js.code c =? 9) || (Js.code c =? 10) || (Js.code c =? 13))%N.

Definition alphanumeric (c : ascii) : bool := lower_alpha c || upper_alpha c || digit c.

Definition plain_host_char (c : ascii) : bool :=
  alphanumeric c || Js.is_char "-" c || Js.is_char "." c.

Definition plain_path_char (c : ascii) : bool :=
  alphanumeric c || Js.is_char "-" c || Js.is_char "_" c || Js.is_char "/" c.

Fixpoint sample_host_path (s : string) : option string :=
  match s with
  | EmptyString => None
  | String c r =>
      if Js.is_char "/" c then (if every plain_path_char r then Some s else None)
      else if plain_host_char c then
        match sample_host_path r with
        | Some u => Some (String (Js.lower_char c) u)
        | None => None
        end
      else None
  end.

(** [searchParams.set(key, value)] on the list of entries. *)
Fixpoint searchParams_set (key value : string) (entries : list (string * string))
    : list (string * string) :=
  match entries with
  | [] => [(key, value)]
  | (k, v) :: rest =>
      if String.eqb k key
      then (k, value) :: List.filter (fun kv => negb (String.eqb (fst kv) key)) rest
      else (k, v) :: searchParams_set key value rest
  end.

Fixpoint sample_search (entries : list (string * string)) : string :=
  match entries with
  | [] => ""
  | [(k, v)] => k +:+ "=" +:+ v
  | (k, v) :: rest => k +:+ "=" +:+ v +:+ "&" +:+ sample_search rest
  end.

Definition sample_URL (text : string) (entries : list (string * string)) : Result string :=
  let text := Js.replace_class_g tab_or_newline "" text in
  let rest := String.substring 8 (String.length text - 8) text in
  let search := fold_left (fun l kv => searchParams_set (fst kv) (snd kv) l) entries [] in
  if Js.startsWith text "https://" && negb (Js.startsWith rest "/")
     && forallb (fun kv => every alphanumeric (fst kv) && every alphanumeric (snd kv)) search
  then
    match sample_host_path rest with
    | Some u =>
        Ok ("https://" +:+ u
            +:+ (if (length search =? 0)%nat then "" else "?" +:+ sample_search search))
    | None => Thrown "Invalid URL"
    end
  else Thrown "Invalid URL".

Definition no_network : Env :=
  {| token_endpoint := fun _ _ _ => NetError "Network Error" 5;
     vincere_api := fun _ _ _ _ _ _ _ => NetError "Network Error" 5;
     random_ms := fun _ => 0;
     new_URL := sample_URL |}.

Definition empty_world : World :=
  {| idTokenCache := ∅; vault := ∅; sent := [] |}.

Definition sample_tokens (idToken refreshToken : string) : TokenResponse :=
  {| access_token := "access"; refresh_token := refreshToken; id_token := idToken;
     expires_in := 3600; token_type := "Bearer" |}.

(** A provider that answers every refresh with a new id token, numbered by
    the token requests it has seen, and no new refresh token. *)
Definition counting_provider : Env :=
  {| token_endpoint := fun seen _ _ =>
       NetResponse 200
         (sample_tokens
            ("T" +:+ show_Z (Z.of_nat (S (length (List.filter is_token_post seen))))) "");
     vincere_api := fun _ _ _ _ _ _ _ => NetResponse 200 JOther;
     random_ms := fun _ => 0;
     new_URL := sample_URL |}.

(** A provider that rotates the refresh token on every refresh. *)
Definition rotating_provider : Env :=
  {| token_endpoint := fun _ _ _ => NetResponse 200 (sample_tokens "T1" "R2");
     vincere_api := fun _ _ _ _ _ _ _ => NetResponse 200 JOther;
     random_ms := fun _ => 0;
     new_URL := sample_URL |}.

(** A token endpoint and an API that answer 503 to every transmission. *)
Definition unavailable : Env :=
  {| token_endpoint := fun _ _ _ => NetResponse 503 (sample_tokens "" "");
     vincere_api := fun _ _ _ _ _ _ _ => NetResponse 503 JOther;
     random_ms := fun _ => 0;
     new_URL := sample_URL |}.

(** A token endpoint and an API that never answer: every transmission runs
    into the timeout. *)
Definition timing_out : Env :=
  {| token_endpoint := fun _ _ _ => NetError "timeout of 100000ms exceeded" 100001;
     vincere_api := fun _ _ _ _ _ _ _ => NetError "timeout of 100000ms exceeded" 100001;
     random_ms := fun _ => 0;
     new_URL := sample_URL |}.

(** A freshly started process whose Key Vault holds one refresh token. *)
Definition authorized_world (tenantHost refreshToken : string) : World :=
  {| idTokenCache := ∅;
     vault := {[ buildSecretName tenantHost SecretRefreshToken := refreshToken ]};
     sent := [] |}.

(** ** Sample worlds and runs *)

Definition acme : string := "acme.vincere.io".

(** The world after a first call at 1 s. *)
Definition after_first_call : World :=
  snd (getIdTokenForTenant sample_config counting_provider 1000 acme
         (authorized_world acme "R1")).

(** The world after that first call, the refresh token of the tenant having
    been deleted from the Key Vault since (as by [az keyvault secret delete]). *)
Definition after_revocation : World :=
  {| idTokenCache := idTokenCache after_first_call;
     vault := delete (buildSecretName acme SecretRefreshToken) (vault after_first_call);
     sent := sent after_first_call |}.

(** A host with a space in front, and one with a line feed in front, as they
    come out of [%20acme.vincere.io] and [%0Aacme.vincere.io] in the request
    path; and the worlds after a first call for them at 1 s. *)
Definition spaced_host : string := " acme.vincere.io".

Definition line_feed_host : string := String (ascii_of_N 10) "acme.vincere.io".

Definition after_first_call_spaced : World :=
  snd (getIdTokenForTenant sample_config counting_provider 1000 spaced_host
         (authorized_world spaced_host "R1")).

Definition after_first_call_line_feed : World :=
  snd (getIdTokenForTenant sample_config counting_provider 1000 line_feed_host
         (authorized_world line_feed_host "R1")).

(** The world after a refresh token was stored in an empty Key Vault. *)
Definition after_store : World :=
  snd (storeRefreshToken acme "R1" empty_world).

(** Two calls made together, resumed in turn until both have returned. *)
Definition two_calls_in_turn : Process :=
  run sample_config counting_provider [0; 1; 0; 1]%nat
    (call_all [1000; 1000] acme (authorized_world acme "R1")).

Definition two_calls_resumed_often : Process :=
  run sample_config counting_provider [0; 1; 0; 1; 0; 1; 1; 0]%nat
    (call_all [1000; 1001] acme (authorized_world acme "R1")).

(** ** Notions used in the statements *)

(** No code unit of [s] is white space. *)
Fixpoint solid (s : string) : bool :=
  match s with
  | EmptyString => true
  | String c r => negb (Js.is_white_space c) && solid r
  end.

(** A path with a traversal sequence, a double slash or a null byte, or an
    absolute path or URL. *)
Definition unsafe_path (path : string) : Prop :=
  Js.includes path ".." = true \/ Js.includes path "//" = true
  \/ Js.includes path NUL = true \/ Js.startsWith path "/" = true
  \/ Js.startsWith path "http://" = true \/ Js.startsWith path "https://" = true.

(** The form [refreshTokens] posts. *)
Definition refresh_form (config : Config) (refreshToken : string) : list (string * string) :=
  [ ("grant_type", "refresh_token"); ("refresh_token", refreshToken);
    ("client_id", clientId config) ].

(** Every cached id token was obtained with a refresh token that is still
    on record under the tenant's secret name. *)
Definition cache_backed (w : World) : Prop :=
  forall tenantHost entry,
    idTokenCache w !! tenantHost = Some entry ->
    is_Some (vault w !! buildSecretName tenantHost SecretRefreshToken).

Definition keeps_cache_backed {A : Type} (m : Async A) : Prop :=
  forall w, cache_backed w -> cache_backed (snd (m w)).

(** How far a call has come, and whether it has posted to the token endpoint. *)
Definition rank (t : Task) : nat :=
  match t with
  | AwaitSecret _ _ _ _ => 0
  | AwaitTokens _ _ _ _ => 1
  | AwaitWrite _ _ => 2
  | Finished _ => 3
  end.

Definition posted (t : Task) : nat :=
  match t with
  | AwaitSecret _ _ _ _ => 0
  | _ => 1
  end.

Definition posted_total (l : list Task) : nat := sum_list_with posted l.

(** A call none of whose awaited results is a failure. *)
Definition on_course (t : Task) : Prop :=
  match t with
  | AwaitSecret _ _ _ r => exists refreshToken, r = Ok (Some refreshToken)
  | AwaitTokens _ _ _ r => exists tokens, r = Ok tokens
  | AwaitWrite _ r => r = Ok tt
  | Finished r => exists idToken, r = Ok idToken
  end.

(** What holds of the process from the moment the calls are made. *)
Definition in_step (base : nat) (p : Process) : Prop :=
  Forall on_course (tasks p)
  /\ token_posts (world p) = (base + posted_total (tasks p))%nat.

(** The token endpoint answers the first transmission of every request with
    a 200 that carries an id token. *)
Definition provider_always_succeeds (env : Env) : Prop :=
  forall seen form, exists data,
    token_endpoint env seen form 0%nat = NetResponse 200 data
    /\ Js.falsy (id_token data) = false.

(** ** The language of a regular expression *)

Inductive lang : Regex.regex -> string -> Prop :=
| lang_eps : lang Regex.Eps ""
| lang_cls (p : ascii -> bool) (c : ascii) :
    p c = true -> lang (Regex.Cls p) (String c "")
| lang_seq (a b : Regex.regex) (s1 s2 : string) :
    lang a s1 -> lang b s2 -> lang (Regex.Seq a b) (s1 +:+ s2)
| lang_alt_l (a b : Regex.regex) (s : string) :
    lang a s -> lang (Regex.Alt a b) s
| lang_alt_r (a b : Regex.regex) (s : string) :
    lang b s -> lang (Regex.Alt a b) s
| lang_star_nil (a : Regex.regex) : lang (Regex.Star a) ""
| lang_star_app (a : Regex.regex) (s1 s2 : string) :
    lang a s1 -> lang (Regex.Star a) s2 -> lang (Regex.Star a) (s1 +:+ s2).

(** The 256 code units of the embedding. *)
Definition all_ascii : list ascii := map ascii_of_nat (seq 0 256).

(** ** oauth/service.ts: the state nonce *)

Definition base64_alphabet : string :=
  "ABCDEFGHIJKLMNOPQRSTUVWXYZabcdefghijklmnopqrstuvwxyz0123456789+/".

Definition base64_char (sextet : N) : ascii :=
  match String.get (N.to_nat sextet) base64_alphabet with
  | Some c => c
  | None => "="%char
  end.

(** [Buffer.from(bytes).toString('base64')] *)
Fixpoint base64 (bytes : list ascii) : string :=
  match bytes with
  | [] => EmptyString
  | [b0] =>
      let n0 := Js.code b0 in
      String (base64_char (n0 / 4))
        (String (base64_char (n0 mod 4 * 16)) "==")
  | [b0; b1] =>
      let n0 := Js.code b0 in
      let n1 := Js.code b1 in
      String (base64_char (n0 / 4))
        (String (base64_char (n0 mod 4 * 16 + n1 / 16))
           (String (base64_char (n1 mod 16 * 4)) "="))
  | b0 :: b1 :: b2 :: rest =>
      let n0 := Js.code b0 in
      let n1 := Js.code b1 in
      let n2 := Js.code b2 in
      String (base64_char (n0 / 4))
        (String (base64_char (n0 mod 4 * 16 + n1 / 16))
           (String (base64_char (n1 mod 16 * 4 + n2 / 64))
              (String (base64_char (n2 mod 64)) (base64 rest))))
  end%N.

(** [randomBytes] is what [crypto.getRandomValues(new Uint8Array(32))]
    returns. *)
Definition state_nonce (randomBytes : list ascii) : string :=
  Js.replace_class_g (Js.is_char "=") ""
    (Js.replace_class_g (Js.is_char "/") "_"
       (Js.replace_class_g (Js.is_char "+") "-" (base64 randomBytes))).

Definition generateStateNonce (randomBytes : list ascii) (tenantHost : string) : string :=
  let nonce := state_nonce randomBytes in
  nonce +:+ ":" +:+ tenantHost.

(** ** oauth/routes.ts: GET /auth/start

    The redirect target is kept as the text given to [new URL] and the
    search parameters set on it; [url_accepts] tells whether [new URL]
    accepts a text. *)

Inductive StartResponse : Type :=
| StartInvalidTenant (error : option string)                        (* 400 *)
| StartRedirect (target : string) (params : list (string * string)) (* 302 *)
| StartFailed.                                                      (* 500 *)

Definition oauth_start (config : Config) (url_accepts : string -> bool)
    (randomBytes : list ascii) (tenantHost : string) : StartResponse :=
  let validation := validateTenantHost tenantHost in
  if negb (valid validation) then StartInvalidTenant (error validation)
  else
    let state := generateStateNonce randomBytes tenantHost in
    let target := idBase config +:+ "/oauth2/authorize" in
    if url_accepts target
    then StartRedirect target
           [ ("response_type", "code"); ("client_id", clientId config);
             ("redirect_uri", redirectUri config); ("state", state) ]
    else StartFailed.

Fixpoint lookup_param (key : string) (params : list (string * string)) : option string :=
  match params with
  | [] => None
  | (k, v) :: rest => if String.eqb k key then Some v else lookup_param key rest
  end.

(** ** security/guards.ts *)

Inductive GuardResult : Type :=
| Next
| Respond (status : Z) (error : option string).

(** [clientIp] is [req.ip || req.socket.remoteAddress || '']. *)
Definition ipAllowList (allowedIps : list string) (clientIp : string) : GuardResult :=
  if (length allowedIps =? 0)%nat then Next
  else if Js.array_includes allowedIps clientIp then Next
  else Respond 403 (Some "Forbidden").

(** [got] is [req.header('X-Proxy-Token')]. *)
Definition pskGuard (require : bool) (getPsk : Async (option string))
    (allowedIps : list string) (clientIp : string) (got : option string)
    (w : World) : GuardResult * World :=
  let ipOk := (length allowedIps =? 0)%nat || Js.array_includes allowedIps clientIp in
  if negb require && ipOk then (Next, w)
  else if negb ipOk then (Respond 403 (Some "Forbidden"), w)
  else if negb require then (Next, w)
  else
    match getPsk w with
    | (Ok expected, w') =>
        if Js.absent expected then (Respond 500 (Some "PSK check failed"), w')
        else if negb (bool_decide (got = expected))
        then (Respond 401 (Some "Unauthorized"), w')
        else (Next, w')
    | (Thrown _, w') => (Respond 500 (Some "PSK check failed"), w')
    end.

Definition methodGuard (method : string) : GuardResult :=
  let validation := validateMethod method in
  if negb (valid validation) then Respond 405 (error validation) else Next.

(** [contentLength] is [req.headers['content-length']], [""] when absent. *)
Definition noBodyOnGet (method contentLength : string) : GuardResult :=
  if String.eqb method "GET" && negb (Js.falsy contentLength)
     && negb (String.eqb contentLength "0")
  then Respond 400 (Some "GET requests cannot have a body")
  else Next.

(** ** app.ts: the guards mounted on /vincere, after the rate limiter *)

Definition PSK_SECRET_NAME : string := "infra/proxy-psk".

Definition vincere_guards (allowedIps : list string) (requirePsk : bool)
    (clientIp : string) (got : option string) (method contentLength : string)
    (w : World) : GuardResult * World :=
  match ipAllowList allowedIps clientIp with
  | Respond status error => (Respond status error, w)
  | Next =>
      match pskGuard requirePsk (getSecretOrNull PSK_SECRET_NAME) allowedIps
              clientIp got w with
      | (Respond status error, w') => (Respond status error, w')
      | (Next, w') =>
          match methodGuard method with
          | Respond status error => (Respond status error, w')
          | Next => (noBodyOnGet method contentLength, w')
          end
      end
  end.

(** ** config/index.ts: the allow-list *)

Definition parseAllowedIps (input : string) : list string :=
  if Js.falsy input || Js.is_empty (Js.trim input) then []
  else List.filter (fun ip => negb (Js.falsy ip)) (map Js.trim (Js.split "," input)).

(** ** proxy/vincereClient.ts: headers as they are logged *)

Definition sensitiveKeys : list string := ["id-token"; "x-api-key"; "authorization"].

Fixpoint redactHeaders (headers : list (string * string)) : list (string * string) :=
  match headers with
  | [] => []
  | (key, value) :: rest =>
      (key,
       if Js.array_includes sensitiveKeys key && negb (Js.falsy value)
       then "[REDACTED]" else value)
      :: redactHeaders rest
  end.

(** ** Counting what was sent *)

Definition is_kv_get (e : Event) : bool :=
  match e with KvGet _ => true | _ => false end.

Definition is_kv_set (e : Event) : bool :=
  match e with KvSet _ _ => true | _ => false end.

Definition is_api_request (e : Event) : bool :=
  match e with ApiRequest _ _ _ _ _ => true | _ => false end.

Definition count_sent (kind : Event -> bool) (w : World) : nat :=
  length (List.filter kind (sent w)).

(** ** Notions used in the further statements *)

(** [a] is matched, under the [i] flag, by exactly the code units whose
    lower case is [a]. *)
Definition ci_exact (a : ascii) : bool :=
  forallb
    (fun c => Bool.eqb (Regex.ci (Js.is_char a) c) (Ascii.eqb (Js.lower_char c) a))
    all_ascii.

(** A host in normal form that validation accepts: a non-empty label over
    [[a-z0-9-]] other than ["10"], followed by [.vincere.io], of at most 253
    code units. *)
Definition canonical_host (n : string) : Prop :=
  exists label,
    n = label +:+ ".vincere.io"
    /\ label <> ""
    /\ every host_label_class label = true
    /\ label <> "10"
    /\ (String.length n <= 253)%nat.

(** [[a-z0-9-]] or a dot. *)
Definition host_char (c : ascii) : bool := host_label_class c || Js.is_char "." c.

Definition not_dot (c : ascii) : bool := negb (Js.is_char "." c).

(** The three replacements of [generateStateNonce]. *)
Definition url_safe (s : string) : string :=
  Js.replace_class_g (Js.is_char "=") ""
    (Js.replace_class_g (Js.is_char "/") "_"
       (Js.replace_class_g (Js.is_char "+") "-" s)).

(** The base64 digit of a sextet becomes one code unit of [[a-zA-Z0-9-_]]. *)
Definition sextet_ok (i : N) : bool :=
  match url_safe (String (base64_char i) "") with
  | String c EmptyString => nonce_class c
  | _ => false
  end.

(** The form [exchangeCodeForTokens] posts. *)
Definition exchange_form (config : Config) (code : string) : list (string * string) :=
  [ ("grant_type", "authorization_code"); ("code", code);
    ("client_id", clientId config); ("redirect_uri", redirectUri config) ].

(** The headers [callVincereApi] sends. *)
Definition api_headers (idToken : string) (apiKey : option string) : list (string * string) :=
  ([ ("id-token", idToken); ("Content-Type", "application/json");
     ("Accept", "application/json") ]
   ++ match apiKey with
      | Some k => [("x-api-key", k)]
      | None => []
      end)%list.

(** The API key on record for a tenant, if it has a value. *)
Definition stored_api_key (tenantHost : string) (w : World) : option string :=
  match vault w !! buildSecretName tenantHost SecretApiKey with
  | Some value => if Js.falsy value then None else Some value
  | None => None
  end.

Definition digit_or_minus (c : ascii) : bool := digit c || Js.is_char "-" c.

Definition not_control (c : ascii) : bool := negb (control_char c).

(** The string-valued entries of a query. *)
Fixpoint string_entries (params : list (string * QueryValue)) : list (string * string) :=
  match params with
  | [] => []
  | (key, QString value) :: rest => (key, value) :: string_entries rest
  | (_, QOther) :: rest => string_entries rest
  end.

(** The address test of [ipAllowList] and [pskGuard]: no list, or listed. *)
Definition ip_ok (allowedIps : list string) (clientIp : string) : bool :=
  (length allowedIps =? 0)%nat || Js.array_includes allowedIps clientIp.

(** The pre-shared key on record, if it has a value. *)
Definition stored_psk (w : World) : option string :=
  match vault w !! PSK_SECRET_NAME with
  | Some value => if Js.falsy value then None else Some value
  | None => None
  end.

Definition not_comma (c : ascii) : bool := negb (Js.is_char "," c).

(** What is left of the timeout when transmission [k] is sent, the earlier
    ones having failed: each took its time and was followed by its wait. *)
Fixpoint time_left {A : Type} (client : AxiosClient) (net : nat -> NetOutcome A)
    (random : nat -> Z) (k : nat) : Z :=
  match k with
  | O => timeout client
  | S j =>
      time_left client net random j - lastRequestDuration (net j)
      - retryDelay client (S j) (random j)
  end.

(** ** Notions used for the calls in flight together *)

(** The id token a call holds once the token endpoint has answered it. *)
Definition held_token (t : Task) : option string :=
  match t with
  | AwaitSecret _ _ _ _ => None
  | AwaitTokens _ _ _ (Ok tokens) => Some (id_token tokens)
  | AwaitTokens _ _ _ (Thrown _) => None
  | AwaitWrite idToken _ => Some idToken
  | Finished (Ok idToken) => Some idToken
  | Finished (Thrown _) => None
  end.

(** Call [t] made its exchange after the requests [seen]: its post of [form]
    followed them and is on record in [w], and the id token the call holds is
    the one the token endpoint answered that post with. *)
Definition own_exchange (config : Config) (env : Env) (form : list (string * string))
    (w : World) (t : Task) (seen : list Event) : Prop :=
  (TokenPost (tokenUrl config) form :: seen) `suffix_of` sent w
  /\ exists data,
       token_endpoint env seen form 0%nat = NetResponse 200 data
       /\ held_token t = Some (id_token data).

(** What holds of the calls and their exchanges from the moment the calls
    are made, [base] being the requests sent before: a call that has not
    posted yet has read [refreshToken]; a call that has posted is on course
    and has its own exchange, [exchanges !! i] for call [i], made after
    [base]; no two calls that have posted share an exchange. *)
Definition exchanges_owned (config : Config) (env : Env) (refreshToken : string)
    (base : list Event) (p : Process) (exchanges : list (list Event)) : Prop :=
  length exchanges = length (tasks p)
  /\ base `suffix_of` sent (world p)
  /\ (forall i t,
        tasks p !! i = Some t -> posted t = 0%nat ->
        exists tenantHost now name,
          t = AwaitSecret tenantHost now name (Ok (Some refreshToken)))
  /\ (forall i t seen,
        tasks p !! i = Some t -> exchanges !! i = Some seen -> posted t = 1%nat ->
        on_course t
        /\ base `suffix_of` seen
        /\ own_exchange config env (refresh_form config refreshToken) (world p) t seen)
  /\ (forall i j ti tj seen,
        tasks p !! i = Some ti -> tasks p !! j = Some tj ->
        posted ti = 1%nat -> posted tj = 1%nat ->
        exchanges !! i = Some seen -> exchanges !! j = Some seen -> i = j).

(** * Properties *)

(** ** Strings *)

Lemma startsWith_nil (s : string) : Js.startsWith s "" = true.
Proof. destruct s; reflexivity. Qed.

Lemma includes_nil_false (needle : string) :
  needle <> "" -> Js.includes "" needle = false.
Proof. destruct needle; [congruence | reflexivity]. Qed.

Lemma startsWith_trimEnd (needle s : string) :
  solid needle = true ->
  Js.startsWith s needle = true ->
  Js.startsWith (Js.trimEnd s) needle = true.
Proof.
  revert s. induction needle as [|a needle IH]; intros s Hsolid Hpre.
  - apply startsWith_nil.
  - destruct s as [|c s]; [discriminate|].
    simpl in Hsolid, Hpre.
    apply andb_prop in Hsolid as [Ha Hsolid], Hpre as [Hac Hpre].
    apply Ascii.eqb_eq in Hac; subst c.
    simpl. apply negb_true_iff in Ha. rewrite Ha. simpl.
    rewrite Ascii.eqb_refl. simpl. auto.
Qed.

Lemma includes_trimEnd (needle s : string) :
  needle <> "" -> solid needle = true ->
  Js.includes s needle = true ->
  Js.includes (Js.trimEnd s) needle = true.
Proof.
  intros Hne Hsolid. induction s as [|c s IH]; intros Hin.
  - rewrite includes_nil_false in Hin by assumption. discriminate.
  - change (Js.includes (String c s) needle)
      with (Js.startsWith (String c s) needle || Js.includes s needle) in Hin.
    apply orb_prop in Hin as [Hpre | Hin].
    + pose proof (startsWith_trimEnd needle (String c s) Hsolid Hpre) as H.
      destruct (Js.trimEnd (String c s)); simpl; simpl in H; rewrite H; reflexivity.
    + specialize (IH Hin).
      assert (Hnonempty : Js.is_empty (Js.trimEnd s) = false).
      { destruct (Js.trimEnd s); [|reflexivity].
        rewrite includes_nil_false in IH by assumption. discriminate. }
      simpl. rewrite Hnonempty, andb_false_r.
      change (Js.includes (String c (Js.trimEnd s)) needle)
        with (Js.startsWith (String c (Js.trimEnd s)) needle
              || Js.includes (Js.trimEnd s) needle).
      rewrite IH. apply orb_true_r.
Qed.

Lemma startsWith_white_space (c a : ascii) (s needle : string) :
  Js.is_white_space c = true -> solid (String a needle) = true ->
  Js.startsWith (String c s) (String a needle) = false.
Proof.
  intros Hc Hsolid. simpl in *.
  destruct (Ascii.eqb a c) eqn:E; [|reflexivity].
  apply Ascii.eqb_eq in E; subst a. rewrite Hc in Hsolid. discriminate.
Qed.

Lemma includes_trimStart (needle s : string) :
  needle <> "" -> solid needle = true ->
  Js.includes s needle = true ->
  Js.includes (Js.trimStart s) needle = true.
Proof.
  intros Hne Hsolid. induction s as [|c s IH]; intros Hin; [exact Hin|].
  simpl Js.trimStart. destruct (Js.is_white_space c) eqn:Hc; [|exact Hin].
  apply IH.
  change (Js.includes (String c s) needle)
    with (Js.startsWith (String c s) needle || Js.includes s needle) in Hin.
  destruct needle as [|a needle]; [congruence|].
  rewrite (startsWith_white_space c a s needle Hc Hsolid) in Hin. exact Hin.
Qed.

Lemma startsWith_trimStart (needle s : string) :
  needle <> "" -> solid needle = true ->
  Js.startsWith s needle = true ->
  Js.trimStart s = s.
Proof.
  intros Hne Hsolid Hpre.
  destruct needle as [|a needle]; [congruence|].
  destruct s as [|c s]; [reflexivity|].
  simpl. destruct (Js.is_white_space c) eqn:Hc; [|reflexivity].
  rewrite (startsWith_white_space c a s needle Hc Hsolid) in Hpre. discriminate.
Qed.

Lemma includes_trim (needle s : string) :
  needle <> "" -> solid needle = true ->
  Js.includes s needle = true -> Js.includes (Js.trim s) needle = true.
Proof.
  intros Hne Hsolid Hin. unfold Js.trim.
  apply includes_trimEnd; [assumption..|].
  apply includes_trimStart; assumption.
Qed.

Lemma startsWith_trim (needle s : string) :
  needle <> "" -> solid needle = true ->
  Js.startsWith s needle = true -> Js.startsWith (Js.trim s) needle = true.
Proof.
  intros Hne Hsolid Hpre. unfold Js.trim.
  rewrite (startsWith_trimStart needle s Hne Hsolid Hpre).
  apply startsWith_trimEnd; assumption.
Qed.

Lemma includes_nonempty (s needle : string) :
  needle <> "" -> Js.includes s needle = true -> Js.falsy s = false.
Proof.
  intros Hne Hin. destruct s; [|reflexivity].
  rewrite includes_nil_false in Hin by assumption. discriminate.
Qed.

Lemma startsWith_nonempty (s needle : string) :
  needle <> "" -> Js.startsWith s needle = true -> Js.falsy s = false.
Proof.
  intros Hne Hpre. destruct s; [|reflexivity].
  destruct needle; [congruence | discriminate].
Qed.

(** Splitting [nonce:rest] at the colons gives [nonce] first. *)
Lemma split_first_part (sep : ascii) (nonce rest : string) :
  Js.includes nonce (String sep "") = false ->
  Js.split sep (nonce +:+ String sep rest) = nonce :: Js.split sep rest.
Proof.
  induction nonce as [|c nonce IH]; intros Hno.
  - simpl. rewrite Ascii.eqb_refl. reflexivity.
  - change (Js.includes (String c nonce) (String sep ""))
      with (Js.startsWith (String c nonce) (String sep "")
            || Js.includes nonce (String sep "")) in Hno.
    apply orb_false_elim in Hno as [Hc Hno].
    simpl in Hc. rewrite startsWith_nil, andb_true_r in Hc.
    simpl. rewrite Ascii.eqb_sym, Hc. rewrite (IH Hno). reflexivity.
Qed.

(** ** Path validation and the proxy route *)

Lemma validatePath_unsafe (path : string) :
  unsafe_path path ->
  validatePath path = refused "Invalid path"
  \/ validatePath path = refused "Invalid path format".
Proof.
  unfold unsafe_path, validatePath. intros H.
  assert (Hfalsy : Js.falsy path = false).
  { destruct H as [H|[H|[H|[H|[H|H]]]]];
      first [ apply includes_nonempty in H; [exact H | discriminate]
            | apply startsWith_nonempty in H; [exact H | discriminate] ]. }
  rewrite Hfalsy.
  destruct (Js.includes (Js.trim path) ".." || Js.includes (Js.trim path) "//") eqn:E1;
    [left; reflexivity|].
  destruct (Js.includes (Js.trim path) NUL) eqn:E2; [left; reflexivity|].
  apply orb_false_elim in E1 as [E1a E1b].
  destruct H as [H|[H|[H|[H|[H|H]]]]].
  - apply includes_trim in H; [congruence | discriminate | reflexivity].
  - apply includes_trim in H; [congruence | discriminate | reflexivity].
  - apply includes_trim in H; [congruence | discriminate | reflexivity].
  - apply startsWith_trim in H; [| discriminate | reflexivity].
    rewrite H. right; reflexivity.
  - apply startsWith_trim in H; [| discriminate | reflexivity].
    rewrite H, orb_true_r. right; reflexivity.
  - apply startsWith_trim in H; [| discriminate | reflexivity].
    rewrite H, !orb_true_r. right; reflexivity.
Qed.

(** C6. For a tenant host that passes validation, and any method, query and
    body, a request whose path contains [..], [//] or a null byte, or starts
    with [/], [http://] or [https://], is answered with the invalid-path
    response and leaves the world as it was: no secret is read and nothing
    is sent upstream. *)
Theorem proxy_route_refuses_unsafe_path
    (config : Config) (env : Env) (startTime now endTime : Z)
    (tenantHost path method : string) (query : list (string * QueryValue))
    (body : option Json) (w : World) :
  valid (validateTenantHost tenantHost) = true ->
  unsafe_path path ->
  exists msg,
    proxy_route config env startTime now endTime tenantHost path method query body w
    = (InvalidPath (Some msg), w).
Proof.
  intros Hhost Hpath. unfold proxy_route. rewrite Hhost. simpl.
  destruct (validatePath_unsafe path Hpath) as [-> | ->]; simpl; eauto.
Qed.

Lemma proxy_route_refuses_unsafe_path_witness :
  exists msg,
    proxy_route
      sample_config no_network
      0 0 0 acme "../secret" "GET" [] None
      empty_world
    = (InvalidPath (Some msg), empty_world).
Proof.
  apply proxy_route_refuses_unsafe_path.
  - vm_compute. reflexivity.
  - left. vm_compute. reflexivity.
Defined.

(** ** The callback route *)

Lemma validateOAuthState_short_nonce (nonce rest : string) :
  Js.includes nonce ":" = false ->
  (String.length nonce < 16)%nat ->
  validateOAuthState (nonce +:+ ":" +:+ rest) = refused "Invalid state"
  \/ validateOAuthState (nonce +:+ ":" +:+ rest) = refused "Invalid state format".
Proof.
  intros Hcolon Hlen. unfold validateOAuthState.
  assert (Hfalsy : Js.falsy (nonce +:+ ":" +:+ rest) = false)
    by (destruct nonce; reflexivity).
  rewrite Hfalsy.
  change (nonce +:+ ":" +:+ rest) with (nonce +:+ String ":" rest).
  rewrite split_first_part by exact Hcolon.
  destruct (Js.split ":" rest) as [|tenantHost [|x more]]; [right; reflexivity| |right; reflexivity].
  apply Nat.ltb_lt in Hlen. rewrite Hlen, orb_true_r. simpl. left; reflexivity.
Qed.

(** C7. With an authorization code that passes code validation and no
    provider error, a state [nonce:rest] whose nonce is shorter than 16
    characters is answered with the invalid-state response, and the world is
    left as it was: nothing is posted to the token endpoint. *)
Theorem oauth_callback_refuses_short_nonce
    (config : Config) (env : Env) (code nonce rest description : string) (w : World) :
  valid (validateAuthCode code) = true ->
  Js.includes nonce ":" = false ->
  (String.length nonce < 16)%nat ->
  exists msg,
    oauth_callback config env code (nonce +:+ ":" +:+ rest) "" description w
    = (InvalidState (Some msg), w).
Proof.
  intros Hcode Hcolon Hlen. unfold oauth_callback. simpl Js.falsy. simpl negb.
  cbv iota. rewrite Hcode. simpl negb. cbv iota.
  destruct (validateOAuthState_short_nonce nonce rest Hcolon Hlen) as [-> | ->];
    simpl; eauto.
Qed.

Lemma oauth_callback_refuses_short_nonce_witness :
  exists msg,
    oauth_callback
      sample_config no_network
      "abcdef123456" ("shortnonce" +:+ ":" +:+ "tenant.example.io") "" ""
      empty_world
    = (InvalidState (Some msg), empty_world).
Proof.
  apply oauth_callback_refuses_short_nonce.
  - vm_compute. reflexivity.
  - vm_compute. reflexivity.
  - simpl. lia.
Defined.

(** C10. With no provider error, when the code fails code validation and
    the state fails state validation, the response is the invalid-code one,
    carrying the code validator's message. *)
Theorem oauth_callback_checks_code_first
    (config : Config) (env : Env) (code state description : string) (w : World) :
  valid (validateAuthCode code) = false ->
  valid (validateOAuthState state) = false ->
  oauth_callback config env code state "" description w
  = (InvalidCode (error (validateAuthCode code)), w).
Proof.
  intros Hcode _. unfold oauth_callback. simpl Js.falsy. simpl negb. cbv iota.
  rewrite Hcode. reflexivity.
Qed.

Lemma oauth_callback_checks_code_first_witness :
  oauth_callback
    sample_config no_network
    "short" "shortnonce:tenant.example.io" "" ""
    empty_world
  = (InvalidCode (error (validateAuthCode "short")),
     empty_world).
Proof.
  apply oauth_callback_checks_code_first; vm_compute; reflexivity.
Defined.

(** ** Secret names *)

Lemma replace_class_g_length (cls : ascii -> bool) (r : ascii) (s : string) :
  String.length (Js.replace_class_g cls (String r "") s) = String.length s.
Proof.
  induction s as [|c s IH]; [reflexivity|].
  cbn [Js.replace_class_g]. destruct (cls c);
    change (String.length (String ?x "" +:+ ?y)) with (S (String.length y));
    rewrite IH; reflexivity.
Qed.

Lemma replace_class_g_get (cls : ascii -> bool) (r : ascii) (s : string) (i : nat) :
  String.get i (Js.replace_class_g cls (String r "") s)
  = option_map (fun c => if cls c then r else c) (String.get i s).
Proof.
  revert i. induction s as [|c s IH]; intros i; [reflexivity|].
  cbn [Js.replace_class_g].
  assert (Hstep : forall x y, String x "" +:+ y = String x y) by reflexivity.
  destruct (cls c) eqn:E; rewrite Hstep; destruct i as [|i]; simpl;
    rewrite ?E; auto.
Qed.

(** C8. The secret name of a tenant and a secret type is
    [vincere/<sanitizedTenant>/<secretType>], the type being [refresh_token]
    or [api_key], where the sanitized tenant has the tenant's length and, at
    every position, the tenant's character when it is in [A-Za-z0-9-] and
    [-] otherwise. *)
Theorem buildSecretName_scheme (tenant : string) (secretType : SecretType) :
  exists sanitizedTenant,
    buildSecretName tenant secretType
    = "vincere" +:+ "/" +:+ sanitizedTenant +:+ "/" +:+ secret_type_name secretType
    /\ (secret_type_name secretType = "refresh_token"
        \/ secret_type_name secretType = "api_key")
    /\ String.length sanitizedTenant = String.length tenant
    /\ forall i,
         String.get i sanitizedTenant
         = option_map
             (fun c => if upper_alpha c || lower_alpha c || digit c || Js.is_char "-" c
                       then c else "-"%char)
             (String.get i tenant).
Proof.
  exists (Js.replace_class_g unclean_class "-" tenant). repeat split.
  - destruct secretType; [left | right]; reflexivity.
  - apply replace_class_g_length.
  - intros i. rewrite replace_class_g_get.
    destruct (String.get i tenant) as [c|]; [|reflexivity].
    cbn [option_map]. f_equal. unfold unclean_class.
    generalize (lower_alpha c), (upper_alpha c), (digit c), (Js.is_char "-" c).
    intros [] [] [] []; reflexivity.
Qed.

Example buildSecretName_sample :
  buildSecretName "ecigroup.vincere.io" SecretRefreshToken
  = "vincere/ecigroup-vincere-io/refresh_token".
Proof. reflexivity. Qed.

(** ** Tenant hosts that differ in letter case *)

Lemma cache_set_other (tenantHost other : string) (entry : CachedIdToken) (w : World) :
  tenantHost <> other ->
  idTokenCache (snd (cache_set tenantHost entry w)) !! other = idTokenCache w !! other.
Proof. intros Hne. simpl. apply lookup_insert_ne. exact Hne. Qed.

(** What a call for [tenantHost] changes: at most the cache entry of
    [tenantHost] and the secret named after it. *)
Lemma getIdTokenForTenant_frame (config : Config) (env : Env) (now : Z)
    (tenantHost : string) (w : World) :
  let w' := snd (getIdTokenForTenant config env now tenantHost w) in
  (forall other, other <> tenantHost -> idTokenCache w' !! other = idTokenCache w !! other)
  /\ (forall name, name <> buildSecretName tenantHost SecretRefreshToken ->
                   vault w' !! name = vault w !! name).
Proof.
  unfold getIdTokenForTenant.
  destruct (cached_fresh now tenantHost w); [simpl; auto|].
  unfold mbind, async_bind, getSecretOrNull.
  destruct (match vault w !! buildSecretName tenantHost SecretRefreshToken with
            | Some value => if Js.falsy value then None else Some value
            | None => None
            end) as [refreshToken|]; [|simpl; auto].
  unfold refreshTokens, mbind, async_bind, post_token.
  destruct (outcome _) as [status data|e]; [|simpl; auto].
  destruct (negb (status =? 200)); [simpl; auto|].
  destruct (Js.falsy (id_token data)); [simpl; auto|].
  unfold mret, async_ret, cache_set.
  destruct (Js.falsy (refresh_token data)); simpl; split; intros x Hx;
    rewrite ?lookup_insert_ne by congruence; reflexivity.
Qed.

(** ** The token lifecycle *)

Lemma token_posts_record (e : Event) (w : World) :
  token_posts (record_event e w)
  = ((if is_token_post e then 1 else 0) + token_posts w)%nat.
Proof. unfold token_posts. simpl. destruct (is_token_post e); reflexivity. Qed.

Lemma refreshTokens_world (config : Config) (env : Env) (refreshToken : string) (w : World) :
  snd (refreshTokens config env refreshToken w)
  = record_event (TokenPost (tokenUrl config) (refresh_form config refreshToken)) w.
Proof.
  unfold refreshTokens, mbind, async_bind, post_token, refresh_form.
  destruct (outcome _) as [status data|e]; [|reflexivity].
  destruct (negb (status =? 200)); [reflexivity|].
  destruct (Js.falsy (id_token data)); reflexivity.
Qed.

Lemma refreshTokens_id_token (config : Config) (env : Env) (refreshToken : string)
    (w w' : World) (tokens : TokenResponse) :
  refreshTokens config env refreshToken w = (Ok tokens, w') ->
  Js.falsy (id_token tokens) = false.
Proof.
  unfold refreshTokens, mbind, async_bind, post_token.
  destruct (outcome _) as [status data|e]; [|discriminate].
  destruct (negb (status =? 200)); [discriminate|].
  destruct (Js.falsy (id_token data)) eqn:E; [discriminate|].
  intros [= <- _]. exact E.
Qed.

(** What a call does when the cache has no fresh entry and it succeeds. *)
Lemma getIdTokenForTenant_refreshed (config : Config) (env : Env) (now : Z)
    (tenantHost idToken : string) (w w' : World) :
  cached_fresh now tenantHost w = None ->
  getIdTokenForTenant config env now tenantHost w = (Ok idToken, w') ->
  let name := buildSecretName tenantHost SecretRefreshToken in
  exists refreshToken tokens,
    vault w !! name = Some refreshToken
    /\ Js.falsy refreshToken = false
    /\ fst (refreshTokens config env refreshToken (record_event (KvGet name) w)) = Ok tokens
    /\ idToken = id_token tokens
    /\ idTokenCache w'
       = <[tenantHost := {| token := id_token tokens;
                            expiresAt := now + idTokenCacheSeconds config * 1000 |}]>
           (idTokenCache w)
    /\ vault w'
       = (if Js.falsy (refresh_token tokens) then vault w
          else <[name := refresh_token tokens]> (vault w))
    /\ token_posts w' = S (token_posts w).
Proof.
  intros Hmiss Hcall name. unfold getIdTokenForTenant in Hcall. rewrite Hmiss in Hcall.
  unfold mbind at 1, async_bind at 1, getSecretOrNull in Hcall. fold name in Hcall.
  destruct (vault w !! name) as [refreshToken|] eqn:Hv; [|discriminate].
  destruct (Js.falsy refreshToken) eqn:Hf; [discriminate|].
  unfold mbind at 1, async_bind at 1 in Hcall.
  pose proof (refreshTokens_world config env refreshToken (record_event (KvGet name) w)) as Hw.
  destruct (refreshTokens config env refreshToken (record_event (KvGet name) w))
    as [[tokens|msg] w1] eqn:Hr; [|discriminate].
  simpl in Hw. subst w1.
  exists refreshToken, tokens. split; [reflexivity|]. split; [exact Hf|].
  split; [rewrite Hr; reflexivity|].
  unfold mbind, async_bind, cache_set, mret, async_ret, setSecret in Hcall.
  destruct (Js.falsy (refresh_token tokens)); injection Hcall as <- <-; simpl;
    repeat split; unfold token_posts; reflexivity.
Qed.

Lemma cached_fresh_insert (now : Z) (tenantHost : string) (entry : CachedIdToken)
    (w : World) (cache : gmap string CachedIdToken) :
  idTokenCache w = <[tenantHost := entry]> cache ->
  cached_fresh now tenantHost w
  = if expiresAt entry >? now then Some (token entry) else None.
Proof. intros H. unfold cached_fresh. rewrite H, lookup_insert_eq. reflexivity. Qed.

(** C2. When the cache holds no fresh entry for the tenant and a call made at
    [t0] succeeds, the cache holds the returned id token with
    [expiresAt = t0 + idTokenCacheSeconds * 1000]; that entry is fresh at
    [now] exactly when [now < expiresAt]; and a second call at any [t1] before
    [expiresAt] returns the same id token and leaves the world as it was, so
    the pair of calls posted to the token endpoint once. *)
Theorem second_call_in_window_served_from_cache
    (config : Config) (env : Env) (t0 t1 : Z) (tenantHost idToken : string)
    (w w1 : World) :
  cached_fresh t0 tenantHost w = None ->
  getIdTokenForTenant config env t0 tenantHost w = (Ok idToken, w1) ->
  t1 < t0 + idTokenCacheSeconds config * 1000 ->
  idTokenCache w1 !! tenantHost
  = Some {| token := idToken; expiresAt := t0 + idTokenCacheSeconds config * 1000 |}
  /\ (forall now, cached_fresh now tenantHost w1 = Some idToken
                  <-> now < t0 + idTokenCacheSeconds config * 1000)
  /\ getIdTokenForTenant config env t1 tenantHost w1 = (Ok idToken, w1)
  /\ token_posts
       (snd (getIdTokenForTenant config env t1 tenantHost w1)) = S (token_posts w).
Proof.
  intros Hmiss Hcall Ht1.
  destruct (getIdTokenForTenant_refreshed _ _ _ _ _ _ _ Hmiss Hcall)
    as (refreshToken & tokens & _ & _ & _ & -> & Hcache & _ & Hposts).
  assert (Hfresh : forall now,
             cached_fresh now tenantHost w1 = Some (id_token tokens)
             <-> now < t0 + idTokenCacheSeconds config * 1000).
  { intros now. rewrite (cached_fresh_insert _ _ _ _ _ Hcache). simpl.
    destruct (Z.gtb_spec (t0 + idTokenCacheSeconds config * 1000) now);
      split; intros; [lia | reflexivity | discriminate | lia]. }
  assert (Hsecond : getIdTokenForTenant config env t1 tenantHost w1
                    = (Ok (id_token tokens), w1)).
  { unfold getIdTokenForTenant. rewrite (proj2 (Hfresh t1) Ht1). reflexivity. }
  split; [rewrite Hcache; apply lookup_insert_eq|].
  split; [exact Hfresh|]. split; [exact Hsecond|].
  rewrite Hsecond. exact Hposts.
Qed.

Lemma second_call_in_window_served_from_cache_witness :
  idTokenCache after_first_call !! acme = Some {| token := "T1"; expiresAt := 51000 |}
  /\ (forall now, cached_fresh now acme after_first_call = Some "T1" <-> now < 51000)
  /\ getIdTokenForTenant sample_config counting_provider 11000 acme after_first_call
     = (Ok "T1", after_first_call)
  /\ token_posts
       (snd (getIdTokenForTenant sample_config counting_provider 11000 acme after_first_call))
     = 1%nat.
Proof.
  apply (second_call_in_window_served_from_cache
           sample_config counting_provider 1000 11000 acme "T1"
           (authorized_world acme "R1") after_first_call).
  - reflexivity.
  - vm_compute. reflexivity.
  - simpl. lia.
Defined.

Lemma cache_backed_record (e : Event) (w : World) :
  cache_backed w -> cache_backed (record_event e w).
Proof. intros H. exact H. Qed.

Lemma keeps_bind {A B : Type} (m : Async A) (k : A -> Async B) :
  keeps_cache_backed m -> (forall a, keeps_cache_backed (k a)) ->
  keeps_cache_backed (m ≫= k).
Proof.
  intros Hm Hk w Hw. unfold mbind, async_bind.
  specialize (Hm w Hw). destruct (m w) as [[a|msg] w']; simpl in Hm.
  - apply Hk. exact Hm.
  - exact Hm.
Qed.

Lemma keeps_ret {A : Type} (a : A) : keeps_cache_backed (mret a).
Proof. intros w Hw. exact Hw. Qed.

Lemma keeps_throw {A : Type} (msg : string) : keeps_cache_backed (@throw A msg).
Proof. intros w Hw. exact Hw. Qed.

Lemma keeps_of_result {A : Type} (r : Result A) : keeps_cache_backed (of_result r).
Proof. intros w Hw. exact Hw. Qed.

Lemma keeps_getSecretOrNull (name : string) : keeps_cache_backed (getSecretOrNull name).
Proof. intros w Hw. exact Hw. Qed.

Lemma keeps_setSecret (name value : string) : keeps_cache_backed (setSecret name value).
Proof.
  intros w Hw tenantHost entry Hentry. simpl in *.
  specialize (Hw tenantHost entry Hentry).
  destruct (decide (name = buildSecretName tenantHost SecretRefreshToken)) as [->|Hne].
  - rewrite lookup_insert_eq. eauto.
  - rewrite lookup_insert_ne by exact Hne. exact Hw.
Qed.

Lemma keeps_post_token (config : Config) (env : Env) (form : list (string * string)) :
  keeps_cache_backed (post_token config env form).
Proof.
  intros w Hw. unfold post_token. destruct (outcome _); exact Hw.
Qed.

Lemma keeps_request_api (env : Env) url query method headers body :
  keeps_cache_backed (request_api env url query method headers body).
Proof.
  intros w Hw. unfold request_api. destruct (outcome _); exact Hw.
Qed.

Create HintDb keeps.

#[local] Hint Resolve keeps_ret keeps_throw keeps_of_result keeps_getSecretOrNull
  keeps_setSecret keeps_post_token keeps_request_api : keeps.

Ltac keeps_step :=
  repeat first
    [ apply keeps_bind; [|intros ?]
    | match goal with
      | |- keeps_cache_backed (let '(_, _) := ?x in _) => destruct x
      | |- keeps_cache_backed (if ?b then _ else _) => destruct b
      | |- keeps_cache_backed (match ?x with _ => _ end) => destruct x
      end
    | solve [auto with keeps] ].

Lemma keeps_refreshTokens (config : Config) (env : Env) (refreshToken : string) :
  keeps_cache_backed (refreshTokens config env refreshToken).
Proof. unfold refreshTokens. keeps_step. Qed.

Lemma keeps_exchangeCodeForTokens (config : Config) (env : Env) (code tenantHost : string) :
  keeps_cache_backed (exchangeCodeForTokens config env code tenantHost).
Proof. unfold exchangeCodeForTokens. keeps_step. Qed.

Lemma keeps_getIdTokenForTenant (config : Config) (env : Env) (now : Z)
    (tenantHost : string) :
  keeps_cache_backed (getIdTokenForTenant config env now tenantHost).
Proof.
  intros w Hw. unfold getIdTokenForTenant.
  destruct (cached_fresh now tenantHost w); [exact Hw|].
  unfold mbind at 1, async_bind at 1, getSecretOrNull.
  destruct (vault w !! buildSecretName tenantHost SecretRefreshToken)
    as [refreshToken|] eqn:Hv; [|exact Hw].
  destruct (Js.falsy refreshToken); [exact Hw|].
  unfold mbind at 1, async_bind at 1.
  pose proof (refreshTokens_world config env refreshToken
                (record_event (KvGet (buildSecretName tenantHost SecretRefreshToken)) w))
    as Hworld.
  destruct (refreshTokens config env refreshToken
              (record_event (KvGet (buildSecretName tenantHost SecretRefreshToken)) w))
    as [[tokens|msg] w1]; simpl in Hworld; subst w1; [|exact Hw].
  unfold mbind at 1, async_bind at 1, cache_set.
  apply keeps_bind; [keeps_step | intros ?; keeps_step |].
  intros t entry Hentry. simpl in *.
  destruct (decide (tenantHost = t)) as [->|Hne].
  - rewrite Hv. eauto.
  - rewrite lookup_insert_ne in Hentry by exact Hne. eapply Hw. exact Hentry.
Qed.

Lemma keeps_callVincereApi (config : Config) (env : Env) (startTime now endTime : Z)
    (tenantHost path method : string) (query : list (string * string))
    (body : option Json) :
  keeps_cache_backed
    (callVincereApi config env startTime now endTime tenantHost path method query body).
Proof.
  unfold callVincereApi.
  apply keeps_bind; [apply keeps_getIdTokenForTenant|intros ?]. keeps_step.
Qed.

Lemma keeps_proxy_forward (config : Config) (env : Env) (startTime now endTime : Z)
    (tenantHost path method : string) (query : list (string * QueryValue))
    (body : option Json) :
  keeps_cache_backed
    (proxy_forward config env startTime now endTime tenantHost path method query body).
Proof.
  unfold proxy_forward.
  apply keeps_bind; [apply keeps_callVincereApi|intros ?]. keeps_step.
Qed.

Lemma reachable_cache_backed (config : Config) (env : Env) (w : World) :
  reachable config env w -> cache_backed w.
Proof.
  induction 1 as [secrets | op w Hreach IH].
  - intros t entry Hentry. simpl in Hentry. rewrite lookup_empty in Hentry. discriminate.
  - destruct op; simpl.
    + apply keeps_getIdTokenForTenant. exact IH.
    + apply keeps_setSecret. exact IH.
    + intros t entry Hentry. simpl in *. apply (IH t entry).
      destruct tenantHost as [t'|].
      * destruct (Js.falsy t'); [rewrite lookup_empty in Hentry; discriminate|].
        apply lookup_delete_Some in Hentry as [_ Hentry]. exact Hentry.
      * rewrite lookup_empty in Hentry. discriminate.
    + unfold oauth_callback.
      destruct (negb (Js.falsy q_error)); [exact IH|].
      destruct (negb (valid (validateAuthCode code))); [exact IH|].
      destruct (negb (valid (validateOAuthState state))); [exact IH|].
      assert (Hk : keeps_cache_backed
                (tokens ← exchangeCodeForTokens config env code (nth 1 (Js.split ":" state) "");
                 storeRefreshToken (nth 1 (Js.split ":" state) "") tokens.1)).
      { apply keeps_bind; [apply keeps_exchangeCodeForTokens|intros ?; apply keeps_setSecret]. }
      specialize (Hk w IH).
      destruct ((tokens ← exchangeCodeForTokens config env code (nth 1 (Js.split ":" state) "");
                 storeRefreshToken (nth 1 (Js.split ":" state) "") tokens.1) w)
        as [[x|msg] w']; exact Hk.
    + unfold proxy_route.
      destruct (negb (valid (validateTenantHost tenantHost))); [exact IH|].
      destruct (negb (valid (validatePath path))); [exact IH|].
      pose proof (keeps_proxy_forward config env startTime now endTime tenantHost path
                    method query body w IH) as Hk.
      destruct (proxy_forward _ _ _ _ _ _ _ _ _ _ w) as [[r|msg] w']; simpl in Hk;
        [exact Hk|]. destruct (Js.includes msg "not authorized"); exact Hk.
Qed.

(** In any world, a call for a tenant with no refresh token on record posts
    nothing to the token endpoint. *)
Lemma no_refresh_token_no_post (config : Config) (env : Env) (now : Z)
    (tenantHost : string) (w : World) :
  vault w !! buildSecretName tenantHost SecretRefreshToken = None ->
  token_posts (snd (getIdTokenForTenant config env now tenantHost w)) = token_posts w.
Proof.
  intros Hv. unfold getIdTokenForTenant.
  destruct (cached_fresh now tenantHost w); [reflexivity|].
  unfold mbind, async_bind, getSecretOrNull. rewrite Hv. reflexivity.
Qed.

(** C3 (amended). A call for a tenant with no refresh token in the Key
    Vault throws the not-authorized error, after the one Key Vault read,
    when the cache holds no fresh id token for the tenant; when it holds
    one, the call returns it and the world is as it was; either way nothing
    is posted to the token endpoint. *)
Theorem no_refresh_token_not_authorized
    (config : Config) (env : Env) (now : Z) (tenantHost : string) (w : World) :
  vault w !! buildSecretName tenantHost SecretRefreshToken = None ->
  (cached_fresh now tenantHost w = None ->
   getIdTokenForTenant config env now tenantHost w
   = (Thrown "Tenant not authorized - no refresh token found",
      record_event (KvGet (buildSecretName tenantHost SecretRefreshToken)) w))
  /\ (forall idToken,
        cached_fresh now tenantHost w = Some idToken ->
        getIdTokenForTenant config env now tenantHost w = (Ok idToken, w))
  /\ token_posts (snd (getIdTokenForTenant config env now tenantHost w)) = token_posts w.
Proof.
  intros Hv. split; [|split].
  - intros Hmiss. unfold getIdTokenForTenant. rewrite Hmiss.
    unfold mbind, async_bind, getSecretOrNull. rewrite Hv. reflexivity.
  - intros idToken Hhit. unfold getIdTokenForTenant. rewrite Hhit. reflexivity.
  - apply no_refresh_token_no_post. exact Hv.
Qed.

Lemma no_refresh_token_not_authorized_witness :
  getIdTokenForTenant sample_config counting_provider 2000 "other.vincere.io" after_first_call
  = (Thrown "Tenant not authorized - no refresh token found",
     record_event (KvGet (buildSecretName "other.vincere.io" SecretRefreshToken))
       after_first_call)
  /\ token_posts (snd (getIdTokenForTenant sample_config counting_provider 2000
                         "other.vincere.io" after_first_call))
     = token_posts after_first_call.
Proof.
  destruct (no_refresh_token_not_authorized sample_config counting_provider 2000
              "other.vincere.io" after_first_call) as (Hmiss & _ & Hposts).
  - vm_compute. reflexivity.
  - split; [apply Hmiss; vm_compute; reflexivity | exact Hposts].
Defined.

(** C3 as first stated does not hold: after the refresh token of a tenant
    was deleted from the Key Vault, a call within the cache window still
    returns the cached id token. *)
Lemma cached_token_outlives_refresh_token :
  valid (validateTenantHost acme) = true
  /\ vault after_revocation !! buildSecretName acme SecretRefreshToken = None
  /\ getIdTokenForTenant sample_config counting_provider 11000 acme after_revocation
     = (Ok "T1", after_revocation)
  /\ ~ (exists w',
          getIdTokenForTenant sample_config counting_provider 11000 acme after_revocation
          = (Thrown "Tenant not authorized - no refresh token found", w')).
Proof.
  assert (Hcall : getIdTokenForTenant sample_config counting_provider 11000 acme
                    after_revocation = (Ok "T1", after_revocation))
    by (vm_compute; reflexivity).
  split; [vm_compute; reflexivity|]. split; [vm_compute; reflexivity|].
  split; [exact Hcall|]. intros [w' H]. rewrite Hcall in H. discriminate.
Qed.

(** C4. After [storeRefreshToken(t, v)], a call for [t] that finds no fresh
    cache entry and succeeds has exchanged [v]; when the exchange returned a
    refresh token, the Key Vault holds that token under [t]'s secret name in
    the world the call returns in, and when it returned none the Key Vault
    still holds [v]. *)
Theorem rotated_refresh_token_is_stored
    (config : Config) (env : Env) (now : Z) (t v idToken : string) (w0 w' : World) :
  let name := buildSecretName t SecretRefreshToken in
  let w := snd (storeRefreshToken t v w0) in
  cached_fresh now t w = None ->
  getIdTokenForTenant config env now t w = (Ok idToken, w') ->
  exists tokens,
    fst (refreshTokens config env v (record_event (KvGet name) w)) = Ok tokens
    /\ idToken = id_token tokens
    /\ (Js.falsy (refresh_token tokens) = false ->
        vault w' !! name = Some (refresh_token tokens))
    /\ (Js.falsy (refresh_token tokens) = true -> vault w' !! name = Some v).
Proof.
  intros name w Hmiss Hcall.
  destruct (getIdTokenForTenant_refreshed _ _ _ _ _ _ _ Hmiss Hcall)
    as (refreshToken & tokens & Hread & _ & Hexchange & Hid & _ & Hvault & _).
  fold name in Hread, Hexchange, Hvault.
  assert (Hstored : vault w !! name = Some v) by apply lookup_insert_eq.
  assert (refreshToken = v) by congruence. subst refreshToken.
  exists tokens. split; [exact Hexchange|]. split; [exact Hid|].
  rewrite Hvault. split; intros ->; [apply lookup_insert_eq | exact Hstored].
Qed.

Lemma rotated_refresh_token_is_stored_witness :
  vault after_store !! buildSecretName acme SecretRefreshToken = Some "R1"
  /\ vault (snd (getIdTokenForTenant sample_config rotating_provider 1000 acme after_store))
       !! buildSecretName acme SecretRefreshToken = Some "R2".
Proof.
  split; [reflexivity|].
  destruct (rotated_refresh_token_is_stored sample_config rotating_provider 1000
              acme "R1" "T1" empty_world
              (snd (getIdTokenForTenant sample_config rotating_provider 1000 acme after_store)))
    as (tokens & Hexchange & _ & Hnew & _).
  - reflexivity.
  - vm_compute. reflexivity.
  - vm_compute in Hexchange. injection Hexchange as <-. apply Hnew. reflexivity.
Defined.

(** ** Calls in flight together *)

(** One call alone, resumed to its end, is [getIdTokenForTenant]. *)
Lemma solo_run (config : Config) (env : Env) (now : Z) (tenantHost : string) (w : World) :
  let p := run config env [0; 0; 0]%nat (call_all [now] tenantHost w) in
  let '(r, w') := getIdTokenForTenant config env now tenantHost w in
  tasks p = [Finished r] /\ world p = w'.
Proof.
  unfold getIdTokenForTenant, call_all, call.
  destruct (cached_fresh now tenantHost w); [split; reflexivity|].
  unfold mbind at 1, async_bind at 1.
  destruct (getSecretOrNull (buildSecretName tenantHost SecretRefreshToken) w)
    as [[[refreshToken|]|msg] w1]; try (split; reflexivity).
  unfold mbind at 1, async_bind at 1.
  unfold run, resume_at. simpl.
  destruct (refreshTokens config env refreshToken w1) as [[tokens|msg] w2];
    [|split; reflexivity].
  simpl. unfold cache_set, mbind, async_bind, mret, async_ret.
  destruct (Js.falsy (refresh_token tokens)); split; reflexivity.
Qed.

Section Interleaving.

Variable config : Config.
Variable env : Env.
Hypothesis provider_ok : provider_always_succeeds env.

Lemma refreshTokens_succeeds (refreshToken : string) (w : World) :
  exists tokens,
    refreshTokens config env refreshToken w
    = (Ok tokens,
       record_event (TokenPost (tokenUrl config) (refresh_form config refreshToken)) w).
Proof.
  destruct (provider_ok (sent w) (refresh_form config refreshToken)) as (data & Hnet & Hid).
  exists data.
  unfold refreshTokens, mbind, async_bind, post_token, axios_request.
  fold (refresh_form config refreshToken).
  simpl axios_send. rewrite Hnet. simpl. rewrite Hid. reflexivity.
Qed.

Lemma resume_rank (t : Task) (w : World) :
  (Nat.min 3 (S (rank t)) <= rank (fst (resume config env t w)))%nat.
Proof.
  destruct t as [tenantHost now name [[refreshToken|]|msg]
                |tenantHost now name [tokens|msg]
                |idToken [[]|msg]
                |r]; simpl; try lia.
  - destruct (refreshTokens config env refreshToken w); simpl; lia.
  - destruct (Js.falsy (refresh_token tokens)); simpl; lia.
Qed.

Lemma resume_on_course (t : Task) (w : World) :
  on_course t ->
  on_course (fst (resume config env t w))
  /\ (token_posts (snd (resume config env t w)) + posted t
      = token_posts w + posted (fst (resume config env t w)))%nat.
Proof.
  destruct t as [tenantHost now name r|tenantHost now name r|idToken r|r]; simpl.
  - intros [refreshToken ->].
    destruct (refreshTokens_succeeds refreshToken w) as [tokens ->].
    cbn [fst snd]. split; [simpl; eauto|]. rewrite token_posts_record. simpl. lia.
  - intros [tokens ->].
    destruct (Js.falsy (refresh_token tokens)); simpl; split; eauto.
  - intros ->. simpl. split; eauto.
  - intros H. split; [exact H | lia].
Qed.

Lemma posted_total_insert (l : list Task) (i : nat) (t t' : Task) :
  l !! i = Some t ->
  (posted_total (<[i := t']> l) + posted t = posted_total l + posted t')%nat.
Proof.
  revert i. induction l as [|x l IH]; intros i Hi; [discriminate|].
  destruct i as [|i]; simpl in *.
  - injection Hi as ->. unfold posted_total. simpl. lia.
  - specialize (IH i Hi). unfold posted_total in *. simpl. lia.
Qed.

Lemma resume_at_in_step (base i : nat) (p : Process) :
  in_step base p -> in_step base (resume_at config env i p).
Proof.
  intros [Hcourse Hposts]. unfold resume_at.
  destruct (tasks p !! i) as [t|] eqn:Hi; [|split; assumption].
  assert (Ht : on_course t) by (eapply Forall_lookup_1; eassumption).
  destruct (resume_on_course t (world p) Ht) as [Hcourse' Hposts'].
  pose proof (posted_total_insert (tasks p) i t (fst (resume config env t (world p))) Hi).
  destruct (resume config env t (world p)) as [t' w'].
  cbn [fst snd world tasks] in *.
  split; cbn [world tasks]; [apply Forall_insert; assumption | lia].
Qed.

Lemma run_in_step (base : nat) (schedule : list nat) (p : Process) :
  in_step base p -> in_step base (run config env schedule p).
Proof.
  revert p. induction schedule as [|i schedule IH]; intros p Hp; [exact Hp|].
  simpl. apply IH. apply resume_at_in_step. exact Hp.
Qed.

Lemma resume_at_length (i : nat) (p : Process) :
  length (tasks (resume_at config env i p)) = length (tasks p).
Proof.
  unfold resume_at. destruct (tasks p !! i); [|reflexivity].
  destruct (resume config env t (world p)). simpl. apply length_insert.
Qed.

Lemma run_length (schedule : list nat) (p : Process) :
  length (tasks (run config env schedule p)) = length (tasks p).
Proof.
  revert p. induction schedule as [|i schedule IH]; intros p; [reflexivity|].
  simpl. rewrite IH. apply resume_at_length.
Qed.

(** A call resumed [n] times has advanced by [n] steps, or is finished. *)
Lemma run_rank (schedule : list nat) (p : Process) (i : nat) (t : Task) :
  tasks p !! i = Some t ->
  exists t',
    tasks (run config env schedule p) !! i = Some t'
    /\ (Nat.min 3 (rank t + count_occ Nat.eq_dec schedule i) <= rank t')%nat.
Proof.
  revert p t. induction schedule as [|j schedule IH]; intros p t Hi.
  - exists t. split; [exact Hi | cbn [count_occ]; lia].
  - unfold run. cbn [count_occ fold_left]. fold (run config env schedule).
    destruct (Nat.eq_dec j i) as [->|Hne].
    + assert (Hnext : tasks (resume_at config env i p) !! i
                      = Some (fst (resume config env t (world p)))).
      { unfold resume_at. rewrite Hi.
        destruct (resume config env t (world p)). simpl.
        apply list_lookup_insert_eq. eapply lookup_lt_Some. exact Hi. }
      destruct (IH _ _ Hnext) as (t' & Hfinal & Hrank).
      exists t'. split; [exact Hfinal|].
      pose proof (resume_rank t (world p)). lia.
    + assert (Hnext : tasks (resume_at config env j p) !! i = Some t).
      { unfold resume_at. destruct (tasks p !! j); [|exact Hi].
        destruct (resume config env t0 (world p)). simpl.
        rewrite list_lookup_insert_ne by exact Hne. exact Hi. }
      destruct (IH _ _ Hnext) as (t' & Hfinal & Hrank).
      exists t'. split; [exact Hfinal | lia].
Qed.

Lemma posted_total_finished (l : list Task) :
  Forall (fun t => rank t = 3%nat) l -> posted_total l = length l.
Proof.
  induction 1 as [|t l Ht _ IH]; [reflexivity|].
  unfold posted_total in *. simpl. rewrite IH.
  destruct t; simpl in *; congruence.
Qed.

Lemma call_all_in_step (nows : list Z) (tenantHost refreshToken : string) (w : World) :
  Forall (fun now => cached_fresh now tenantHost w = None) nows ->
  vault w !! buildSecretName tenantHost SecretRefreshToken = Some refreshToken ->
  Js.falsy refreshToken = false ->
  let p := call_all nows tenantHost w in
  length (tasks p) = length nows
  /\ Forall on_course (tasks p)
  /\ posted_total (tasks p) = 0%nat
  /\ token_posts (world p) = token_posts w.
Proof.
  revert w. induction nows as [|now nows IH]; intros w Hstale Hv Hf.
  - simpl. repeat split. constructor.
  - apply Forall_cons_1 in Hstale as [Hnow Hstale].
    simpl. unfold call. rewrite Hnow. unfold getSecretOrNull. rewrite Hv, Hf.
    specialize (IH (record_event (KvGet (buildSecretName tenantHost SecretRefreshToken)) w)
                   Hstale Hv Hf).
    destruct IH as (Hlen & Hcourse & Hposted & Hposts). simpl.
    split; [rewrite Hlen; reflexivity|].
    split; [constructor; [simpl; eauto | exact Hcourse]|].
    split; [exact Hposted | exact Hposts].
Qed.

End Interleaving.

(** ** Whose exchange is whose *)

Section Ownership.

Variable config : Config.
Variable env : Env.
Variable refreshToken : string.
Variable base : list Event.
Hypothesis provider_ok : provider_always_succeeds env.

Lemma refreshTokens_answered (w : World) :
  exists data,
    token_endpoint env (sent w) (refresh_form config refreshToken) 0%nat
    = NetResponse 200 data
    /\ refreshTokens config env refreshToken w
       = (Ok data,
          record_event (TokenPost (tokenUrl config) (refresh_form config refreshToken)) w).
Proof.
  destruct (provider_ok (sent w) (refresh_form config refreshToken)) as (data & Hnet & Hid).
  exists data. split; [exact Hnet|].
  unfold refreshTokens, mbind, async_bind, post_token, axios_request.
  fold (refresh_form config refreshToken).
  simpl axios_send. rewrite Hnet. simpl. rewrite Hid. reflexivity.
Qed.

Lemma own_exchange_later (w w' : World) (t t' : Task) (seen : list Event) :
  sent w `suffix_of` sent w' ->
  held_token t' = held_token t ->
  own_exchange config env (refresh_form config refreshToken) w t seen ->
  own_exchange config env (refresh_form config refreshToken) w' t' seen.
Proof.
  intros Hsent Hheld [Hpost (data & Hnet & Htoken)]. split.
  - etransitivity; eassumption.
  - exists data. split; [exact Hnet | congruence].
Qed.

(** A call that has posted moves on. *)
Lemma owned_advance (p : Process) (exchanges : list (list Event)) (i : nat) (t t' : Task)
    (w' : World) :
  exchanges_owned config env refreshToken base p exchanges ->
  tasks p !! i = Some t ->
  sent (world p) `suffix_of` sent w' ->
  posted t = 1%nat -> posted t' = 1%nat ->
  (on_course t -> on_course t') ->
  held_token t' = held_token t ->
  exchanges_owned config env refreshToken base
    {| world := w'; tasks := <[i := t']> (tasks p) |} exchanges.
Proof.
  intros (Hlen & Hbase & Hwaiting & Hown & Hdistinct) Hi Hsent Ht Ht' Hcourse Hheld.
  assert (Hlt : (i < length (tasks p))%nat) by (eapply lookup_lt_Some; exact Hi).
  assert (Hposted : forall k tk, <[i := t']> (tasks p) !! k = Some tk ->
                      exists tk0, tasks p !! k = Some tk0 /\ posted tk0 = posted tk
                                  /\ (k <> i -> tk0 = tk)).
  { intros k tk Hk. destruct (decide (k = i)) as [->|Hne].
    - rewrite list_lookup_insert_eq in Hk by exact Hlt. injection Hk as <-.
      exists t. split; [exact Hi|]. split; [congruence | congruence].
    - rewrite list_lookup_insert_ne in Hk by congruence. eauto. }
  unfold exchanges_owned. cbn [tasks world]. refine (conj _ (conj _ (conj _ (conj _ _)))).
  - rewrite length_insert. exact Hlen.
  - etransitivity; eassumption.
  - intros k tk Hk Hzero. destruct (Hposted k tk Hk) as (tk0 & Hk0 & Hp & Hsame).
    destruct (decide (k = i)) as [->|Hne]; [congruence|].
    rewrite <- (Hsame Hne). apply (Hwaiting k tk0 Hk0). congruence.
  - intros k tk seen Hk Hseen Hone.
    destruct (decide (k = i)) as [->|Hne].
    + rewrite list_lookup_insert_eq in Hk by exact Hlt. injection Hk as <-.
      destruct (Hown i t seen Hi Hseen Ht) as (Hc & Hb & Hx).
      split; [apply Hcourse; exact Hc|]. split; [exact Hb|].
      apply (own_exchange_later (world p) w' t t' seen Hsent Hheld Hx).
    + rewrite list_lookup_insert_ne in Hk by congruence.
      destruct (Hown k tk seen Hk Hseen Hone) as (Hc & Hb & Hx).
      split; [exact Hc|]. split; [exact Hb|].
      apply (own_exchange_later (world p) w' tk tk seen Hsent eq_refl Hx).
  - intros k j tk tj seen Hk Hj Hpk Hpj Hsk Hsj.
    destruct (Hposted k tk Hk) as (tk0 & Hk0 & Hpk0 & _).
    destruct (Hposted j tj Hj) as (tj0 & Hj0 & Hpj0 & _).
    apply (Hdistinct k j tk0 tj0 seen Hk0 Hj0); congruence.
Qed.

(** A call posts: its exchange is the requests sent so far. *)
Lemma owned_post (p : Process) (exchanges : list (list Event)) (i : nat) (t t' : Task)
    (data : TokenResponse) :
  exchanges_owned config env refreshToken base p exchanges ->
  tasks p !! i = Some t ->
  posted t = 0%nat -> posted t' = 1%nat ->
  on_course t' ->
  token_endpoint env (sent (world p)) (refresh_form config refreshToken) 0%nat
  = NetResponse 200 data ->
  held_token t' = Some (id_token data) ->
  exchanges_owned config env refreshToken base
    {| world := record_event
                  (TokenPost (tokenUrl config) (refresh_form config refreshToken)) (world p);
       tasks := <[i := t']> (tasks p) |}
    (<[i := sent (world p)]> exchanges).
Proof.
  intros (Hlen & Hbase & Hwaiting & Hown & Hdistinct) Hi Ht Ht' Hcourse Hnet Hheld.
  assert (Hlt : (i < length (tasks p))%nat) by (eapply lookup_lt_Some; exact Hi).
  assert (Hsent : sent (world p)
                  `suffix_of` sent (record_event
                                      (TokenPost (tokenUrl config)
                                         (refresh_form config refreshToken)) (world p)))
    by (apply suffix_cons_r; reflexivity).
  assert (Hfresh : forall k tk, tasks p !! k = Some tk -> posted tk = 1%nat ->
                     exchanges !! k <> Some (sent (world p))).
  { intros k tk Hk Hone Hseen.
    destruct (Hown k tk _ Hk Hseen Hone) as (_ & _ & Hpost & _).
    apply suffix_length in Hpost. cbn [length] in Hpost. lia. }
  unfold exchanges_owned. cbn [tasks world]. refine (conj _ (conj _ (conj _ (conj _ _)))).
  - rewrite !length_insert. exact Hlen.
  - etransitivity; eassumption.
  - intros k tk Hk Hzero. destruct (decide (k = i)) as [->|Hne].
    + rewrite list_lookup_insert_eq in Hk by exact Hlt. injection Hk as <-. congruence.
    + rewrite list_lookup_insert_ne in Hk by congruence. apply (Hwaiting k tk Hk Hzero).
  - intros k tk seen Hk Hseen Hone. destruct (decide (k = i)) as [->|Hne].
    + rewrite list_lookup_insert_eq in Hk by exact Hlt. injection Hk as <-.
      rewrite list_lookup_insert_eq in Hseen by (rewrite Hlen; exact Hlt).
      injection Hseen as <-. split; [exact Hcourse|]. split; [exact Hbase|].
      split; [reflexivity|].
      exists data. split; [exact Hnet | exact Hheld].
    + rewrite list_lookup_insert_ne in Hk by congruence.
      rewrite list_lookup_insert_ne in Hseen by congruence.
      destruct (Hown k tk seen Hk Hseen Hone) as (Hc & Hb & Hx). split; [exact Hc|].
      split; [exact Hb|].
      apply (own_exchange_later (world p) _ tk tk seen Hsent eq_refl Hx).
  - intros k j tk tj seen Hk Hj Hpk Hpj Hsk Hsj.
    destruct (decide (k = i)) as [->|Hki]; destruct (decide (j = i)) as [->|Hji];
      [reflexivity | | |].
    + rewrite list_lookup_insert_eq in Hsk by (rewrite Hlen; exact Hlt).
      injection Hsk as <-.
      rewrite list_lookup_insert_ne in Hj by congruence.
      rewrite list_lookup_insert_ne in Hsj by congruence.
      exfalso. exact (Hfresh j tj Hj Hpj Hsj).
    + rewrite list_lookup_insert_eq in Hsj by (rewrite Hlen; exact Hlt).
      injection Hsj as <-.
      rewrite list_lookup_insert_ne in Hk by congruence.
      rewrite list_lookup_insert_ne in Hsk by congruence.
      exfalso. exact (Hfresh k tk Hk Hpk Hsk).
    + rewrite list_lookup_insert_ne in Hk by congruence.
      rewrite list_lookup_insert_ne in Hj by congruence.
      rewrite list_lookup_insert_ne in Hsk by congruence.
      rewrite list_lookup_insert_ne in Hsj by congruence.
      apply (Hdistinct k j tk tj seen Hk Hj Hpk Hpj Hsk Hsj).
Qed.

Lemma resume_at_owned (i : nat) (p : Process) (exchanges : list (list Event)) :
  exchanges_owned config env refreshToken base p exchanges ->
  exists exchanges',
    exchanges_owned config env refreshToken base (resume_at config env i p) exchanges'.
Proof.
  intros Howned. unfold resume_at.
  destruct (tasks p !! i) as [t|] eqn:Hi; [|exists exchanges; exact Howned].
  pose proof Howned as (Hlen & _ & Hwaiting & Hown & _).
  assert (Hseen : exists seen, exchanges !! i = Some seen).
  { apply lookup_lt_is_Some_2. rewrite Hlen. eapply lookup_lt_Some. exact Hi. }
  destruct Hseen as [seen Hseen].
  destruct t as [tenantHost now name r|tenantHost now name r|idToken r|r].
  - destruct (Hwaiting i _ Hi eq_refl) as (tenantHost' & now' & name' & Heq).
    injection Heq as -> -> -> ->. cbn [resume].
    destruct (refreshTokens_answered (world p)) as (data & Hnet & ->).
    exists (<[i := sent (world p)]> exchanges).
    apply (owned_post p exchanges i _ _ data Howned Hi); try reflexivity; [|exact Hnet].
    simpl. eauto.
  - destruct (Hown i _ seen Hi Hseen eq_refl) as [[tokens ->] _]. cbn [resume cache_set].
    exists exchanges.
    destruct (Js.falsy (refresh_token tokens)).
    + apply (owned_advance p exchanges i _ _ _ Howned Hi); try reflexivity.
      intros _. simpl. eauto.
    + cbn [setSecret]. apply (owned_advance p exchanges i _ _ _ Howned Hi); try reflexivity.
      apply suffix_cons_r. reflexivity.
  - destruct (Hown i _ seen Hi Hseen eq_refl) as [Hc _]. simpl in Hc. subst r.
    cbn [resume]. exists exchanges.
    apply (owned_advance p exchanges i _ _ _ Howned Hi); try reflexivity.
    intros _. simpl. eauto.
  - cbn [resume]. exists exchanges.
    apply (owned_advance p exchanges i _ _ _ Howned Hi); try reflexivity.
    intros H. exact H.
Qed.

Lemma run_owned (schedule : list nat) (p : Process) (exchanges : list (list Event)) :
  exchanges_owned config env refreshToken base p exchanges ->
  exists exchanges',
    exchanges_owned config env refreshToken base (run config env schedule p) exchanges'.
Proof.
  revert p exchanges. induction schedule as [|i schedule IH]; intros p exchanges Howned.
  - exists exchanges. exact Howned.
  - simpl. destruct (resume_at_owned i p exchanges Howned) as [exchanges' Howned'].
    apply (IH _ exchanges' Howned').
Qed.

Lemma call_all_owned (nows : list Z) (tenantHost : string) (w : World) :
  Forall (fun now => cached_fresh now tenantHost w = None) nows ->
  vault w !! buildSecretName tenantHost SecretRefreshToken = Some refreshToken ->
  Js.falsy refreshToken = false ->
  base = sent w ->
  exchanges_owned config env refreshToken base (call_all nows tenantHost w)
    (map (fun _ => []) nows).
Proof.
  intros Hstale Hv Hf Hbase.
  assert (Htasks : Forall (fun t => exists tenantHost now name,
                             t = AwaitSecret tenantHost now name (Ok (Some refreshToken)))
                     (tasks (call_all nows tenantHost w))
                   /\ length (tasks (call_all nows tenantHost w)) = length nows
                   /\ sent w `suffix_of` sent (world (call_all nows tenantHost w))).
  { clear Hbase. revert w Hstale Hv. induction nows as [|now nows IH]; intros w Hstale Hv.
    - split; [constructor | split; reflexivity].
    - apply Forall_cons_1 in Hstale as [Hnow Hstale].
      simpl. unfold call. rewrite Hnow. unfold getSecretOrNull. rewrite Hv, Hf.
      destruct (IH (record_event (KvGet (buildSecretName tenantHost SecretRefreshToken)) w)
                  Hstale Hv) as (Hall & Hlen & Hsent).
      simpl. split; [constructor; [eauto | exact Hall]|].
      split; [rewrite Hlen; reflexivity|].
      etransitivity; [|exact Hsent]. apply suffix_cons_r. reflexivity. }
  destruct Htasks as (Hall & Hlen & Hsent).
  refine (conj _ (conj _ (conj _ (conj _ _)))).
  - rewrite length_map. symmetry. exact Hlen.
  - rewrite Hbase. exact Hsent.
  - intros i t Hi _. apply (Forall_lookup_1 _ _ _ _ Hall Hi).
  - intros i t seen Hi _ Hone.
    destruct (Forall_lookup_1 _ _ _ _ Hall Hi) as (? & ? & ? & ->). discriminate.
  - intros i j ti tj seen Hi _ Hone.
    destruct (Forall_lookup_1 _ _ _ _ Hall Hi) as (? & ? & ? & ->). discriminate.
Qed.

End Ownership.

(** C1 (amended). Calls for one tenant made together while the cache has no
    fresh entry, with a refresh token on record and a token endpoint that
    answers every request, each do their own refresh: however the event loop
    interleaves them, once every call has been resumed to its end the token
    endpoint has been posted to once per call, and every call has returned
    the id token of its own exchange: the one the token endpoint answered to
    a post made after the calls were, no two calls sharing a post. *)
Theorem concurrent_calls_each_refresh
    (config : Config) (env : Env) (nows : list Z) (tenantHost refreshToken : string)
    (w : World) (schedule : list nat) :
  provider_always_succeeds env ->
  Forall (fun now => cached_fresh now tenantHost w = None) nows ->
  vault w !! buildSecretName tenantHost SecretRefreshToken = Some refreshToken ->
  Js.falsy refreshToken = false ->
  (forall i, (i < length nows)%nat -> (3 <= count_occ Nat.eq_dec schedule i)%nat) ->
  let p := run config env schedule (call_all nows tenantHost w) in
  length (tasks p) = length nows
  /\ Forall (fun t => exists idToken, t = Finished (Ok idToken)) (tasks p)
  /\ token_posts (world p) = (token_posts w + length nows)%nat
  /\ exists exchanges : list (list Event),
       NoDup exchanges
       /\ Forall2
            (fun t seen =>
               exists tokens,
                 sent w `suffix_of` seen
                 /\ (TokenPost (tokenUrl config) (refresh_form config refreshToken) :: seen)
                      `suffix_of` sent (world p)
                 /\ token_endpoint env seen (refresh_form config refreshToken) 0%nat
                    = NetResponse 200 tokens
                 /\ t = Finished (Ok (id_token tokens)))
            (tasks p) exchanges.
Proof.
  intros Hprovider Hstale Hv Hf Hfair p.
  destruct (call_all_in_step nows tenantHost refreshToken w Hstale Hv Hf)
    as (Hlen & Hcourse & Hposted & Hposts).
  assert (Hstart : in_step (token_posts w) (call_all nows tenantHost w)).
  { split; [exact Hcourse | rewrite Hposted, Hposts; lia]. }
  destruct (run_in_step config env Hprovider _ schedule _ Hstart) as [Hcourse' Hposts'].
  fold p in Hcourse', Hposts'.
  assert (Hlen' : length (tasks p) = length nows)
    by (unfold p; rewrite run_length; exact Hlen).
  assert (Hdone : Forall (fun t => rank t = 3%nat) (tasks p)).
  { apply Forall_lookup_2. intros i t' Hi.
    assert (Hlt : (i < length nows)%nat)
      by (rewrite <- Hlen'; eapply lookup_lt_Some; exact Hi).
    destruct (lookup_lt_is_Some_2 (tasks (call_all nows tenantHost w)) i) as [t Ht];
      [rewrite Hlen; exact Hlt|].
    destruct (run_rank config env schedule _ i t Ht) as (t'' & Hfinal & Hrank).
    fold p in Hfinal. rewrite Hi in Hfinal. injection Hfinal as <-.
    specialize (Hfair i Hlt). destruct t'; cbn [rank] in *; lia. }
  destruct (run_owned config env refreshToken (sent w) Hprovider schedule _ _
              (call_all_owned config env refreshToken (sent w) nows tenantHost w
                 Hstale Hv Hf eq_refl))
    as (exchanges & Hxlen & _ & _ & Hown & Hdistinct).
  fold p in Hxlen, Hown, Hdistinct.
  assert (Hfinished : forall i t, tasks p !! i = Some t -> posted t = 1%nat).
  { intros i t Hi. pose proof (Forall_lookup_1 _ _ _ _ Hdone Hi) as Hr.
    destruct t; simpl in Hr; try discriminate. reflexivity. }
  split; [exact Hlen'|]. split; [|split].
  - apply Forall_lookup_2. intros i t Hi.
    pose proof (Forall_lookup_1 _ _ _ _ Hcourse' Hi) as Hc.
    pose proof (Forall_lookup_1 _ _ _ _ Hdone Hi) as Hr.
    destruct t; simpl in Hr; try discriminate.
    destruct Hc as [idToken ->]. eauto.
  - rewrite Hposts', (posted_total_finished _ Hdone), Hlen'. reflexivity.
  - exists exchanges. split.
    + apply NoDup_alt. intros i j seen Hi Hj.
      destruct (lookup_lt_is_Some_2 (tasks p) i) as [ti Hti];
        [rewrite <- Hxlen; eapply lookup_lt_Some; exact Hi|].
      destruct (lookup_lt_is_Some_2 (tasks p) j) as [tj Htj];
        [rewrite <- Hxlen; eapply lookup_lt_Some; exact Hj|].
      apply (Hdistinct i j ti tj seen Hti Htj (Hfinished i ti Hti) (Hfinished j tj Htj)
               Hi Hj).
    + apply Forall2_same_length_lookup_2; [symmetry; exact Hxlen|].
      intros i t seen Hi Hseen.
      destruct (Hown i t seen Hi Hseen (Hfinished i t Hi))
        as (Hc & Hb & Hpost & tokens & Hnet & Hheld).
      pose proof (Forall_lookup_1 _ _ _ _ Hdone Hi) as Hr.
      destruct t as [| | |r]; simpl in Hr; try discriminate.
      destruct Hc as [idToken ->]. simpl in Hheld. injection Hheld as ->.
      exists tokens. split; [exact Hb|]. split; [exact Hpost|].
      split; [exact Hnet | reflexivity].
Qed.

Lemma concurrent_calls_each_refresh_witness :
  length (tasks two_calls_resumed_often) = 2%nat
  /\ Forall (fun t => exists idToken, t = Finished (Ok idToken)) (tasks two_calls_resumed_often)
  /\ token_posts (world two_calls_resumed_often) = 2%nat
  /\ exists exchanges : list (list Event),
       NoDup exchanges
       /\ Forall2
            (fun t seen =>
               exists tokens,
                 sent (authorized_world acme "R1") `suffix_of` seen
                 /\ (TokenPost (tokenUrl sample_config) (refresh_form sample_config "R1")
                      :: seen)
                      `suffix_of` sent (world two_calls_resumed_often)
                 /\ token_endpoint counting_provider seen (refresh_form sample_config "R1")
                      0%nat
                    = NetResponse 200 tokens
                 /\ t = Finished (Ok (id_token tokens)))
            (tasks two_calls_resumed_often) exchanges.
Proof.
  apply (concurrent_calls_each_refresh sample_config counting_provider [1000; 1001]
           acme "R1" (authorized_world acme "R1")).
  - intros seen form. eexists. split; reflexivity.
  - repeat constructor.
  - reflexivity.
  - reflexivity.
  - intros i Hi. simpl in Hi.
    destruct i as [|[|i]]; [simpl; lia | simpl; lia | lia].
Defined.

(** C1 as first stated does not hold: two calls made together on a stale
    cache post to the token endpoint twice and return different id tokens. *)
Lemma concurrent_calls_not_single_flight :
  tasks two_calls_in_turn = [Finished (Ok "T1"); Finished (Ok "T2")]
  /\ token_posts (world two_calls_in_turn) = 2%nat
  /\ ~ (token_posts (world two_calls_in_turn) = 1%nat
        /\ exists idToken,
             Forall (fun t => t = Finished (Ok idToken)) (tasks two_calls_in_turn)).
Proof.
  assert (Htasks : tasks two_calls_in_turn = [Finished (Ok "T1"); Finished (Ok "T2")])
    by (vm_compute; reflexivity).
  assert (Hposts : token_posts (world two_calls_in_turn) = 2%nat)
    by (vm_compute; reflexivity).
  split; [exact Htasks|]. split; [exact Hposts|].
  intros [Hone _]. rewrite Hposts in Hone. discriminate.
Qed.

(** ** The HTTP client *)

(** Whatever the status, a response ends the request: [validateStatus]
    accepts every status, so the request resolves and the retry handler,
    which runs on rejected requests, is never reached. *)
Lemma response_ends_request {A : Type} (net : nat -> NetOutcome A) (random : nat -> Z)
    (status : Z) (data : A) :
  net 0%nat = NetResponse status data ->
  axios_request axiosClient net random
  = {| outcome := Resolved status data; attempts := 1; delays := [] |}.
Proof. intros H. unfold axios_request. simpl. rewrite H. reflexivity. Qed.

Lemma post_token_first_response (config : Config) (env : Env)
    (form : list (string * string)) (w : World) (status : Z) (data : TokenResponse) :
  token_endpoint env (sent w) form 0%nat = NetResponse status data ->
  post_token config env form w
  = (Ok (status, data), record_event (TokenPost (tokenUrl config) form) w).
Proof.
  intros H. unfold post_token.
  rewrite (response_ends_request _ _ status data H). reflexivity.
Qed.

Lemma post_token_world (config : Config) (env : Env)
    (form : list (string * string)) (w : World) :
  snd (post_token config env form w) = record_event (TokenPost (tokenUrl config) form) w.
Proof. unfold post_token. destruct (outcome _); reflexivity. Qed.

Lemma axios_send_eq {A : Type} (remaining : nat) (t : Z) (net : nat -> NetOutcome A)
    (random : nat -> Z) :
  axios_send axiosClient remaining t net random
  = match net (3 - remaining)%nat with
    | NetResponse st d => {| outcome := Resolved st d; attempts := 1; delays := [] |}
    | NetError msg elapsed =>
        let e := {| err_message := msg; err_response := None |} in
        match remaining with
        | O => {| outcome := Rejected e; attempts := 1; delays := [] |}
        | S remaining' =>
            let delay :=
              retryDelay axiosClient (S (3 - remaining)) (random (3 - remaining)%nat) in
            let left := t - elapsed - delay in
            if negb (t =? 0) && (left <=? 0)
            then {| outcome := Rejected e; attempts := 1; delays := [] |}
            else
              let later :=
                axios_send axiosClient remaining' (if t =? 0 then 0 else left) net random in
              {| outcome := outcome later;
                 attempts := S (attempts later);
                 delays := delay :: delays later |}
        end
    end.
Proof.
  destruct remaining as [|remaining']; cbn [axios_send];
    change (retries axiosClient) with 3%nat;
    destruct (net (3 - _)%nat); reflexivity.
Qed.

Section Retries.

Context {A : Type} (net : nat -> NetOutcome A) (random : nat -> Z).

Lemma time_left_next (k : nat) (msg : string) (elapsed : Z) :
  net k = NetError msg elapsed ->
  time_left axiosClient net random (S k)
  = time_left axiosClient net random k - elapsed
    - retryDelay axiosClient (S k) (random k).
Proof. intros H. cbn [time_left]. rewrite H. reflexivity. Qed.

(** What a request comes to, from transmission [k] on. *)
Lemma axios_send_outcome (remaining k : nat) (t : Z) :
  (k + remaining = 3)%nat ->
  t = time_left axiosClient net random k ->
  t <> 0 ->
  let sending := axios_send axiosClient remaining t net random in
  (1 <= attempts sending <= S remaining)%nat
  /\ delays sending
     = map (fun i => retryDelay axiosClient (S i) (random i))
         (seq k (attempts sending - 1))
  /\ (forall status data,
        outcome sending = Resolved status data ->
        net (k + attempts sending - 1)%nat = NetResponse status data)
  /\ (forall e,
        outcome sending = Rejected e ->
        err_response e = None
        /\ (exists elapsed,
              net (k + attempts sending - 1)%nat = NetError (err_message e) elapsed)
        /\ (attempts sending = S remaining
            \/ time_left axiosClient net random (k + attempts sending) <= 0)).
Proof.
  revert k t. induction remaining as [|remaining IH]; intros k t Hk Ht Hpos sending;
    subst sending; rewrite axios_send_eq.
  - replace (3 - 0)%nat with k by lia.
    destruct (net k) as [msg elapsed|status data] eqn:Hnet; cbn [attempts delays outcome].
    + replace (k + 1 - 1)%nat with k by lia.
      refine (conj _ (conj _ (conj _ _))); [lia | reflexivity | discriminate |].
      intros e [= <-]. cbn [err_response err_message]. eauto.
    + replace (k + 1 - 1)%nat with k by lia.
      refine (conj _ (conj _ (conj _ _))); [lia | reflexivity | | discriminate].
      intros status' data' [= <- <-]. exact Hnet.
  - replace (3 - S remaining)%nat with k by lia.
    destruct (net k) as [msg elapsed|status data] eqn:Hnet.
    2:{ cbn [attempts delays outcome]. replace (k + 1 - 1)%nat with k by lia.
        refine (conj _ (conj _ (conj _ _))); [lia | reflexivity | | discriminate].
        intros status' data' [= <- <-]. exact Hnet. }
    cbv zeta. pose proof (time_left_next k msg elapsed Hnet) as Hnext.
    rewrite <- Ht in Hnext.
    apply Z.eqb_neq in Hpos. rewrite Hpos. cbn [negb andb].
    destruct (Z.leb_spec (t - elapsed - retryDelay axiosClient (S k) (random k)) 0)
      as [Hout|Hleft].
    + cbn [attempts delays outcome]. replace (k + 1 - 1)%nat with k by lia.
      refine (conj _ (conj _ (conj _ _))); [lia | reflexivity | discriminate |].
      intros e [= <-]. cbn [err_response err_message].
      split; [reflexivity|]. split; [eauto|]. right.
      replace (k + 1)%nat with (S k) by lia. lia.
    + destruct (IH (S k) (t - elapsed - retryDelay axiosClient (S k) (random k)))
        as (Hn & Hd & Hres & Hrej); [lia | congruence | lia |].
      cbn [attempts delays outcome].
      set (later := axios_send axiosClient remaining
                      (t - elapsed - retryDelay axiosClient (S k) (random k)) net random)
        in *.
      replace (k + S (attempts later) - 1)%nat with (S k + attempts later - 1)%nat by lia.
      replace (k + S (attempts later))%nat with (S k + attempts later)%nat by lia.
      refine (conj _ (conj _ (conj _ _))); [lia | | exact Hres |].
      * rewrite Hd. replace (S (attempts later) - 1)%nat with (S (attempts later - 1)) by lia.
        reflexivity.
      * intros e He. destruct (Hrej e He) as (H1 & H2 & H3).
        split; [exact H1|]. split; [exact H2|]. destruct H3; [left; lia | right; assumption].
Qed.

(** Failures that leave time, then a response. *)
Lemma axios_send_first_response (n remaining k : nat) (t : Z) (status : Z) (data : A) :
  (k + remaining = 3)%nat -> (n <= remaining)%nat ->
  t = time_left axiosClient net random k ->
  t <> 0 ->
  (forall j, (k <= j < k + n)%nat -> exists msg elapsed, net j = NetError msg elapsed) ->
  (forall j, (k <= j < k + n)%nat -> 0 < time_left axiosClient net random (S j)) ->
  net (k + n)%nat = NetResponse status data ->
  axios_send axiosClient remaining t net random
  = {| outcome := Resolved status data;
       attempts := S n;
       delays := map (fun i => retryDelay axiosClient (S i) (random i)) (seq k n) |}.
Proof.
  revert remaining k t. induction n as [|n IH]; intros remaining k t Hk Hn Ht Hpos Herr Hleft Hresp;
    rewrite axios_send_eq; replace (3 - remaining)%nat with k by lia.
  - replace (k + 0)%nat with k in Hresp by lia. rewrite Hresp. reflexivity.
  - destruct (Herr k) as (msg & elapsed & Hnet); [lia|]. rewrite Hnet.
    destruct remaining as [|remaining]; [lia|]. cbv zeta.
    pose proof (time_left_next k msg elapsed Hnet) as Hnext. rewrite <- Ht in Hnext.
    pose proof (Hleft k ltac:(lia)) as Hk1.
    apply Z.eqb_neq in Hpos. rewrite Hpos. cbn [negb andb].
    destruct (Z.leb_spec (t - elapsed - retryDelay axiosClient (S k) (random k)) 0)
      as [Hout|_]; [lia|].
    rewrite (IH remaining (S k) (t - elapsed - retryDelay axiosClient (S k) (random k)));
      [reflexivity | lia | lia | congruence | lia | | |].
    + intros j Hj. apply Herr. lia.
    + intros j Hj. apply Hleft. lia.
    + replace (S k + n)%nat with (k + S n)%nat by lia. exact Hresp.
Qed.

End Retries.

(** Failures that leave time, to the last retry. *)
Lemma axios_send_all_fail {A : Type} (net : nat -> NetOutcome A) (random : nat -> Z)
    (remaining k : nat) (t : Z) (message : string) (elapsed : Z) :
  (k + remaining = 3)%nat ->
  t = time_left axiosClient net random k ->
  t <> 0 ->
  (forall j, (k <= j < 3)%nat -> exists msg el, net j = NetError msg el) ->
  (forall j, (k <= j < 3)%nat -> 0 < time_left axiosClient net random (S j)) ->
  net 3%nat = NetError message elapsed ->
  axios_send axiosClient remaining t net random
  = {| outcome := Rejected {| err_message := message; err_response := None |};
       attempts := S remaining;
       delays := map (fun i => retryDelay axiosClient (S i) (random i)) (seq k remaining) |}.
Proof.
  revert k t. induction remaining as [|remaining IH]; intros k t Hk Ht Hpos Herr Hleft Hlast;
    rewrite axios_send_eq.
  - cbn [Nat.sub]. rewrite Hlast. reflexivity.
  - replace (3 - S remaining)%nat with k by lia.
    destruct (Herr k) as (msg & el & Hnet); [lia|]. rewrite Hnet. cbv zeta.
    pose proof (time_left_next net random k msg el Hnet) as Hnext. rewrite <- Ht in Hnext.
    pose proof (Hleft k ltac:(lia)) as Hk1.
    apply Z.eqb_neq in Hpos. rewrite Hpos. cbn [negb andb].
    destruct (Z.leb_spec (t - el - retryDelay axiosClient (S k) (random k)) 0)
      as [Hout|_]; [lia|].
    rewrite (IH (S k) (t - el - retryDelay axiosClient (S k) (random k)));
      [reflexivity | lia | congruence | lia | | | exact Hlast].
    + intros j Hj. apply Herr. lia.
    + intros j Hj. apply Hleft. lia.
Qed.

(** A failure that leaves no time ends the request. *)
Lemma axios_request_out_of_time {A : Type} (net : nat -> NetOutcome A) (random : nat -> Z)
    (message : string) (elapsed : Z) :
  net 0%nat = NetError message elapsed ->
  time_left axiosClient net random 1 <= 0 ->
  axios_request axiosClient net random
  = {| outcome := Rejected {| err_message := message; err_response := None |};
       attempts := 1;
       delays := [] |}.
Proof.
  intros Hnet Hleft. unfold axios_request.
  change (retries axiosClient) with 3%nat. rewrite axios_send_eq.
  cbn [Nat.sub]. rewrite Hnet. cbv zeta.
  rewrite (time_left_next net random 0 message elapsed Hnet) in Hleft.
  cbn [time_left] in Hleft.
  change (timeout axiosClient =? 0) with false. cbn [negb andb].
  destruct (Z.leb_spec (timeout axiosClient - elapsed
                        - retryDelay axiosClient 1 (random 0%nat)) 0) as [_|Hpos];
    [reflexivity | lia].
Qed.

Lemma retryDelay_doubles (retryCount : nat) (jitter jitter' : Z) :
  retryDelay axiosClient (S retryCount) jitter' - jitter'
  = 2 * (retryDelay axiosClient retryCount jitter - jitter).
Proof.
  simpl. rewrite Nat2Z.inj_succ, Z.pow_succ_r by lia. ring.
Qed.

(** C5, at a response with status 503. The retry condition accepts an error
    that carries a 503, yet when the token endpoint answers 503 the request
    is sent once, with no wait, and [refreshTokens] throws at once: the
    response is not retried. *)
Theorem unavailable_upstream_not_retried :
  retryCondition axiosClient
    {| err_message := "Request failed with status code 503"; err_response := Some 503 |}
  = true
  /\ (forall seen form,
        let sending :=
          axios_request axiosClient (token_endpoint unavailable seen form)
            (random_ms unavailable) in
        attempts sending = 1%nat /\ delays sending = [])
  /\ fst (refreshTokens sample_config unavailable "R1" empty_world)
     = Thrown "Token refresh failed with status 503"
  /\ fst (getIdTokenForTenant sample_config unavailable 1000 acme
            (authorized_world acme "R1"))
     = Thrown "Token refresh failed with status 503"
  /\ token_posts
       (snd (getIdTokenForTenant sample_config unavailable 1000 acme
               (authorized_world acme "R1"))) = 1%nat.
Proof.
  split; [reflexivity|]. split; [intros seen form; split; reflexivity|].
  split; [vm_compute; reflexivity|]. split; vm_compute; reflexivity.
Qed.

(** ** Tenant hosts that differ in letter case, continued *)

(** A call on a cache miss that the token endpoint answers with an id token. *)
Lemma getIdTokenForTenant_answered (config : Config) (env : Env) (now : Z)
    (tenantHost refreshToken : string) (tokens : TokenResponse) (w : World) :
  let name := buildSecretName tenantHost SecretRefreshToken in
  cached_fresh now tenantHost w = None ->
  vault w !! name = Some refreshToken ->
  Js.falsy refreshToken = false ->
  token_endpoint env (KvGet name :: sent w) (refresh_form config refreshToken) 0%nat
  = NetResponse 200 tokens ->
  Js.falsy (id_token tokens) = false ->
  exists w',
    getIdTokenForTenant config env now tenantHost w = (Ok (id_token tokens), w')
    /\ idTokenCache w'
       = <[tenantHost := {| token := id_token tokens;
                            expiresAt := now + idTokenCacheSeconds config * 1000 |}]>
           (idTokenCache w)
    /\ vault w'
       = (if Js.falsy (refresh_token tokens) then vault w
          else <[name := refresh_token tokens]> (vault w))
    /\ token_posts w' = S (token_posts w).
Proof.
  intros name Hmiss Hv Hf Hnet Hid.
  unfold getIdTokenForTenant. rewrite Hmiss.
  unfold mbind at 1, async_bind at 1, getSecretOrNull. fold name. rewrite Hv, Hf.
  unfold mbind at 1, async_bind at 1, refreshTokens.
  unfold mbind at 1, async_bind at 1. fold (refresh_form config refreshToken).
  rewrite (post_token_first_response config env (refresh_form config refreshToken)
             (record_event (KvGet name) w) 200 tokens Hnet).
  cbn [negb Z.eqb Pos.eqb]. rewrite Hid.
  unfold mbind, async_bind, mret, async_ret, cache_set, setSecret.
  destruct (Js.falsy (refresh_token tokens)); eexists; cbn [idTokenCache vault sent];
    (split; [reflexivity|]); (split; [reflexivity|]); (split; reflexivity).
Qed.

(** Two hosts with different secret names hold their credentials side by
    side. *)
Lemma separate_credentials (a b : string) (config : Config) (env : Env) (now : Z)
    (ra rb : string) (w : World) :
  let name_a := buildSecretName a SecretRefreshToken in
  let name_b := buildSecretName b SecretRefreshToken in
  a <> b -> name_a <> name_b ->
  provider_always_succeeds env ->
  Js.falsy ra = false -> Js.falsy rb = false ->
  cached_fresh now a w = None -> cached_fresh now b w = None ->
  let w1 := snd (storeRefreshToken b rb (snd (storeRefreshToken a ra w))) in
  exists (A B : TokenResponse) (w2 w3 : World),
    getIdTokenForTenant config env now a w1 = (Ok (id_token A), w2)
    /\ getIdTokenForTenant config env now b w2 = (Ok (id_token B), w3)
    /\ token_endpoint env (KvGet name_a :: sent w1) (refresh_form config ra) 0%nat
       = NetResponse 200 A
    /\ token_endpoint env (KvGet name_b :: sent w2) (refresh_form config rb) 0%nat
       = NetResponse 200 B
    /\ idTokenCache w3 !! a
       = Some {| token := id_token A;
                 expiresAt := now + idTokenCacheSeconds config * 1000 |}
    /\ idTokenCache w3 !! b
       = Some {| token := id_token B;
                 expiresAt := now + idTokenCacheSeconds config * 1000 |}
    /\ vault w3 !! name_a
       = Some (if Js.falsy (refresh_token A) then ra else refresh_token A)
    /\ vault w3 !! name_b
       = Some (if Js.falsy (refresh_token B) then rb else refresh_token B)
    /\ token_posts w2 = S (token_posts w)
    /\ token_posts w3 = S (S (token_posts w)).
Proof.
  intros name_a name_b Hab Hnames Hprovider Hra Hrb Hma Hmb w1.
  assert (Hcache1 : idTokenCache w1 = idTokenCache w) by reflexivity.
  assert (Hvault1 : vault w1 = <[name_b := rb]> (<[name_a := ra]> (vault w))) by reflexivity.
  destruct (Hprovider (KvGet name_a :: sent w1) (refresh_form config ra))
    as (A & HA & HidA).
  assert (Ha1 : vault w1 !! name_a = Some ra).
  { rewrite Hvault1, lookup_insert_ne by congruence. apply lookup_insert_eq. }
  destruct (getIdTokenForTenant_answered config env now a ra A w1 Hma Ha1 Hra HA HidA)
    as (w2 & Hcall2 & Hcache2 & Hvault2 & Hposts2).
  fold name_a in Hvault2.
  destruct (Hprovider (KvGet name_b :: sent w2) (refresh_form config rb))
    as (B & HB & HidB).
  assert (Hb2 : vault w2 !! name_b = Some rb).
  { rewrite Hvault2, Hvault1.
    destruct (Js.falsy (refresh_token A));
      rewrite ?(lookup_insert_ne _ name_a name_b) by exact Hnames; apply lookup_insert_eq. }
  assert (Hmb2 : cached_fresh now b w2 = None).
  { unfold cached_fresh in *. rewrite Hcache2, Hcache1, lookup_insert_ne by exact Hab.
    exact Hmb. }
  destruct (getIdTokenForTenant_answered config env now b rb B w2 Hmb2 Hb2 Hrb HB HidB)
    as (w3 & Hcall3 & Hcache3 & Hvault3 & Hposts3).
  fold name_b in Hvault3.
  exists A, B, w2, w3.
  split; [exact Hcall2|]. split; [exact Hcall3|]. split; [exact HA|]. split; [exact HB|].
  split; [rewrite Hcache3, lookup_insert_ne by congruence; rewrite Hcache2;
          apply lookup_insert_eq|].
  split; [rewrite Hcache3; apply lookup_insert_eq|].
  split.
  - rewrite Hvault3.
    assert (Ha2 : vault w2 !! name_a
                  = Some (if Js.falsy (refresh_token A) then ra else refresh_token A)).
    { rewrite Hvault2, Hvault1. destruct (Js.falsy (refresh_token A)).
      - rewrite lookup_insert_ne by congruence. apply lookup_insert_eq.
      - apply lookup_insert_eq. }
    destruct (Js.falsy (refresh_token B)); [exact Ha2|].
    rewrite lookup_insert_ne by congruence. exact Ha2.
  - split; [|split; [exact Hposts2 | rewrite Hposts3, Hposts2; reflexivity]].
    rewrite Hvault3. destruct (Js.falsy (refresh_token B)); [exact Hb2|].
    apply lookup_insert_eq.
Qed.

(** C9. ["ACME.vincere.io"] and ["acme.vincere.io"] differ only in letter
    case and both pass tenant validation, yet their secret names differ and
    they hold separate credentials. A call for either leaves the cache entry
    and the stored refresh token of the other as they were, in every world.
    And with a token endpoint that answers every request: after a refresh
    token was stored for each, a call for the first and then a call for the
    second on a stale cache each present their own refresh token and return
    the id token answered to it, in two exchanges; the cache then holds the
    two id tokens under the two hosts, and the Key Vault the two refresh
    tokens (each as stored, or as rotated by its own exchange) under the two
    secret names. *)
Theorem case_variants_hold_separate_credentials :
  exists a b : string,
    a <> b
    /\ Js.toLowerCase a = Js.toLowerCase b
    /\ valid (validateTenantHost a) = true
    /\ valid (validateTenantHost b) = true
    /\ buildSecretName a SecretRefreshToken <> buildSecretName b SecretRefreshToken
    /\ buildSecretName a SecretApiKey <> buildSecretName b SecretApiKey
    /\ (forall (x y : string) (config : Config) (env : Env) (now : Z) (w : World),
          (x = a /\ y = b) \/ (x = b /\ y = a) ->
          let w' := snd (getIdTokenForTenant config env now x w) in
          idTokenCache w' !! y = idTokenCache w !! y
          /\ vault w' !! buildSecretName y SecretRefreshToken
             = vault w !! buildSecretName y SecretRefreshToken)
    /\ (forall (config : Config) (env : Env) (now : Z) (ra rb : string) (w : World),
          provider_always_succeeds env ->
          Js.falsy ra = false -> Js.falsy rb = false ->
          cached_fresh now a w = None -> cached_fresh now b w = None ->
          let name_a := buildSecretName a SecretRefreshToken in
          let name_b := buildSecretName b SecretRefreshToken in
          let w1 := snd (storeRefreshToken b rb (snd (storeRefreshToken a ra w))) in
          exists (A B : TokenResponse) (w2 w3 : World),
            getIdTokenForTenant config env now a w1 = (Ok (id_token A), w2)
            /\ getIdTokenForTenant config env now b w2 = (Ok (id_token B), w3)
            /\ token_endpoint env (KvGet name_a :: sent w1) (refresh_form config ra) 0%nat
               = NetResponse 200 A
            /\ token_endpoint env (KvGet name_b :: sent w2) (refresh_form config rb) 0%nat
               = NetResponse 200 B
            /\ idTokenCache w3 !! a
               = Some {| token := id_token A;
                         expiresAt := now + idTokenCacheSeconds config * 1000 |}
            /\ idTokenCache w3 !! b
               = Some {| token := id_token B;
                         expiresAt := now + idTokenCacheSeconds config * 1000 |}
            /\ vault w3 !! name_a
               = Some (if Js.falsy (refresh_token A) then ra else refresh_token A)
            /\ vault w3 !! name_b
               = Some (if Js.falsy (refresh_token B) then rb else refresh_token B)
            /\ token_posts w2 = S (token_posts w)
            /\ token_posts w3 = S (S (token_posts w))).
Proof.
  exists "ACME.vincere.io", "acme.vincere.io".
  assert (Hab : "ACME.vincere.io" <> "acme.vincere.io") by discriminate.
  assert (Hnames : buildSecretName "ACME.vincere.io" SecretRefreshToken
                   <> buildSecretName "acme.vincere.io" SecretRefreshToken)
    by (vm_compute; discriminate).
  split; [exact Hab|].
  split; [vm_compute; reflexivity|].
  split; [vm_compute; reflexivity|].
  split; [vm_compute; reflexivity|].
  split; [exact Hnames|].
  split; [vm_compute; discriminate|].
  split.
  - intros x y config env now w Hxy.
    destruct (getIdTokenForTenant_frame config env now x w) as [Hc Hv].
    split; [apply Hc | apply Hv]; destruct Hxy as [[-> ->]|[-> ->]]; congruence.
  - intros config env now ra rb w Hprovider Hra Hrb Hma Hmb.
    apply (separate_credentials "ACME.vincere.io" "acme.vincere.io" config env now ra rb w);
      assumption.
Qed.

(** With a provider that numbers its id tokens, the two hosts end with
    different id tokens in the cache. *)
Lemma case_variants_hold_separate_credentials_witness :
  exists (a b : string) (w : World),
    a <> b
    /\ Js.toLowerCase a = Js.toLowerCase b
    /\ idTokenCache w !! a = Some {| token := "T1"; expiresAt := 51000 |}
    /\ idTokenCache w !! b = Some {| token := "T2"; expiresAt := 51000 |}
    /\ vault w !! buildSecretName a SecretRefreshToken = Some "RA"
    /\ vault w !! buildSecretName b SecretRefreshToken = Some "RB".
Proof.
  destruct case_variants_hold_separate_credentials
    as (a & b & Hab & Hlower & _ & _ & _ & _ & _ & Hside).
  destruct (Hside sample_config counting_provider 1000 "RA" "RB" empty_world)
    as (A & B & w2 & w3 & _ & _ & HA & HB & Hca & Hcb & Hva & Hvb & Hposts2 & _).
  - intros seen form. eexists. split; reflexivity.
  - reflexivity.
  - reflexivity.
  - unfold cached_fresh. cbn [idTokenCache empty_world]. rewrite lookup_empty. reflexivity.
  - unfold cached_fresh. cbn [idTokenCache empty_world]. rewrite lookup_empty. reflexivity.
  - assert (HA' : A = sample_tokens "T1" "").
    { cbn in HA. injection HA as <-. reflexivity. }
    assert (HB' : B = sample_tokens "T2" "").
    { cbn [token_endpoint counting_provider List.filter is_token_post] in HB.
      fold (token_posts w2) in HB. rewrite Hposts2 in HB.
      cbn in HB. injection HB as <-. reflexivity. }
    subst A B. exists a, b, w3.
    split; [exact Hab|]. split; [exact Hlower|].
    split; [exact Hca|]. split; [exact Hcb|]. split; [exact Hva | exact Hvb].
Defined.

(** ** Worked examples *)

(** The cases of the validators' test suite. *)
Example validateTenantHost_samples :
  map (fun h => valid (validateTenantHost h))
      ["ecigroup.vincere.io"; "test-tenant.vincere.io"; "abc123.vincere.io";
       "example.com"; "vincere.io"; "test.vincere.com"; "localhost"; "127.0.0.1";
       "::1"; ""; "   "; "10.vincere.io"; "ACME.vincere.io"]
  = [true; true; true; false; false; false; false; false; false; false; false;
     false; true].
Proof. vm_compute. reflexivity. Qed.

Example validatePath_samples :
  map (fun p => valid (validatePath p))
      ["candidate/search"; "api/v2/candidate/123"; "company"; "../etc/passwd";
       "api/../secret"; "test//path"; "http://evil.com"; "https://evil.com";
       "/etc/passwd"; "test" +:+ NUL +:+ "path"]
  = [true; true; true; false; false; false; false; false; false; false].
Proof. vm_compute. reflexivity. Qed.

Example validateOAuthState_samples :
  map (fun s => valid (validateOAuthState s))
      ["abcdef123456789012345678:ecigroup.vincere.io"; "invalid"; "nonce-only";
       "short:ecigroup.vincere.io"; "abcdef123456789012345678:evil.com"]
  = [true; false; false; false; false].
Proof. vm_compute. reflexivity. Qed.

Example validateAuthCode_samples :
  map (fun c => valid (validateAuthCode c))
      ["abcdef123456"; "ABC-123_456+789/xyz="; ""; "short"; "invalid<>code"]
  = [true; true; false; false; false].
Proof. vm_compute. reflexivity. Qed.

Example validateMethod_samples :
  map (fun m => valid (validateMethod m))
      ["GET"; "POST"; "get"; "post"; "DELETE"; "PUT"; "PATCH"; "OPTIONS"]
  = [true; true; true; true; false; false; false; false].
Proof. vm_compute. reflexivity. Qed.


(** The scenario of the specification: a refresh at 0 s, a cache hit at
    10 s, a second refresh at 60 s. *)
Example three_calls_scenario :
  let w0 := authorized_world "acme.vincere.io" "R1" in
  let '(r1, w1) := getIdTokenForTenant sample_config counting_provider 0 "acme.vincere.io" w0 in
  let '(r2, w2) := getIdTokenForTenant sample_config counting_provider 10000 "acme.vincere.io" w1 in
  let '(r3, w3) := getIdTokenForTenant sample_config counting_provider 60000 "acme.vincere.io" w2 in
  (r1, r2, r3) = (Ok "T1", Ok "T1", Ok "T2")
  /\ (token_posts w1, token_posts w2, token_posts w3) = (1, 1, 2)%nat.
Proof. vm_compute. split; reflexivity. Qed.

(** Authorizing ["ACME.vincere.io"] does not authorize ["acme.vincere.io"]. *)
Example case_variants_through_the_routes :
  let state := "abcdef123456789012345678:ACME.vincere.io" in
  let '(r0, w1) := oauth_callback sample_config rotating_provider "abcdef123456" state "" ""
                     empty_world in
  let '(r1, w2) := proxy_route sample_config rotating_provider 0 0 5 "ACME.vincere.io"
                     "candidate/search" "GET" [] None w1 in
  let '(r2, _) := proxy_route sample_config rotating_provider 0 0 5 "acme.vincere.io"
                     "candidate/search" "GET" [] None w2 in
  r0 = AuthorizationComplete "ACME.vincere.io"
  /\ proxy_status r1 = 200
  /\ r2 = NeedsAuthorization "Visit /auth/start?tenantHost=acme.vincere.io".
Proof. vm_compute. repeat split; reflexivity. Qed.

(** * Further properties *)

(** ** Strings, continued *)

Lemma app_cons (c : ascii) (s1 s2 : string) : String c s1 +:+ s2 = String c (s1 +:+ s2).
Proof. reflexivity. Qed.

Lemma app_nil_l (s : string) : "" +:+ s = s.
Proof. reflexivity. Qed.

Lemma app_nil_r (s : string) : s +:+ "" = s.
Proof. induction s as [|c s IH]; [reflexivity|]. rewrite app_cons, IH. reflexivity. Qed.

Lemma app_assoc (s1 s2 s3 : string) : (s1 +:+ s2) +:+ s3 = s1 +:+ (s2 +:+ s3).
Proof.
  induction s1 as [|c s1 IH]; [reflexivity|]. rewrite !app_cons, IH. reflexivity.
Qed.

Lemma app_eq_nil (s1 s2 : string) : s1 +:+ s2 = "" -> s1 = "" /\ s2 = "".
Proof. destruct s1; [intros H; split; [reflexivity | exact H] | discriminate]. Qed.

Lemma app_length (s1 s2 : string) :
  String.length (s1 +:+ s2) = (String.length s1 + String.length s2)%nat.
Proof.
  induction s1 as [|c s1 IH]; [reflexivity|].
  rewrite app_cons. simpl. rewrite IH. reflexivity.
Qed.

Lemma app_inv_tail (s1 s2 t : string) : s1 +:+ t = s2 +:+ t -> s1 = s2.
Proof.
  revert s2. induction s1 as [|c s1 IH]; intros [|d s2] H.
  - reflexivity.
  - apply (f_equal String.length) in H. rewrite app_nil_l, app_cons in H. simpl in H.
    rewrite app_length in H. lia.
  - apply (f_equal String.length) in H. rewrite app_nil_l, app_cons in H. simpl in H.
    rewrite app_length in H. lia.
  - rewrite !app_cons in H. injection H as -> H. f_equal. apply IH. exact H.
Qed.

Lemma every_app (p : ascii -> bool) (s1 s2 : string) :
  every p (s1 +:+ s2) = every p s1 && every p s2.
Proof.
  induction s1 as [|c s1 IH]; [reflexivity|].
  rewrite app_cons. simpl. rewrite IH. apply andb_assoc.
Qed.

Lemma every_impl (p q : ascii -> bool) (s : string) :
  (forall c, p c = true -> q c = true) -> every p s = true -> every q s = true.
Proof.
  intros Hpq. induction s as [|c s IH]; [reflexivity|]. simpl.
  intros H. apply andb_prop in H as [Hc Hs]. rewrite (Hpq c Hc), (IH Hs). reflexivity.
Qed.

(** A check made on the 256 code units holds of every code unit. *)
Lemma all_ascii_check (p : ascii -> bool) :
  forallb p all_ascii = true -> forall c, p c = true.
Proof.
  intros H c. rewrite forallb_forall in H. apply H.
  unfold all_ascii. rewrite <- (ascii_nat_embedding c).
  apply in_map, in_seq. pose proof (nat_ascii_bounded c). lia.
Qed.

Ltac by_all_ascii :=
  match goal with
  | |- forall c : ascii, @?P c = true => apply (all_ascii_check P); vm_compute; reflexivity
  end.

Lemma map_chars_app (f : ascii -> ascii) (s1 s2 : string) :
  Js.map_chars f (s1 +:+ s2) = Js.map_chars f s1 +:+ Js.map_chars f s2.
Proof.
  induction s1 as [|c s1 IH]; [reflexivity|].
  rewrite app_cons. simpl. rewrite IH. reflexivity.
Qed.

Lemma map_chars_length (f : ascii -> ascii) (s : string) :
  String.length (Js.map_chars f s) = String.length s.
Proof. induction s as [|c s IH]; [reflexivity|]. simpl. rewrite IH. reflexivity. Qed.

Lemma lower_char_idem (c : ascii) : Js.lower_char (Js.lower_char c) = Js.lower_char c.
Proof.
  revert c.
  assert (H : forall c, Ascii.eqb (Js.lower_char (Js.lower_char c)) (Js.lower_char c) = true)
    by by_all_ascii.
  intros c. apply Ascii.eqb_eq, H.
Qed.

Lemma toLowerCase_idem (s : string) : Js.toLowerCase (Js.toLowerCase s) = Js.toLowerCase s.
Proof.
  unfold Js.toLowerCase. induction s as [|c s IH]; [reflexivity|].
  cbn [Js.map_chars]. rewrite lower_char_idem, IH. reflexivity.
Qed.

(** ** Matching by derivatives decides the language *)

Lemma lang_nil_nullable (r : Regex.regex) (s : string) :
  lang r s -> s = "" -> Regex.nullable r = true.
Proof.
  induction 1 as [|p c Hp|a b s1 s2 _ IH1 _ IH2|a b s _ IH|a b s _ IH| |a s1 s2 _ _ _ _];
    intros Hs; simpl; try reflexivity.
  - discriminate.
  - apply app_eq_nil in Hs as [-> ->]. rewrite IH1, IH2; reflexivity.
  - rewrite IH by exact Hs. reflexivity.
  - rewrite IH by exact Hs. apply orb_true_r.
Qed.

Lemma nullable_lang (r : Regex.regex) : Regex.nullable r = true -> lang r "".
Proof.
  induction r as [| |p|a IHa b IHb|a IHa b IHb|a IHa]; simpl; intros H.
  - discriminate.
  - constructor.
  - discriminate.
  - apply andb_prop in H as [Ha Hb].
    change "" with ("" +:+ ""). constructor; auto.
  - apply orb_prop in H as [Ha|Hb]; [apply lang_alt_l | apply lang_alt_r]; auto.
  - constructor.
Qed.

Lemma deriv_sound (r : Regex.regex) (c : ascii) (s : string) :
  lang (Regex.deriv c r) s -> lang r (String c s).
Proof.
  revert s. induction r as [| |p|a IHa b IHb|a IHa b IHb|a IHa]; simpl; intros s H.
  - inversion H.
  - inversion H.
  - destruct (p c) eqn:Hp; inversion H; subst. constructor. exact Hp.
  - destruct (Regex.nullable a) eqn:Hn.
    + inversion H as [| | | ? ? ? Hl | ? ? ? Hr | |]; subst.
      * inversion Hl as [| |? ? s1 s2 H1 H2| | | |]; subst.
        rewrite <- app_cons. constructor; auto.
      * change (String c s) with ("" +:+ String c s).
        constructor; [apply nullable_lang; exact Hn | auto].
    + inversion H as [| |? ? s1 s2 H1 H2| | | |]; subst.
      rewrite <- app_cons. constructor; auto.
  - inversion H; subst; [apply lang_alt_l | apply lang_alt_r]; auto.
  - inversion H as [| |? ? s1 s2 H1 H2| | | |]; subst.
    rewrite <- app_cons. constructor; auto.
Qed.

Lemma deriv_complete (r : Regex.regex) (x : string) :
  lang r x -> forall c s, x = String c s -> lang (Regex.deriv c r) s.
Proof.
  induction 1 as [|p c0 Hp|a b s1 s2 H1 IH1 H2 IH2|a b x _ IH|a b x _ IH|
                 |a s1 s2 H1 IH1 H2 IH2];
    intros c s Hx; simpl.
  - discriminate.
  - injection Hx as -> <-. rewrite Hp. constructor.
  - destruct s1 as [|c1 s1].
    + rewrite app_nil_l in Hx.
      rewrite (lang_nil_nullable a "" H1 eq_refl).
      apply lang_alt_r. apply IH2. exact Hx.
    + rewrite app_cons in Hx. injection Hx as -> <-.
      assert (Hd : lang (Regex.Seq (Regex.deriv c a) b) (s1 +:+ s2))
        by (constructor; [apply IH1; reflexivity | exact H2]).
      destruct (Regex.nullable a); [apply lang_alt_l|]; exact Hd.
  - apply lang_alt_l. apply IH. exact Hx.
  - apply lang_alt_r. apply IH. exact Hx.
  - discriminate.
  - destruct s1 as [|c1 s1].
    + rewrite app_nil_l in Hx. apply IH2. exact Hx.
    + rewrite app_cons in Hx. injection Hx as -> <-.
      constructor; [apply IH1; reflexivity | exact H2].
Qed.

Lemma matches_lang (r : Regex.regex) (s : string) :
  Regex.matches r s = true <-> lang r s.
Proof.
  revert r. induction s as [|c s IH]; intros r; simpl.
  - split; [apply nullable_lang | intros H; eapply lang_nil_nullable; eauto].
  - rewrite IH. split; [apply deriv_sound | intros H; eapply deriv_complete; eauto].
Qed.

Lemma lang_star_cls (p : ascii -> bool) (s : string) :
  lang (Regex.Star (Regex.Cls p)) s <-> every p s = true.
Proof.
  split.
  - intros H. remember (Regex.Star (Regex.Cls p)) as r eqn:Hr.
    induction H as [| | | | | |a s1 s2 H1 _ H2 IH2]; try discriminate; [reflexivity|].
    injection Hr as ->. inversion H1; subst.
    rewrite app_cons, app_nil_l. simpl. rewrite IH2 by reflexivity.
    rewrite andb_true_r. assumption.
  - induction s as [|c s IH]; intros H; [constructor|].
    simpl in H. apply andb_prop in H as [Hc Hs].
    change (String c s) with (String c "" +:+ s).
    constructor; [constructor; exact Hc | auto].
Qed.

Lemma lang_plus_cls (p : ascii -> bool) (s : string) :
  lang (Regex.Plus (Regex.Cls p)) s <-> s <> "" /\ every p s = true.
Proof.
  unfold Regex.Plus. split.
  - intros H. inversion H as [| |? ? s1 s2 H1 H2| | | |]; subst.
    inversion H1; subst. rewrite app_cons, app_nil_l.
    split; [discriminate|]. simpl. apply lang_star_cls in H2. rewrite H2.
    rewrite andb_true_r. assumption.
  - intros [Hne H]. destruct s as [|c s]; [congruence|].
    simpl in H. apply andb_prop in H as [Hc Hs].
    change (String c s) with (String c "" +:+ s).
    constructor; [constructor; exact Hc | apply lang_star_cls; exact Hs].
Qed.

Lemma test_plus_cls (p : ascii -> bool) (s : string) :
  Regex.test_anchored (Regex.Plus (Regex.Cls p)) s = negb (Js.is_empty s) && every p s.
Proof.
  destruct (Regex.test_anchored (Regex.Plus (Regex.Cls p)) s) eqn:E.
  - apply matches_lang, lang_plus_cls in E as [Hne ->].
    destruct s; [congruence | reflexivity].
  - destruct (negb (Js.is_empty s) && every p s) eqn:E'; [|reflexivity].
    apply andb_prop in E' as [Hne He].
    assert (lang (Regex.Plus (Regex.Cls p)) s) as Hl.
    { apply lang_plus_cls. split; [destruct s; [discriminate | congruence] | exact He]. }
    apply matches_lang in Hl. unfold Regex.test_anchored in E. congruence.
Qed.

Lemma lang_lit (p s : string) : lang (Regex.Lit p) s <-> s = p.
Proof.
  revert s. induction p as [|a p IH]; intros s; simpl.
  - split; [intros H; inversion H; reflexivity | intros ->; constructor].
  - split.
    + intros H. inversion H as [| |? ? s1 s2 H1 H2| | | |]; subst.
      inversion H1 as [|? c Hc| | | | |]; subst. apply Ascii.eqb_eq in Hc. subst c.
      apply IH in H2. subst. reflexivity.
    + intros ->. change (String a p) with (String a "" +:+ p).
      constructor; [constructor; apply Ascii.eqb_refl | apply IH; reflexivity].
Qed.

(** What a string that starts with a match of [r] looks like. *)
Lemma test_prefix_lang (r : Regex.regex) (s : string) :
  Regex.test_prefix r s = true <-> exists p rest, s = p +:+ rest /\ lang r p.
Proof.
  unfold Regex.test_prefix. rewrite matches_lang. split.
  - intros H. inversion H; subst. eauto.
  - intros (p & rest & -> & Hp). constructor; [exact Hp|].
    apply lang_star_cls. clear. induction rest; [reflexivity | exact IHrest].
Qed.

(** ** Tenant hosts *)

Lemma ci_exact_spec (a c : ascii) :
  ci_exact a = true -> Regex.ci (Js.is_char a) c = Ascii.eqb (Js.lower_char c) a.
Proof.
  intros H. unfold ci_exact in H.
  apply Bool.eqb_prop. revert c. apply all_ascii_check. exact H.
Qed.

Lemma lang_litI (lit s : string) :
  every ci_exact lit = true -> (lang (LitI lit) s <-> Js.toLowerCase s = lit).
Proof.
  revert s. induction lit as [|a lit IH]; intros s Hlit; simpl in *.
  - split.
    + intros H. inversion H. reflexivity.
    + destruct s; [constructor | discriminate].
  - apply andb_prop in Hlit as [Ha Hlit]. split.
    + intros H. inversion H as [| |? ? s1 s2 H1 H2| | | |]; subst.
      inversion H1 as [|? c Hc| | | | |]; subst.
      rewrite (ci_exact_spec a c Ha) in Hc. apply Ascii.eqb_eq in Hc.
      apply (IH s2 Hlit) in H2. rewrite app_cons, app_nil_l.
      unfold Js.toLowerCase in *. cbn [Js.map_chars]. rewrite Hc, H2. reflexivity.
    + destruct s as [|c s]; [discriminate|].
      unfold Js.toLowerCase. cbn [Js.map_chars]. intros [= Hc Hs].
      change (String c s) with (String c "" +:+ s).
      constructor; [constructor | apply (IH s Hlit); exact Hs].
      rewrite (ci_exact_spec a c Ha). apply Ascii.eqb_eq. exact Hc.
Qed.

Lemma app_inj_length (a a' b b' : string) :
  String.length a = String.length a' -> a +:+ b = a' +:+ b' -> a = a' /\ b = b'.
Proof.
  revert a'. induction a as [|c a IH]; intros [|c' a'] Hlen H; try discriminate.
  - split; [reflexivity | exact H].
  - rewrite !app_cons in H. injection H as -> H. injection Hlen as Hlen.
    destruct (IH a' Hlen H) as [-> ->]. split; reflexivity.
Qed.

Lemma lower_fixed_every (s : string) :
  Js.toLowerCase s = s -> every (fun c => Ascii.eqb (Js.lower_char c) c) s = true.
Proof.
  unfold Js.toLowerCase. induction s as [|c s IH]; [reflexivity|].
  cbn [Js.map_chars every]. intros [= Hc Hs].
  rewrite Hc, Ascii.eqb_refl. simpl. apply IH. exact Hs.
Qed.

Lemma every_and (p q : ascii -> bool) (s : string) :
  every p s = true -> every q s = true -> every (fun c => p c && q c) s = true.
Proof.
  induction s as [|c s IH]; [reflexivity|]. simpl. intros Hp Hq.
  apply andb_prop in Hp as [-> Hp]. apply andb_prop in Hq as [-> Hq]. simpl. auto.
Qed.

Lemma host_pattern_lang (n : string) :
  Js.toLowerCase n = n ->
  (lang VINCERE_HOST_PATTERN n
   <-> exists label,
         n = label +:+ ".vincere.io" /\ label <> "" /\ every host_label_class label = true).
Proof.
  intros Hlow. unfold VINCERE_HOST_PATTERN. split.
  - intros H. inversion H as [| |? ? l s2 Hl Hs| | | |]; subst.
    apply lang_plus_cls in Hl as [Hne Hl].
    apply (lang_litI ".vincere.io") in Hs; [|vm_compute; reflexivity].
    unfold Js.toLowerCase in Hlow. rewrite map_chars_app in Hlow.
    apply app_inj_length in Hlow as [Hl' Hs']; [|apply map_chars_length].
    fold (Js.toLowerCase s2) in Hs'. rewrite Hs in Hs'. subst s2.
    exists l. split; [reflexivity|]. split; [exact Hne|].
    pose proof (every_and _ _ l Hl (lower_fixed_every l Hl')) as Hboth.
    revert Hboth. apply every_impl.
    assert (Hall : forall c,
               implb (Regex.ci host_label_class c && Ascii.eqb (Js.lower_char c) c)
                     (host_label_class c) = true) by by_all_ascii.
    intros c Hc. specialize (Hall c). rewrite Hc in Hall. exact Hall.
  - intros (label & -> & Hne & Hl). constructor.
    + apply lang_plus_cls. split; [exact Hne|]. revert Hl. apply every_impl.
      intros c Hc. unfold Regex.ci. rewrite Hc. reflexivity.
    + apply lang_litI; vm_compute; reflexivity.
Qed.

Lemma startsWith_refl (s : string) : Js.startsWith s s = true.
Proof. induction s as [|c s IH]; [reflexivity|]. simpl. rewrite Ascii.eqb_refl. exact IH. Qed.

Lemma includes_unfold (s needle : string) :
  Js.includes s needle
  = Js.startsWith s needle
    || match s with EmptyString => false | String _ r => Js.includes r needle end.
Proof. destruct s; reflexivity. Qed.

Lemma includes_app_r (a x : string) : Js.includes (a +:+ x) x = true.
Proof.
  induction a as [|c a IH].
  - rewrite app_nil_l, includes_unfold, startsWith_refl. reflexivity.
  - rewrite app_cons, includes_unfold, IH. apply orb_true_r.
Qed.

(** A code unit that occurs in [s] satisfies what every code unit of [s]
    satisfies. *)
Lemma includes_char_every (p : ascii -> bool) (a : ascii) (s : string) :
  Js.includes s (String a "") = true -> every p s = true -> p a = true.
Proof.
  induction s as [|c s IH]; [discriminate|].
  rewrite includes_unfold. simpl. rewrite startsWith_nil, andb_true_r.
  intros Hin Hev. apply andb_prop in Hev as [Hc Hs].
  apply orb_prop in Hin as [Hac | Hin].
  - apply Ascii.eqb_eq in Hac. subst. exact Hc.
  - auto.
Qed.

Lemma first_dot (a a' b b' : string) :
  every not_dot a = true -> every not_dot a' = true ->
  a +:+ String "." b = a' +:+ String "." b' -> a = a' /\ b = b'.
Proof.
  revert a'. induction a as [|c a IH]; intros [|c' a'] Ha Ha' H;
    rewrite ?app_nil_l, ?app_cons in H.
  - injection H as ->. split; reflexivity.
  - injection H as <- _. discriminate.
  - injection H as -> _. discriminate.
  - injection H as -> H. simpl in Ha, Ha'.
    apply andb_prop in Ha as [_ Ha]. apply andb_prop in Ha' as [_ Ha'].
    destruct (IH a' Ha Ha' H) as [-> ->]. split; reflexivity.
Qed.

Lemma label_not_dot (label : string) :
  every host_label_class label = true -> every not_dot label = true.
Proof.
  apply every_impl.
  assert (H : forall c, implb (host_label_class c) (not_dot c) = true) by by_all_ascii.
  intros c Hc. specialize (H c). rewrite Hc in H. exact H.
Qed.

Lemma label_host_chars (label : string) :
  every host_label_class label = true ->
  every host_char (label +:+ ".vincere.io") = true.
Proof.
  intros H. rewrite every_app. rewrite (every_impl host_label_class host_char label).
  - reflexivity.
  - intros c Hc. unfold host_char. rewrite Hc. reflexivity.
  - exact H.
Qed.

Lemma host_chars_lower_fixed (s : string) :
  every host_char s = true -> Js.toLowerCase s = s.
Proof.
  assert (Hall : forall c, implb (host_char c) (Ascii.eqb (Js.lower_char c) c) = true)
    by by_all_ascii.
  unfold Js.toLowerCase. induction s as [|c s IH]; [reflexivity|].
  cbn [every Js.map_chars]. intros H. apply andb_prop in H as [Hc Hs].
  specialize (Hall c). rewrite Hc in Hall. apply Ascii.eqb_eq in Hall.
  rewrite Hall, (IH Hs). reflexivity.
Qed.

(** None of the private-range patterns matches a canonical host. *)
Lemma private_ranges_miss (label : string) :
  label <> "" -> every host_label_class label = true -> label <> "10" ->
  existsb (fun range => Regex.test_prefix range (label +:+ ".vincere.io"))
    PRIVATE_IP_RANGES = false.
Proof.
  intros Hne Hl H10.
  pose proof (label_not_dot label Hl) as Hnd.
  pose proof (label_host_chars label Hl) as Hhc.
  assert (Hlit : forall pre post,
             every not_dot pre = true ->
             (label = pre -> forall rest, "vincere.io" = post +:+ rest -> False) ->
             forall rest, label +:+ ".vincere.io" = (pre +:+ String "." post) +:+ rest -> False).
  { intros pre post Hpre Hcontra rest H. rewrite app_assoc, app_cons in H.
    apply first_dot in H as [H1 H2]; [|exact Hnd|exact Hpre]. eauto. }
  assert (Hci : forall lit,
             every ci_exact lit = true -> every host_char lit = false ->
             Regex.test_prefix (LitI lit) (label +:+ ".vincere.io") = false).
  { intros lit Hex Hbad.
    destruct (Regex.test_prefix (LitI lit) (label +:+ ".vincere.io")) eqn:E; [|reflexivity].
    apply test_prefix_lang in E as (p & rest & Heq & Hp).
    apply lang_litI in Hp; [|exact Hex].
    rewrite Heq, every_app in Hhc. apply andb_prop in Hhc as [Hp' _].
    rewrite (host_chars_lower_fixed p Hp') in Hp. subst p. congruence. }
  unfold PRIVATE_IP_RANGES. cbn [existsb].
  rewrite (Hci "fc00:"), (Hci "fe80:") by (vm_compute; reflexivity).
  rewrite !orb_false_r.
  repeat match goal with
         | |- Regex.test_prefix ?r ?n || _ = false =>
             let E := fresh "E" in
             destruct (Regex.test_prefix r n) eqn:E; [exfalso | simpl]
         | |- Regex.test_prefix ?r ?n = false =>
             let E := fresh "E" in
             destruct (Regex.test_prefix r n) eqn:E; [exfalso | reflexivity]
         end.
  - apply test_prefix_lang in E as (p & rest & Heq & Hp).
    apply (lang_lit "10.") in Hp. subst p.
    apply (Hlit "10" "" eq_refl) in Heq; [exact Heq|]. intros H _ _. congruence.
  - apply test_prefix_lang in E0 as (p & rest & Heq & Hp).
    inversion Hp as [| |? ? s1 s2 H1 H2| | | |]; subst.
    apply (lang_lit "172.") in H1. subst s1.
    inversion H2 as [| |? ? s3 s4 H3 H4| | | |]; subst.
    apply (lang_lit ".") in H4. subst s4.
    assert (Hs3 : exists d rest3, s3 = String d rest3 /\ d <> "v"%char).
    { inversion H3 as [| | |? ? ? Hx|? ? ? Hx| |]; subst.
      - inversion Hx as [| |? ? t1 t2 Ht1 Ht2| | | |]; subst.
        apply (lang_lit "1") in Ht1. subst. eexists _, _. split; [reflexivity | discriminate].
      - inversion Hx as [| | |? ? ? Hy|? ? ? Hy| |]; subst;
          inversion Hy as [| |? ? t1 t2 Ht1 Ht2| | | |]; subst;
          first [apply (lang_lit "2") in Ht1 | apply (lang_lit "3") in Ht1];
          subst; eexists _, _; (split; [reflexivity | discriminate]). }
    destruct Hs3 as (d & rest3 & -> & Hd).
    change ("172." +:+ String d rest3 +:+ ".")
      with ("172" +:+ String "." (String d (rest3 +:+ "."))) in Heq.
    apply (Hlit "172" (String d (rest3 +:+ ".")) eq_refl) in Heq; [exact Heq|].
    intros _ rest' H. rewrite app_cons in H. injection H as H _. congruence.
  - apply test_prefix_lang in E1 as (p & rest & Heq & Hp).
    apply (lang_lit "192.168.") in Hp. subst p.
    apply (Hlit "192" "168." eq_refl) in Heq; [exact Heq|].
    intros _ rest' H. rewrite app_cons in H. discriminate.
  - apply test_prefix_lang in E2 as (p & rest & Heq & Hp).
    apply (lang_lit "169.254.") in Hp. subst p.
    apply (Hlit "169" "254." eq_refl) in Heq; [exact Heq|].
    intros _ rest' H. rewrite app_cons in H. discriminate.
Qed.

Lemma blocklist_miss (label : string) :
  Js.array_includes SSRF_BLOCKLIST (label +:+ ".vincere.io") = false.
Proof.
  destruct (Js.array_includes SSRF_BLOCKLIST (label +:+ ".vincere.io")) eqn:E;
    [|reflexivity].
  unfold Js.array_includes in E. apply existsb_exists in E as (b & Hin & Heq).
  apply String.eqb_eq in Heq.
  pose proof (includes_app_r label ".vincere.io") as Hinc. rewrite Heq in Hinc.
  simpl in Hin.
  repeat (destruct Hin as [<- | Hin]; [vm_compute in Hinc; discriminate|]).
  destruct Hin.
Qed.

Lemma solid_trim (s : string) : solid s = true -> Js.trim s = s.
Proof.
  intros H. unfold Js.trim.
  assert (Hstart : Js.trimStart s = s).
  { destruct s as [|c s]; [reflexivity|]. simpl in *.
    apply andb_prop in H as [Hc _]. apply negb_true_iff in Hc. rewrite Hc. reflexivity. }
  rewrite Hstart. induction s as [|c s IH]; [reflexivity|].
  simpl in *. apply andb_prop in H as [Hc Hs]. apply negb_true_iff in Hc.
  rewrite Hc. simpl. rewrite IH; [reflexivity | exact Hs |].
  destruct s as [|d s]; [reflexivity|]. simpl in *.
  apply andb_prop in Hs as [Hd _]. apply negb_true_iff in Hd. rewrite Hd. reflexivity.
Qed.

Lemma host_chars_solid (s : string) : every host_char s = true -> solid s = true.
Proof.
  assert (Hall : forall c, implb (host_char c) (negb (Js.is_white_space c)) = true)
    by by_all_ascii.
  induction s as [|c s IH]; [reflexivity|]. simpl. intros H.
  apply andb_prop in H as [Hc Hs]. specialize (Hall c). rewrite Hc in Hall.
  simpl in Hall. rewrite Hall, (IH Hs). reflexivity.
Qed.

(** A canonical host is its own normal form. *)
Lemma canonical_host_normal (n : string) :
  canonical_host n -> Js.toLowerCase (Js.trim n) = n.
Proof.
  intros (label & -> & _ & Hl & _ & _).
  pose proof (label_host_chars label Hl) as Hhc.
  rewrite (solid_trim _ (host_chars_solid _ Hhc)). apply host_chars_lower_fixed. exact Hhc.
Qed.

Lemma valid_canonical (tenantHost : string) :
  valid (validateTenantHost tenantHost) = true ->
  canonical_host (Js.toLowerCase (Js.trim tenantHost)).
Proof.
  unfold validateTenantHost.
  set (n := Js.toLowerCase (Js.trim tenantHost)).
  assert (Hlow : Js.toLowerCase n = n) by apply toLowerCase_idem.
  destruct (Js.falsy tenantHost); [simpl; discriminate|].
  destruct ((String.length n =? 0) || (253 <? String.length n))%nat eqn:Elen;
    [simpl; discriminate|].
  destruct (Regex.test_anchored VINCERE_HOST_PATTERN n) eqn:Epat; [|simpl; discriminate].
  cbn [negb].
  destruct (Js.array_includes SSRF_BLOCKLIST n); [simpl; discriminate|].
  destruct (existsb _ PRIVATE_IP_RANGES) eqn:Erange; [simpl; discriminate|]. intros _.
  apply matches_lang, (host_pattern_lang n Hlow) in Epat as (label & Hn & Hne & Hl).
  exists label. split; [exact Hn|]. split; [exact Hne|]. split; [exact Hl|].
  apply orb_false_elim in Elen as [_ Elen]. apply Nat.ltb_ge in Elen.
  split; [|exact Elen].
  intros ->. rewrite Hn in Erange. vm_compute in Erange. discriminate.
Qed.

Lemma canonical_valid (tenantHost : string) :
  canonical_host (Js.toLowerCase (Js.trim tenantHost)) ->
  valid (validateTenantHost tenantHost) = true.
Proof.
  unfold validateTenantHost.
  set (n := Js.toLowerCase (Js.trim tenantHost)).
  assert (Hlow : Js.toLowerCase n = n) by apply toLowerCase_idem.
  intros (label & Hn & Hne & Hl & H10 & Hlen).
  assert (Hfalsy : Js.falsy tenantHost = false).
  { destruct tenantHost; [|reflexivity]. subst n. simpl in Hn.
    destruct label; [congruence | discriminate]. }
  rewrite Hfalsy.
  assert (Elen : ((String.length n =? 0) || (253 <? String.length n))%nat = false).
  { apply orb_false_intro; [|apply Nat.ltb_ge; exact Hlen].
    rewrite Hn. destruct label; [congruence | reflexivity]. }
  rewrite Elen.
  assert (Epat : Regex.test_anchored VINCERE_HOST_PATTERN n = true).
  { apply matches_lang, (host_pattern_lang n Hlow). eauto. }
  rewrite Epat. cbn [negb]. rewrite Hn, blocklist_miss.
  rewrite (private_ranges_miss label Hne Hl H10). reflexivity.
Qed.

(** X1. A tenant host passes validation exactly when its trimmed,
    lower-cased form is a non-empty label over [[a-z0-9-]] other than ["10"],
    followed by [.vincere.io], of at most 253 code units. *)
Theorem validateTenantHost_accepts (tenantHost : string) :
  valid (validateTenantHost tenantHost) = true
  <-> canonical_host (Js.toLowerCase (Js.trim tenantHost)).
Proof.
  split.
  - intros Hvalid. apply valid_canonical. exact Hvalid.
  - intros Hcanonical. apply canonical_valid. exact Hcanonical.
Qed.

Lemma valid_host_no_colon (tenantHost : string) :
  valid (validateTenantHost tenantHost) = true -> Js.includes tenantHost ":" = false.
Proof.
  intros H. apply valid_canonical in H as (label & Hn & _ & Hl & _ & _).
  pose proof (label_host_chars label Hl) as Hhc. rewrite <- Hn in Hhc.
  destruct (Js.includes tenantHost ":") eqn:E; [|reflexivity].
  apply includes_trim in E; [|discriminate|reflexivity].
  assert (Hev : every (fun c => host_char (Js.lower_char c)) (Js.trim tenantHost) = true).
  { clear -Hhc. unfold Js.toLowerCase in Hhc.
    induction (Js.trim tenantHost) as [|c s IH]; [reflexivity|].
    simpl in *. apply andb_prop in Hhc as [-> Hs]. simpl. auto. }
  pose proof (includes_char_every _ ":"%char _ E Hev) as Hc.
  vm_compute in Hc. discriminate.
Qed.

(** ** Secret names of canonical hosts *)

Lemma replace_class_g_app (cls : ascii -> bool) (rep s1 s2 : string) :
  Js.replace_class_g cls rep (s1 +:+ s2)
  = Js.replace_class_g cls rep s1 +:+ Js.replace_class_g cls rep s2.
Proof.
  induction s1 as [|c s1 IH]; [reflexivity|].
  rewrite app_cons. cbn [Js.replace_class_g]. rewrite IH, app_assoc. reflexivity.
Qed.

Lemma replace_class_g_id (cls : ascii -> bool) (rep s : string) :
  every (fun c => negb (cls c)) s = true -> Js.replace_class_g cls rep s = s.
Proof.
  induction s as [|c s IH]; [reflexivity|]. simpl. intros H.
  apply andb_prop in H as [Hc Hs]. apply negb_true_iff in Hc.
  rewrite Hc, (IH Hs). reflexivity.
Qed.

Lemma label_clean (label : string) :
  every host_label_class label = true ->
  Js.replace_class_g unclean_class "-" label = label.
Proof.
  intros H. apply replace_class_g_id. revert H. apply every_impl.
  assert (Hall : forall c, implb (host_label_class c) (negb (unclean_class c)) = true)
    by by_all_ascii.
  intros c Hc. specialize (Hall c). rewrite Hc in Hall. exact Hall.
Qed.

Lemma buildSecretName_canonical (label : string) (secretType : SecretType) :
  every host_label_class label = true ->
  buildSecretName (label +:+ ".vincere.io") secretType
  = "vincere/" +:+ label +:+ "-vincere-io/" +:+ secret_type_name secretType.
Proof.
  intros H. unfold buildSecretName.
  rewrite replace_class_g_app, (label_clean label H).
  change (Js.replace_class_g unclean_class "-" ".vincere.io") with "-vincere-io".
  rewrite !app_assoc. reflexivity.
Qed.

(** X2. Among hosts in normal form that validation accepts, different hosts
    have different secret names. *)
Theorem buildSecretName_injective_on_canonical
    (a b : string) (secretType : SecretType) :
  canonical_host a -> canonical_host b -> a <> b ->
  buildSecretName a secretType <> buildSecretName b secretType.
Proof.
  intros (la & -> & _ & Hla & _ & _) (lb & -> & _ & Hlb & _ & _) Hab H.
  rewrite !buildSecretName_canonical in H by assumption.
  rewrite !app_cons, !app_nil_l in H. injection H as H.
  apply app_inv_tail in H. subst. congruence.
Qed.

Lemma canonical_sample (label : string) :
  label <> "" -> every host_label_class label = true -> label <> "10" ->
  (String.length label <= 242)%nat -> canonical_host (label +:+ ".vincere.io").
Proof.
  intros Hne Hl H10 Hlen. exists label. repeat split; try assumption.
  rewrite app_length. simpl. lia.
Qed.

Lemma buildSecretName_injective_on_canonical_witness :
  buildSecretName "acme.vincere.io" SecretRefreshToken
  <> buildSecretName "acme-2.vincere.io" SecretRefreshToken.
Proof.
  apply buildSecretName_injective_on_canonical.
  - apply (canonical_sample "acme"); [discriminate | reflexivity | discriminate | simpl; lia].
  - apply (canonical_sample "acme-2"); [discriminate | reflexivity | discriminate | simpl; lia].
  - discriminate.
Defined.

(** X3. Validation trims a copy of the host and the secret name replaces
    what is left of the white space: for every label, the host with a
    leading space and the host with a leading hyphen both pass validation, are
    different cache keys, and have the same secret names. *)
Theorem leading_space_and_hyphen_share_secret_name (label : string) :
  label <> "" -> every host_label_class label = true -> label <> "10" ->
  (String.length label <= 241)%nat ->
  let a := " " +:+ label +:+ ".vincere.io" in
  let b := "-" +:+ label +:+ ".vincere.io" in
  a <> b
  /\ valid (validateTenantHost a) = true
  /\ valid (validateTenantHost b) = true
  /\ forall secretType, buildSecretName a secretType = buildSecretName b secretType.
Proof.
  intros Hne Hl H10 Hlen a b.
  assert (Hlb : every host_label_class ("-" +:+ label) = true)
    by (rewrite app_cons, app_nil_l; simpl; exact Hl).
  assert (Hca : canonical_host (label +:+ ".vincere.io"))
    by (apply canonical_sample; try assumption; lia).
  assert (Hcb : canonical_host b).
  { exists ("-" +:+ label). split; [unfold b; rewrite !app_cons, !app_nil_l; reflexivity|].
    split; [discriminate|]. split; [exact Hlb|].
    split; [rewrite app_cons, app_nil_l; intros [= H]; destruct label; discriminate|].
    unfold b. rewrite app_cons, app_nil_l. simpl. rewrite app_length. simpl. lia. }
  split; [discriminate|]. split; [|split].
  - apply canonical_valid.
    replace (Js.trim a) with (Js.trim (label +:+ ".vincere.io")) by reflexivity.
    rewrite (canonical_host_normal _ Hca). exact Hca.
  - apply canonical_valid. rewrite (canonical_host_normal _ Hcb). exact Hcb.
  - intros secretType. unfold buildSecretName, a, b.
    rewrite !app_cons, !app_nil_l. reflexivity.
Qed.

Lemma leading_space_and_hyphen_share_secret_name_witness :
  valid (validateTenantHost " acme.vincere.io") = true
  /\ valid (validateTenantHost "-acme.vincere.io") = true
  /\ buildSecretName " acme.vincere.io" SecretRefreshToken
     = buildSecretName "-acme.vincere.io" SecretRefreshToken.
Proof.
  destruct (leading_space_and_hyphen_share_secret_name "acme")
    as (_ & Ha & Hb & Hname);
    [discriminate | reflexivity | discriminate | simpl; lia |].
  split; [exact Ha|]. split; [exact Hb | apply Hname].
Defined.

(** ** The state nonce *)

Example base64_samples :
  map base64 [ []; ["M"]; ["M"; "a"]; ["M"; "a"; "n"]; ["M"; "a"; "n"; "y"] ]%char
  = [""; "TQ=="; "TWE="; "TWFu"; "TWFueQ=="].
Proof. vm_compute. reflexivity. Qed.

Lemma list_ind3 {A : Type} (P : list A -> Prop) :
  P [] -> (forall a, P [a]) -> (forall a b, P [a; b]) ->
  (forall a b c l, P l -> P (a :: b :: c :: l)) ->
  forall l, P l.
Proof.
  intros H0 H1 H2 H3 l.
  enough (H : P l /\ (forall a, P (a :: l)) /\ (forall a b, P (a :: b :: l)))
    by apply H.
  induction l as [|x l (IH0 & IH1 & IH2)].
  - repeat split; auto.
  - split; [apply IH1|]. split; [intros a; apply IH2|]. intros a b. apply H3. exact IH0.
Qed.

Lemma url_safe_app (s1 s2 : string) : url_safe (s1 +:+ s2) = url_safe s1 +:+ url_safe s2.
Proof. unfold url_safe. rewrite !replace_class_g_app. reflexivity. Qed.

Lemma url_safe_cons (c : ascii) (s : string) :
  url_safe (String c s) = url_safe (String c "") +:+ url_safe s.
Proof. rewrite <- url_safe_app. reflexivity. Qed.

Lemma url_safe_sextet (i : N) :
  (i < 64)%N ->
  exists c, url_safe (String (base64_char i) "") = String c "" /\ nonce_class c = true.
Proof.
  intros Hi.
  assert (Hall : forallb sextet_ok (map N.of_nat (seq 0 64)) = true)
    by (vm_compute; reflexivity).
  rewrite forallb_forall in Hall.
  assert (Hok : sextet_ok i = true).
  { apply Hall. rewrite <- (N2Nat.id i). apply in_map, in_seq. lia. }
  unfold sextet_ok in Hok.
  destruct (url_safe (String (base64_char i) "")) as [|c [|d s]]; try discriminate.
  exists c. split; [reflexivity | exact Hok].
Qed.

Lemma code_bounded (b : ascii) : (Js.code b < 256)%N.
Proof. apply N_ascii_bounded. Qed.

Lemma sextet_bounds (b0 b1 : ascii) :
  (Js.code b0 / 4 < 64
   /\ Js.code b0 mod 4 * 16 < 64
   /\ Js.code b0 mod 4 * 16 + Js.code b1 / 16 < 64
   /\ Js.code b0 mod 16 * 4 < 64
   /\ Js.code b0 mod 16 * 4 + Js.code b1 / 64 < 64
   /\ Js.code b0 mod 64 < 64)%N.
Proof.
  pose proof (code_bounded b0). pose proof (code_bounded b1).
  assert (Js.code b0 / 4 < 64)%N by (apply N.Div0.div_lt_upper_bound; lia).
  assert (Js.code b1 / 16 < 16)%N by (apply N.Div0.div_lt_upper_bound; lia).
  assert (Js.code b1 / 64 < 4)%N by (apply N.Div0.div_lt_upper_bound; lia).
  pose proof (N.mod_lt (Js.code b0) 4). pose proof (N.mod_lt (Js.code b0) 16).
  pose proof (N.mod_lt (Js.code b0) 64). lia.
Qed.

Ltac sextet c Hc :=
  match goal with
  | |- context [url_safe (String (base64_char ?i) "")] =>
      let H := fresh in
      assert (H : (i < 64)%N) by
        (match goal with
         | |- (Js.code ?x / 4 < _)%N => apply (sextet_bounds x x)
         | |- (Js.code ?x mod 4 * 16 < _)%N => apply (sextet_bounds x x)
         | |- (Js.code ?x mod 4 * 16 + Js.code ?y / 16 < _)%N => apply (sextet_bounds x y)
         | |- (Js.code ?x mod 16 * 4 < _)%N => apply (sextet_bounds x x)
         | |- (Js.code ?x mod 16 * 4 + Js.code ?y / 64 < _)%N => apply (sextet_bounds x y)
         | |- (Js.code ?x mod 64 < _)%N => apply (sextet_bounds x x)
         end);
      destruct (url_safe_sextet i H) as (c & -> & Hc); clear H
  end.

Ltac split_url_safe :=
  repeat match goal with
         | |- context [url_safe (String ?c ?s)] =>
             lazymatch s with
             | EmptyString => fail
             | _ => rewrite (url_safe_cons c s)
             end
         end.

(** The nonce of [n] random bytes has [ceil (4 n / 3)] code units, all of
    [[a-zA-Z0-9-_]]. *)
Lemma state_nonce_shape (randomBytes : list ascii) :
  every nonce_class (state_nonce randomBytes) = true
  /\ String.length (state_nonce randomBytes) = ((4 * length randomBytes + 2) / 3)%nat.
Proof.
  change (state_nonce randomBytes) with (url_safe (base64 randomBytes)).
  induction randomBytes as [|b0|b0 b1|b0 b1 b2 rest [IHc IHl]] using list_ind3.
  - split; reflexivity.
  - cbn [base64]. split_url_safe.
    sextet c0 H0. sextet c1 H1.
    change (url_safe "=") with "". rewrite !app_cons, !app_nil_l.
    simpl. rewrite H0, H1. split; reflexivity.
  - cbn [base64]. split_url_safe.
    sextet c0 H0. sextet c1 H1. sextet c2 H2.
    change (url_safe "=") with "". rewrite !app_cons, !app_nil_l.
    simpl. rewrite H0, H1, H2. split; reflexivity.
  - cbn [base64]. split_url_safe.
    sextet c0 H0. sextet c1 H1. sextet c2 H2. sextet c3 H3.
    rewrite !app_cons, !app_nil_l. cbn [every String.length length].
    rewrite H0, H1, H2, H3, IHc, IHl. split; [reflexivity|].
    replace (4 * S (S (S (length rest))) + 2)%nat
      with (4 * length rest + 2 + 4 * 3)%nat by lia.
    rewrite Nat.div_add by lia. lia.
Qed.

Lemma split_no_sep (sep : ascii) (s : string) :
  Js.includes s (String sep "") = false -> Js.split sep s = [s].
Proof.
  induction s as [|c s IH]; [reflexivity|].
  rewrite includes_unfold. simpl. rewrite startsWith_nil, andb_true_r.
  intros H. apply orb_false_elim in H as [Hc Hs].
  rewrite Ascii.eqb_sym, Hc, (IH Hs). reflexivity.
Qed.

Lemma nonce_class_no_colon (s : string) :
  every nonce_class s = true -> Js.includes s ":" = false.
Proof.
  intros H. destruct (Js.includes s ":") eqn:E; [|reflexivity].
  pose proof (includes_char_every nonce_class ":"%char s E H) as Hc.
  vm_compute in Hc. discriminate.
Qed.

Lemma generated_state_split (randomBytes : list ascii) (tenantHost : string) :
  Js.includes tenantHost ":" = false ->
  Js.split ":" (generateStateNonce randomBytes tenantHost)
  = [state_nonce randomBytes; tenantHost].
Proof.
  intros Hcolon. destruct (state_nonce_shape randomBytes) as [Hclass _].
  unfold generateStateNonce.
  change (state_nonce randomBytes +:+ ":" +:+ tenantHost)
    with (state_nonce randomBytes +:+ String ":" tenantHost).
  rewrite split_first_part by (apply nonce_class_no_colon; exact Hclass).
  rewrite (split_no_sep ":" tenantHost Hcolon). reflexivity.
Qed.

Lemma state_nonce_32 (randomBytes : list ascii) :
  length randomBytes = 32%nat -> String.length (state_nonce randomBytes) = 43%nat.
Proof.
  intros Hlen. destruct (state_nonce_shape randomBytes) as [_ Hlength].
  rewrite Hlen in Hlength. exact Hlength.
Qed.

Lemma generated_state_verdict (randomBytes : list ascii) (tenantHost : string) :
  length randomBytes = 32%nat ->
  Js.includes tenantHost ":" = false ->
  valid (validateOAuthState (generateStateNonce randomBytes tenantHost))
  = valid (validateTenantHost tenantHost).
Proof.
  intros Hlen Hcolon.
  destruct (state_nonce_shape randomBytes) as [Hclass _].
  pose proof (state_nonce_32 randomBytes Hlen) as Hlength.
  unfold validateOAuthState. rewrite (generated_state_split randomBytes tenantHost Hcolon).
  assert (Hne : Js.falsy (state_nonce randomBytes) = false)
    by (destruct (state_nonce randomBytes); [discriminate | reflexivity]).
  assert (Hfalsy : Js.falsy (generateStateNonce randomBytes tenantHost) = false).
  { unfold generateStateNonce.
    destruct (state_nonce randomBytes); [discriminate | reflexivity]. }
  rewrite Hfalsy, test_plus_cls, Hclass, Hlength.
  rewrite Hne. unfold Js.falsy in Hne. rewrite Hne. simpl.
  destruct (valid (validateTenantHost tenantHost)) eqn:E; simpl; [reflexivity | exact E].
Qed.

(** X4. For 32 random bytes and a tenant host without a colon, the state
    [generateStateNonce] builds has a 43-character nonce over
    [[a-zA-Z0-9-_]]; state validation gives it the verdict tenant validation
    gives the host; and [state.split(':')[1]] is the host again. *)
Theorem generated_state_round_trip (randomBytes : list ascii) (tenantHost : string) :
  length randomBytes = 32%nat ->
  Js.includes tenantHost ":" = false ->
  let state := generateStateNonce randomBytes tenantHost in
  Js.split ":" state = [state_nonce randomBytes; tenantHost]
  /\ String.length (state_nonce randomBytes) = 43%nat
  /\ every nonce_class (state_nonce randomBytes) = true
  /\ valid (validateOAuthState state) = valid (validateTenantHost tenantHost)
  /\ nth 1 (Js.split ":" state) "" = tenantHost.
Proof.
  intros Hlen Hcolon state. subst state.
  split; [apply generated_state_split; exact Hcolon|].
  split; [apply state_nonce_32; exact Hlen|].
  split; [apply state_nonce_shape|].
  split; [apply generated_state_verdict; assumption|].
  rewrite (generated_state_split randomBytes tenantHost Hcolon). reflexivity.
Qed.

Lemma generated_state_round_trip_witness :
  valid (validateOAuthState (generateStateNonce (repeat "A"%char 32) "acme.vincere.io"))
  = valid (validateTenantHost "acme.vincere.io").
Proof.
  apply (generated_state_round_trip (repeat "A"%char 32) "acme.vincere.io");
    reflexivity.
Defined.

(** X5. [GET /auth/start] redirects only for a host that passes
    validation; the redirect goes to [<idBase>/oauth2/authorize] with
    [response_type=code], the client id, the redirect URI and a state that
    the callback's state validation accepts and from which the callback reads
    the same host. *)
Theorem oauth_start_state_accepted_by_callback
    (config : Config) (url_accepts : string -> bool) (randomBytes : list ascii)
    (tenantHost target : string) (params : list (string * string)) :
  length randomBytes = 32%nat ->
  oauth_start config url_accepts randomBytes tenantHost = StartRedirect target params ->
  valid (validateTenantHost tenantHost) = true
  /\ target = idBase config +:+ "/oauth2/authorize"
  /\ lookup_param "response_type" params = Some "code"
  /\ lookup_param "client_id" params = Some (clientId config)
  /\ lookup_param "redirect_uri" params = Some (redirectUri config)
  /\ exists state,
       lookup_param "state" params = Some state
       /\ valid (validateOAuthState state) = true
       /\ nth 1 (Js.split ":" state) "" = tenantHost.
Proof.
  intros Hlen. unfold oauth_start.
  destruct (valid (validateTenantHost tenantHost)) eqn:Hvalid; [|discriminate].
  cbn [negb]. destruct (url_accepts _); [|discriminate].
  intros [= <- <-].
  pose proof (valid_host_no_colon tenantHost Hvalid) as Hcolon.
  pose proof (generated_state_verdict randomBytes tenantHost Hlen Hcolon) as Hstate.
  assert (Hnth : nth 1 (Js.split ":" (generateStateNonce randomBytes tenantHost)) ""
                 = tenantHost)
    by (rewrite (generated_state_split randomBytes tenantHost Hcolon); reflexivity).
  repeat split; try reflexivity.
  exists (generateStateNonce randomBytes tenantHost).
  split; [reflexivity|]. split; [rewrite Hstate; exact Hvalid | exact Hnth].
Qed.

Lemma oauth_start_state_accepted_by_callback_witness :
  exists state,
    lookup_param "state"
      [ ("response_type", "code"); ("client_id", "client");
        ("redirect_uri", "https://proxy.example/auth/callback");
        ("state", generateStateNonce (repeat "A"%char 32) "acme.vincere.io") ]
    = Some state
    /\ valid (validateOAuthState state) = true
    /\ nth 1 (Js.split ":" state) "" = "acme.vincere.io".
Proof.
  apply (oauth_start_state_accepted_by_callback sample_config (fun _ => true)
           (repeat "A"%char 32) "acme.vincere.io" "https://id.vincere.io/oauth2/authorize");
    reflexivity.
Defined.

(** ** The token lifecycle, continued *)

(** X6. A call that fails before it has an id token changes no credential:
    on a cache miss, when the tenant has no refresh token on record, or the
    exchange of the one on record fails (no response, a status other than
    200, or no id token), the call throws, with the message of the exchange
    in the second case, and the cache and the Key Vault are as they were.
    (The cache is written before the rotated refresh token is: a failure of
    that write comes after the cache has changed.) *)
Theorem failed_exchange_changes_no_credential
    (config : Config) (env : Env) (now : Z) (tenantHost : string) (w : World) :
  let name := buildSecretName tenantHost SecretRefreshToken in
  let w1 := record_event (KvGet name) w in
  cached_fresh now tenantHost w = None ->
  (forall refreshToken,
     vault w !! name = Some refreshToken -> Js.falsy refreshToken = false ->
     exists message, fst (refreshTokens config env refreshToken w1) = Thrown message) ->
  exists message w',
    getIdTokenForTenant config env now tenantHost w = (Thrown message, w')
    /\ idTokenCache w' = idTokenCache w
    /\ vault w' = vault w
    /\ (forall refreshToken,
          vault w !! name = Some refreshToken -> Js.falsy refreshToken = false ->
          fst (refreshTokens config env refreshToken w1) = Thrown message).
Proof.
  intros name w1 Hmiss Hfails.
  unfold getIdTokenForTenant. rewrite Hmiss.
  unfold mbind at 1, async_bind at 1, getSecretOrNull. fold name. fold w1.
  destruct (vault w !! name) as [refreshToken|] eqn:Hv.
  2:{ exists "Tenant not authorized - no refresh token found", w1.
      repeat split; try reflexivity. intros refreshToken H. discriminate. }
  destruct (Js.falsy refreshToken) eqn:Hf.
  { exists "Tenant not authorized - no refresh token found", w1.
    repeat split; try reflexivity. intros refreshToken' [= <-] H. congruence. }
  destruct (Hfails refreshToken eq_refl Hf) as [message Hthrown].
  pose proof (refreshTokens_world config env refreshToken w1) as Hworld.
  unfold mbind at 1, async_bind at 1.
  destruct (refreshTokens config env refreshToken w1) as [[tokens|msg] w2] eqn:Hr;
    cbn [fst snd] in Hthrown, Hworld; [discriminate|].
  injection Hthrown as ->. subst w2.
  exists message,
    (record_event (TokenPost (tokenUrl config) (refresh_form config refreshToken)) w1).
  repeat split; try reflexivity. intros refreshToken' [= <-] _. rewrite Hr. reflexivity.
Qed.

Lemma failed_exchange_changes_no_credential_witness :
  exists message w',
    getIdTokenForTenant sample_config unavailable 1000 acme (authorized_world acme "R1")
    = (Thrown message, w')
    /\ idTokenCache w' = idTokenCache (authorized_world acme "R1")
    /\ vault w' = vault (authorized_world acme "R1")
    /\ message = "Token refresh failed with status 503".
Proof.
  destruct (failed_exchange_changes_no_credential sample_config unavailable 1000 acme
              (authorized_world acme "R1"))
    as (message & w' & Hcall & Hcache & Hvault & Hmessage).
  - reflexivity.
  - intros refreshToken Hv Hf. eexists. vm_compute. reflexivity.
  - exists message, w'. split; [exact Hcall|]. split; [exact Hcache|].
    split; [exact Hvault|].
    specialize (Hmessage "R1" ltac:(reflexivity) ltac:(reflexivity)).
    vm_compute in Hmessage. congruence.
Defined.

Lemma count_sent_record (kind : Event -> bool) (e : Event) (w : World) :
  count_sent kind (record_event e w)
  = ((if kind e then 1 else 0) + count_sent kind w)%nat.
Proof. unfold count_sent. simpl. destruct (kind e); reflexivity. Qed.

(** The worlds a call can end in. *)
Lemma getIdTokenForTenant_worlds
    (config : Config) (env : Env) (now : Z) (tenantHost : string) (w w' : World)
    (r : Result string) :
  getIdTokenForTenant config env now tenantHost w = (r, w') ->
  let name := buildSecretName tenantHost SecretRefreshToken in
  w' = w
  \/ w' = record_event (KvGet name) w
  \/ (exists refreshToken,
        w' = record_event (TokenPost (tokenUrl config) (refresh_form config refreshToken))
               (record_event (KvGet name) w))
  \/ (exists refreshToken entry,
        w' = {| idTokenCache := <[tenantHost := entry]> (idTokenCache w);
                vault := vault w;
                sent := TokenPost (tokenUrl config) (refresh_form config refreshToken)
                          :: KvGet name :: sent w |})
  \/ (exists refreshToken entry rotated,
        w' = {| idTokenCache := <[tenantHost := entry]> (idTokenCache w);
                vault := <[name := rotated]> (vault w);
                sent := KvSet name rotated
                          :: TokenPost (tokenUrl config) (refresh_form config refreshToken)
                          :: KvGet name :: sent w |}).
Proof.
  intros Hcall name. unfold getIdTokenForTenant in Hcall.
  destruct (cached_fresh now tenantHost w); [left; congruence|].
  unfold mbind at 1, async_bind at 1, getSecretOrNull in Hcall. fold name in Hcall.
  destruct (match vault w !! name with
            | Some value => if Js.falsy value then None else Some value
            | None => None
            end) as [refreshToken|]; [|right; left; injection Hcall as _ <-; reflexivity].
  unfold mbind at 1, async_bind at 1 in Hcall.
  pose proof (refreshTokens_world config env refreshToken (record_event (KvGet name) w))
    as Hworld.
  destruct (refreshTokens config env refreshToken (record_event (KvGet name) w))
    as [[tokens|msg] w1]; simpl in Hworld; subst w1;
    [|right; right; left; exists refreshToken; injection Hcall as _ <-; reflexivity].
  unfold mbind, async_bind, cache_set, mret, async_ret, setSecret in Hcall.
  destruct (Js.falsy (refresh_token tokens)); injection Hcall as _ <-.
  - right; right; right; left. eexists _, _. reflexivity.
  - right; right; right; right. eexists _, _, _. reflexivity.
Qed.

(** X7. One call reads the Key Vault at most once, posts to the token
    endpoint at most once, writes the Key Vault at most once, and sends no
    API request; it keeps the record of what was sent before. *)
Theorem call_sends_at_most_one_of_each
    (config : Config) (env : Env) (now : Z) (tenantHost : string) (w : World) :
  let w' := snd (getIdTokenForTenant config env now tenantHost w) in
  (count_sent is_kv_get w' <= count_sent is_kv_get w + 1)%nat
  /\ (count_sent is_token_post w' <= count_sent is_token_post w + 1)%nat
  /\ (count_sent is_kv_set w' <= count_sent is_kv_set w + 1)%nat
  /\ count_sent is_api_request w' = count_sent is_api_request w
  /\ exists new, sent w' = (new ++ sent w)%list.
Proof.
  intros w'. subst w'.
  destruct (getIdTokenForTenant config env now tenantHost w) as [r w'] eqn:Hcall.
  cbn [snd].
  destruct (getIdTokenForTenant_worlds config env now tenantHost w w' r Hcall)
    as [H|[H|[(rt & H)|[(rt & entry & H)|(rt & entry & rotated & H)]]]];
    rewrite H; unfold count_sent; simpl;
    (refine (conj _ (conj _ (conj _ (conj _ _)))); try lia).
  - exists (@nil Event). reflexivity.
  - eexists (cons _ nil). reflexivity.
  - eexists (cons _ (cons _ nil)). reflexivity.
  - eexists (cons _ (cons _ nil)). reflexivity.
  - eexists (cons _ (cons _ (cons _ nil))). reflexivity.
Qed.

(** X8. An entry is stale from [expiresAt] on: a call at [now >= expiresAt]
    for a tenant whose refresh token is on record posts it to the token
    endpoint, once, whatever the answer is. *)
Theorem expired_entry_is_refreshed
    (config : Config) (env : Env) (now : Z) (tenantHost refreshToken : string)
    (entry : CachedIdToken) (w : World) :
  idTokenCache w !! tenantHost = Some entry ->
  expiresAt entry <= now ->
  vault w !! buildSecretName tenantHost SecretRefreshToken = Some refreshToken ->
  Js.falsy refreshToken = false ->
  let w' := snd (getIdTokenForTenant config env now tenantHost w) in
  token_posts w' = S (token_posts w)
  /\ In (TokenPost (tokenUrl config) (refresh_form config refreshToken)) (sent w').
Proof.
  intros Hentry Hexp Hv Hf w'. subst w'.
  destruct (getIdTokenForTenant config env now tenantHost w) as [r w'] eqn:Hcall.
  cbn [snd]. unfold getIdTokenForTenant, cached_fresh in Hcall.
  rewrite Hentry in Hcall.
  destruct (Z.gtb_spec (expiresAt entry) now) as [Hgt|_]; [lia|].
  unfold mbind at 1, async_bind at 1, getSecretOrNull in Hcall. rewrite Hv, Hf in Hcall.
  unfold mbind at 1, async_bind at 1 in Hcall.
  pose proof (refreshTokens_world config env refreshToken
                (record_event (KvGet (buildSecretName tenantHost SecretRefreshToken)) w))
    as Hworld.
  destruct (refreshTokens config env refreshToken
              (record_event (KvGet (buildSecretName tenantHost SecretRefreshToken)) w))
    as [[tokens|msg] w1]; simpl in Hworld; subst w1.
  2:{ injection Hcall as _ <-. split; [reflexivity | left; reflexivity]. }
  unfold mbind, async_bind, cache_set, mret, async_ret, setSecret in Hcall.
  destruct (Js.falsy (refresh_token tokens)); injection Hcall as _ <-;
    unfold token_posts; simpl; split; auto.
Qed.

Lemma expired_entry_is_refreshed_witness :
  token_posts (snd (getIdTokenForTenant sample_config counting_provider 51000 acme
                      after_first_call))
  = S (token_posts after_first_call)
  /\ In (TokenPost (tokenUrl sample_config) (refresh_form sample_config "R1"))
        (sent (snd (getIdTokenForTenant sample_config counting_provider 51000 acme
                      after_first_call))).
Proof.
  apply (expired_entry_is_refreshed sample_config counting_provider 51000 acme "R1"
           {| token := "T1"; expiresAt := 51000 |} after_first_call).
  - vm_compute. reflexivity.
  - simpl. lia.
  - vm_compute. reflexivity.
  - reflexivity.
Defined.

(** X9. Clearing the cache is idempotent and touches neither the Key Vault
    nor what was sent; after it the cleared tenant has no fresh entry;
    clearing one tenant keeps the other entries; and an empty tenant string
    clears every entry, like no argument. *)
Theorem clearIdTokenCache_behaviour (tenantHost : option string) (w : World) :
  clearIdTokenCache tenantHost (clearIdTokenCache tenantHost w)
  = clearIdTokenCache tenantHost w
  /\ vault (clearIdTokenCache tenantHost w) = vault w
  /\ sent (clearIdTokenCache tenantHost w) = sent w
  /\ (forall now t, cached_fresh now t (clearIdTokenCache None w) = None)
  /\ (forall now t, cached_fresh now t (clearIdTokenCache (Some t) w) = None)
  /\ (forall t other,
        Js.falsy t = false -> other <> t ->
        idTokenCache (clearIdTokenCache (Some t) w) !! other = idTokenCache w !! other)
  /\ clearIdTokenCache (Some "") w = clearIdTokenCache None w.
Proof.
  split.
  { unfold clearIdTokenCache. simpl. f_equal.
    destruct tenantHost as [t|]; [|reflexivity].
    destruct (Js.falsy t); [reflexivity|].
    apply map_eq. intros k. destruct (decide (k = t)) as [->|Hne].
    - rewrite !lookup_delete_eq. reflexivity.
    - rewrite !lookup_delete_ne by congruence. reflexivity. }
  split; [reflexivity|]. split; [reflexivity|].
  split; [intros now t; unfold cached_fresh; simpl; rewrite lookup_empty; reflexivity|].
  split.
  { intros now t. unfold cached_fresh. simpl.
    destruct (Js.falsy t); [rewrite lookup_empty | rewrite lookup_delete_eq]; reflexivity. }
  split; [|reflexivity].
  intros t other Hf Hne. simpl. rewrite Hf. apply lookup_delete_ne. congruence.
Qed.

Lemma clearIdTokenCache_behaviour_witness :
  idTokenCache (clearIdTokenCache (Some "other.vincere.io") after_first_call) !! acme
  = idTokenCache after_first_call !! acme.
Proof.
  apply (clearIdTokenCache_behaviour (Some "other.vincere.io") after_first_call);
    [reflexivity | discriminate].
Defined.

(** X10. What is done for one tenant stays with that tenant: a call leaves
    every other tenant's cache entry and every secret but the tenant's
    refresh token as they were, and storing a refresh token changes only that
    secret and nothing in the cache. *)
Theorem operations_stay_with_their_tenant
    (config : Config) (env : Env) (now : Z) (tenantHost refreshToken : string)
    (w : World) :
  let called := snd (getIdTokenForTenant config env now tenantHost w) in
  let stored := snd (storeRefreshToken tenantHost refreshToken w) in
  (forall other, other <> tenantHost ->
                 idTokenCache called !! other = idTokenCache w !! other)
  /\ (forall name, name <> buildSecretName tenantHost SecretRefreshToken ->
                   vault called !! name = vault w !! name)
  /\ idTokenCache stored = idTokenCache w
  /\ (forall name, name <> buildSecretName tenantHost SecretRefreshToken ->
                   vault stored !! name = vault w !! name).
Proof.
  intros called stored.
  destruct (getIdTokenForTenant_frame config env now tenantHost w) as [Hc Hv].
  split; [exact Hc|]. split; [exact Hv|]. split; [reflexivity|].
  intros name Hne. simpl. apply lookup_insert_ne. congruence.
Qed.

Lemma operations_stay_with_their_tenant_witness :
  idTokenCache (snd (getIdTokenForTenant sample_config counting_provider 2000
                       "other.vincere.io" after_first_call)) !! acme
  = idTokenCache after_first_call !! acme.
Proof.
  apply (operations_stay_with_their_tenant sample_config counting_provider 2000
           "other.vincere.io" "R9" after_first_call).
  discriminate.
Defined.

(** X11. A secret that was set is what is read back under its name, except
    that an empty value reads as [null]; reading other names is not
    affected. *)
Theorem setSecret_then_getSecretOrNull (name value other : string) (w : World) :
  fst (getSecretOrNull name (snd (setSecret name value w)))
  = Ok (if Js.falsy value then None else Some value)
  /\ (other <> name ->
      fst (getSecretOrNull other (snd (setSecret name value w)))
      = fst (getSecretOrNull other w)).
Proof.
  unfold getSecretOrNull, setSecret. simpl. split.
  - rewrite lookup_insert_eq. reflexivity.
  - intros Hne. rewrite lookup_insert_ne by congruence. reflexivity.
Qed.

Lemma setSecret_then_getSecretOrNull_witness :
  fst (getSecretOrNull "vincere/a/api_key"
         (snd (setSecret "vincere/a/refresh_token" "R1" empty_world)))
  = fst (getSecretOrNull "vincere/a/api_key" empty_world).
Proof.
  apply (setSecret_then_getSecretOrNull "vincere/a/refresh_token" "R1"
           "vincere/a/api_key" empty_world).
  discriminate.
Defined.

(** ** The callback, continued *)

Lemma validateOAuthState_valid_host (state : string) :
  valid (validateOAuthState state) = true ->
  valid (validateTenantHost (nth 1 (Js.split ":" state) "")) = true.
Proof.
  unfold validateOAuthState. destruct (Js.falsy state); [discriminate|].
  destruct (Js.split ":" state) as [|nonce [|tenantHost [|x rest]]]; try discriminate.
  destruct (Js.falsy nonce || _ || _ || _); [discriminate|].
  simpl nth. destruct (valid (validateTenantHost tenantHost)) eqn:E; [reflexivity|].
  simpl. rewrite E. discriminate.
Qed.

Lemma oauth_callback_effects
    (config : Config) (env : Env) (code state q_error description : string)
    (w w' : World) (r : CallbackResponse) :
  oauth_callback config env code state q_error description w = (r, w') ->
  idTokenCache w' = idTokenCache w
  /\ (token_posts w' <= token_posts w + 1)%nat
  /\ match r with
     | AuthorizationComplete tenantHost =>
         valid (validateTenantHost tenantHost) = true
         /\ exists refreshToken,
              Js.falsy refreshToken = false
              /\ vault w'
                 = <[buildSecretName tenantHost SecretRefreshToken := refreshToken]> (vault w)
     | _ => vault w' = vault w
     end.
Proof.
  intros Hcb. unfold oauth_callback in Hcb.
  destruct (negb (Js.falsy q_error));
    [injection Hcb as <- <-; repeat split; lia|].
  destruct (negb (valid (validateAuthCode code)));
    [injection Hcb as <- <-; repeat split; lia|].
  destruct (negb (valid (validateOAuthState state))) eqn:Hstate;
    [injection Hcb as <- <-; repeat split; lia|].
  apply negb_false_iff in Hstate. apply validateOAuthState_valid_host in Hstate.
  unfold mbind at 1, async_bind at 1, exchangeCodeForTokens in Hcb.
  unfold mbind at 1, async_bind at 1 in Hcb.
  pose proof (post_token_world config env
                [ ("grant_type", "authorization_code"); ("code", code);
                  ("client_id", clientId config); ("redirect_uri", redirectUri config) ] w)
    as Hworld.
  destruct (post_token config env _ w) as [[[status data]|msg] w1];
    simpl in Hworld; subst w1.
  2:{ injection Hcb as <- <-. rewrite token_posts_record. simpl. repeat split; lia. }
  destruct (negb (status =? 200)).
  { injection Hcb as <- <-. rewrite token_posts_record. simpl. repeat split; lia. }
  destruct (Js.falsy (refresh_token data)) eqn:Hr.
  { injection Hcb as <- <-. rewrite token_posts_record. simpl. repeat split; lia. }
  destruct (Js.falsy (id_token data)).
  { injection Hcb as <- <-. rewrite token_posts_record. simpl. repeat split; lia. }
  injection Hcb as <- <-. simpl.
  split; [reflexivity|]. split; [unfold token_posts; simpl; lia|].
  split; [exact Hstate|]. exists (refresh_token data). split; [exact Hr | reflexivity].
Qed.

(** X12. With a code and a state that pass validation and no provider
    error, when the token endpoint answers the exchange with a 200 that
    carries a refresh token and an id token, the callback answers that the
    authorization is complete for the host named in the state, which passes
    tenant validation; it has posted the code once and written the refresh
    token under that host's secret name; the cache is as it was. *)
Theorem oauth_callback_stores_refresh_token
    (config : Config) (env : Env) (code state description : string) (w : World)
    (data : TokenResponse) :
  valid (validateAuthCode code) = true ->
  valid (validateOAuthState state) = true ->
  token_endpoint env (sent w) (exchange_form config code) 0%nat = NetResponse 200 data ->
  Js.falsy (refresh_token data) = false ->
  Js.falsy (id_token data) = false ->
  let tenantHost := nth 1 (Js.split ":" state) "" in
  let name := buildSecretName tenantHost SecretRefreshToken in
  oauth_callback config env code state "" description w
  = (AuthorizationComplete tenantHost,
     {| idTokenCache := idTokenCache w;
        vault := <[name := refresh_token data]> (vault w);
        sent := KvSet name (refresh_token data)
                  :: TokenPost (tokenUrl config) (exchange_form config code) :: sent w |})
  /\ valid (validateTenantHost tenantHost) = true.
Proof.
  intros Hcode Hstate Hnet Hr Hi tenantHost name.
  split; [|apply validateOAuthState_valid_host; exact Hstate].
  unfold oauth_callback. simpl Js.falsy. cbn [negb]. rewrite Hcode, Hstate. cbn [negb].
  fold tenantHost.
  unfold mbind at 1, async_bind at 1, exchangeCodeForTokens.
  unfold mbind at 1, async_bind at 1. fold (exchange_form config code).
  rewrite (post_token_first_response config env _ w 200 data Hnet).
  simpl. rewrite Hr, Hi. reflexivity.
Qed.

Lemma oauth_callback_stores_refresh_token_witness :
  fst (oauth_callback sample_config rotating_provider "abcdef123456"
         "abcdef123456789012345678:acme.vincere.io" "" "" empty_world)
  = AuthorizationComplete acme
  /\ vault (snd (oauth_callback sample_config rotating_provider "abcdef123456"
                   "abcdef123456789012345678:acme.vincere.io" "" "" empty_world))
       !! buildSecretName acme SecretRefreshToken = Some "R2".
Proof.
  destruct (oauth_callback_stores_refresh_token sample_config rotating_provider
              "abcdef123456" "abcdef123456789012345678:acme.vincere.io" "" empty_world
              (sample_tokens "T1" "R2")) as [Hcall _];
    try (vm_compute; reflexivity).
  rewrite Hcall. split; reflexivity.
Defined.


(** X13. The callback never changes the cache and posts to the token
    endpoint at most once; it writes to the Key Vault only when it answers
    that the authorization is complete, and then only a non-empty refresh
    token under the secret name of a host that passes validation. *)
Theorem oauth_callback_writes_only_on_success
    (config : Config) (env : Env) (code state q_error description : string) (w : World) :
  let r := fst (oauth_callback config env code state q_error description w) in
  let w' := snd (oauth_callback config env code state q_error description w) in
  idTokenCache w' = idTokenCache w
  /\ (token_posts w' <= token_posts w + 1)%nat
  /\ match r with
     | AuthorizationComplete tenantHost =>
         valid (validateTenantHost tenantHost) = true
         /\ exists refreshToken,
              Js.falsy refreshToken = false
              /\ vault w'
                 = <[buildSecretName tenantHost SecretRefreshToken := refreshToken]> (vault w)
     | _ => vault w' = vault w
     end.
Proof.
  intros r w'. subst r w'.
  destruct (oauth_callback config env code state q_error description w) as [r w'] eqn:Hcb.
  cbn [fst snd].
  apply (oauth_callback_effects config env code state q_error description w w' r).
  exact Hcb.
Qed.

(** X14. Authorizing and then asking: after a completed callback, a call
    for the host of the state that finds no fresh cache entry posts the
    refresh token the callback stored. *)
Theorem authorized_tenant_presents_stored_token
    (config : Config) (env : Env) (code state description : string) (now : Z)
    (w w1 : World) (tenantHost : string) :
  oauth_callback config env code state "" description w
  = (AuthorizationComplete tenantHost, w1) ->
  cached_fresh now tenantHost w = None ->
  exists refreshToken,
    vault w1 !! buildSecretName tenantHost SecretRefreshToken = Some refreshToken
    /\ In (TokenPost (tokenUrl config) (refresh_form config refreshToken))
          (sent (snd (getIdTokenForTenant config env now tenantHost w1))).
Proof.
  intros Hcb Hmiss.
  destruct (oauth_callback_effects config env code state "" description w w1
              (AuthorizationComplete tenantHost) Hcb)
    as (Hcache & _ & _ & refreshToken & Hf & Hvault).
  exists refreshToken.
  assert (Hv : vault w1 !! buildSecretName tenantHost SecretRefreshToken = Some refreshToken)
    by (rewrite Hvault; apply lookup_insert_eq).
  split; [exact Hv|].
  assert (Hmiss1 : cached_fresh now tenantHost w1 = None)
    by (unfold cached_fresh in *; rewrite Hcache; exact Hmiss).
  destruct (getIdTokenForTenant config env now tenantHost w1) as [r w2] eqn:Hcall.
  cbn [snd]. unfold getIdTokenForTenant in Hcall. rewrite Hmiss1 in Hcall.
  unfold mbind at 1, async_bind at 1, getSecretOrNull in Hcall. rewrite Hv, Hf in Hcall.
  unfold mbind at 1, async_bind at 1 in Hcall.
  pose proof (refreshTokens_world config env refreshToken
                (record_event (KvGet (buildSecretName tenantHost SecretRefreshToken)) w1))
    as Hworld.
  destruct (refreshTokens config env refreshToken
              (record_event (KvGet (buildSecretName tenantHost SecretRefreshToken)) w1))
    as [[tokens|msg] w3]; simpl in Hworld; subst w3.
  2:{ injection Hcall as _ <-. left. reflexivity. }
  unfold mbind, async_bind, cache_set, mret, async_ret, setSecret in Hcall.
  destruct (Js.falsy (refresh_token tokens)); injection Hcall as _ <-; simpl; auto.
Qed.

Lemma authorized_tenant_presents_stored_token_witness :
  exists refreshToken,
    vault (snd (oauth_callback sample_config rotating_provider "abcdef123456"
                  "abcdef123456789012345678:acme.vincere.io" "" "" empty_world))
      !! buildSecretName acme SecretRefreshToken = Some refreshToken
    /\ In (TokenPost (tokenUrl sample_config) (refresh_form sample_config refreshToken))
          (sent (snd (getIdTokenForTenant sample_config rotating_provider 1000 acme
                        (snd (oauth_callback sample_config rotating_provider "abcdef123456"
                                "abcdef123456789012345678:acme.vincere.io" "" ""
                                empty_world))))).
Proof.
  apply (authorized_tenant_presents_stored_token sample_config rotating_provider
           "abcdef123456" "abcdef123456789012345678:acme.vincere.io" "" 1000 empty_world).
  - vm_compute. reflexivity.
  - reflexivity.
Defined.

(** ** The proxy route, continued *)

Lemma call_without_refresh_token (config : Config) (env : Env) (now : Z)
    (tenantHost : string) (w : World) :
  cached_fresh now tenantHost w = None ->
  vault w !! buildSecretName tenantHost SecretRefreshToken = None ->
  getIdTokenForTenant config env now tenantHost w
  = (Thrown "Tenant not authorized - no refresh token found",
     record_event (KvGet (buildSecretName tenantHost SecretRefreshToken)) w).
Proof.
  intros Hmiss Hv. unfold getIdTokenForTenant. rewrite Hmiss.
  unfold mbind, async_bind, getSecretOrNull. rewrite Hv. reflexivity.
Qed.

Lemma reachable_no_token_no_entry (config : Config) (env : Env) (now : Z)
    (tenantHost : string) (w : World) :
  reachable config env w ->
  vault w !! buildSecretName tenantHost SecretRefreshToken = None ->
  cached_fresh now tenantHost w = None.
Proof.
  intros Hreach Hv. unfold cached_fresh.
  destruct (idTokenCache w !! tenantHost) as [entry|] eqn:Hentry; [|reflexivity].
  destruct (reachable_cache_backed config env w Hreach tenantHost entry Hentry) as [v Hsome].
  congruence.
Qed.

(** What is thrown inside the [try] block reaches the [catch]. *)
Lemma callVincereApi_rethrows (config : Config) (env : Env) (startTime now endTime : Z)
    (tenantHost path method message : string) (query : list (string * string))
    (body : option Json) (w w' : World) :
  getIdTokenForTenant config env now tenantHost w = (Thrown message, w') ->
  callVincereApi config env startTime now endTime tenantHost path method query body w
  = (Thrown message, w').
Proof.
  intros H. unfold callVincereApi. unfold mbind at 1, async_bind at 1. rewrite H.
  reflexivity.
Qed.

Lemma proxy_route_catches (config : Config) (env : Env) (startTime now endTime : Z)
    (tenantHost path method message : string) (query : list (string * QueryValue))
    (body : option Json) (w w' : World) :
  valid (validateTenantHost tenantHost) = true ->
  valid (validatePath path) = true ->
  callVincereApi config env startTime now endTime tenantHost path method
    (sanitizeQueryParams query) (if String.eqb method "POST" then body else None) w
  = (Thrown message, w') ->
  proxy_route config env startTime now endTime tenantHost path method query body w
  = (if Js.includes message "not authorized"
     then NeedsAuthorization ("Visit /auth/start?tenantHost=" +:+ tenantHost)
     else ProxyFailed message, w').
Proof.
  intros Hhost Hpath Hcall. unfold proxy_route. rewrite Hhost, Hpath. cbn [negb].
  unfold proxy_forward. unfold mbind at 1, async_bind at 1. rewrite Hcall.
  destruct (Js.includes message "not authorized"); reflexivity.
Qed.

(** X15. In every world the process can reach, a proxy request with a host
    and a path that pass validation, for a tenant with no refresh token in
    the Key Vault, is answered 401 with the hint to visit
    [/auth/start?tenantHost=<host>]; the Key Vault was read once and nothing
    was sent to the token endpoint or the API. *)
Theorem proxy_route_needs_authorization
    (config : Config) (env : Env) (startTime now endTime : Z)
    (tenantHost path method : string) (query : list (string * QueryValue))
    (body : option Json) (w : World) :
  reachable config env w ->
  valid (validateTenantHost tenantHost) = true ->
  valid (validatePath path) = true ->
  vault w !! buildSecretName tenantHost SecretRefreshToken = None ->
  proxy_route config env startTime now endTime tenantHost path method query body w
  = (NeedsAuthorization ("Visit /auth/start?tenantHost=" +:+ tenantHost),
     record_event (KvGet (buildSecretName tenantHost SecretRefreshToken)) w)
  /\ proxy_status (NeedsAuthorization ("Visit /auth/start?tenantHost=" +:+ tenantHost)) = 401.
Proof.
  intros Hreach Hhost Hpath Hv. split; [|reflexivity].
  rewrite (proxy_route_catches config env startTime now endTime tenantHost path method
             "Tenant not authorized - no refresh token found" query body w
             (record_event (KvGet (buildSecretName tenantHost SecretRefreshToken)) w)
             Hhost Hpath); [reflexivity|].
  apply callVincereApi_rethrows.
  apply (call_without_refresh_token config env now tenantHost w
           (reachable_no_token_no_entry config env now tenantHost w Hreach Hv) Hv).
Qed.

Lemma proxy_route_needs_authorization_witness :
  fst (proxy_route sample_config counting_provider 0 2000 5 "other.vincere.io"
         "candidate/search" "GET" [] None after_first_call)
  = NeedsAuthorization "Visit /auth/start?tenantHost=other.vincere.io".
Proof.
  destruct (proxy_route_needs_authorization sample_config counting_provider 0 2000 5
              "other.vincere.io" "candidate/search" "GET" [] None after_first_call)
    as [H _].
  - apply (reachable_step sample_config counting_provider (OpGetIdToken 1000 acme)).
    apply reachable_start.
  - vm_compute. reflexivity.
  - vm_compute. reflexivity.
  - vm_compute. reflexivity.
  - rewrite H. reflexivity.
Defined.

Lemma string_of_uint_digits (d : Decimal.uint) :
  every digit_or_minus (NilEmpty.string_of_uint d) = true.
Proof. induction d; simpl; auto. Qed.

Lemma show_Z_digits (z : Z) : every digit_or_minus (show_Z z) = true.
Proof.
  unfold show_Z. destruct (Z.to_int z) as [d|d]; simpl; apply string_of_uint_digits.
Qed.

Lemma includes_without_first (a : ascii) (needle s : string) :
  every (fun c => negb (Ascii.eqb a c)) s = true ->
  Js.includes s (String a needle) = false.
Proof.
  induction s as [|c s IH]; [reflexivity|].
  simpl every. intros H. apply andb_prop in H as [Hc Hs].
  rewrite includes_unfold. apply negb_true_iff in Hc.
  simpl Js.startsWith. rewrite Hc. simpl. auto.
Qed.

Lemma refresh_failure_not_authorization (status : Z) :
  Js.includes ("Token refresh failed with status " +:+ show_Z status) "not authorized"
  = false.
Proof.
  assert (H : Js.includes (show_Z status) "not authorized" = false).
  { apply includes_without_first. generalize (show_Z_digits status).
    apply every_impl.
    assert (Hall : forall c,
               implb (digit_or_minus c) (negb (Ascii.eqb "n" c)) = true) by by_all_ascii.
    intros c Hc. specialize (Hall c). rewrite Hc in Hall. exact Hall. }
  rewrite !app_cons, app_nil_l.
  repeat (rewrite includes_unfold; simpl Js.startsWith; cbn [orb andb]).
  rewrite <- includes_unfold. exact H.
Qed.

(** X16. When the token endpoint answers a refresh with a status other
    than 200, a proxy request that needed the refresh is answered 502 with
    [Token refresh failed with status <status>], not 401, and nothing is sent
    to the API. *)
Theorem proxy_route_reports_refresh_failure
    (config : Config) (env : Env) (startTime now endTime : Z)
    (tenantHost path method refreshToken : string) (query : list (string * QueryValue))
    (body : option Json) (w : World) (status : Z) (data : TokenResponse) :
  valid (validateTenantHost tenantHost) = true ->
  valid (validatePath path) = true ->
  cached_fresh now tenantHost w = None ->
  vault w !! buildSecretName tenantHost SecretRefreshToken = Some refreshToken ->
  Js.falsy refreshToken = false ->
  token_endpoint env
    (KvGet (buildSecretName tenantHost SecretRefreshToken) :: sent w)
    (refresh_form config refreshToken) 0%nat = NetResponse status data ->
  status <> 200 ->
  let r := proxy_route config env startTime now endTime tenantHost path method query body w in
  fst r = ProxyFailed ("Token refresh failed with status " +:+ show_Z status)
  /\ proxy_status (fst r) = 502
  /\ count_sent is_api_request (snd r) = count_sent is_api_request w.
Proof.
  intros Hhost Hpath Hmiss Hv Hf Hnet Hstatus r.
  assert (Hr : r = (ProxyFailed ("Token refresh failed with status " +:+ show_Z status),
                    record_event
                      (TokenPost (tokenUrl config) (refresh_form config refreshToken))
                      (record_event
                         (KvGet (buildSecretName tenantHost SecretRefreshToken)) w))).
  { subst r.
    rewrite (proxy_route_catches config env startTime now endTime tenantHost path method
               ("Token refresh failed with status " +:+ show_Z status) query body w
               (record_event
                  (TokenPost (tokenUrl config) (refresh_form config refreshToken))
                  (record_event
                     (KvGet (buildSecretName tenantHost SecretRefreshToken)) w))
               Hhost Hpath);
      [rewrite refresh_failure_not_authorization; reflexivity|].
    apply callVincereApi_rethrows.
    unfold getIdTokenForTenant. rewrite Hmiss.
    unfold mbind at 1, async_bind at 1, getSecretOrNull. rewrite Hv, Hf.
    unfold mbind at 1, async_bind at 1, refreshTokens.
    unfold mbind at 1, async_bind at 1. fold (refresh_form config refreshToken).
    rewrite (post_token_first_response config env (refresh_form config refreshToken)
               (record_event (KvGet (buildSecretName tenantHost SecretRefreshToken)) w)
               status data Hnet).
    apply Z.eqb_neq in Hstatus. rewrite Hstatus. reflexivity. }
  rewrite Hr. split; [reflexivity|]. split; reflexivity.
Qed.

Lemma proxy_route_reports_refresh_failure_witness :
  fst (proxy_route sample_config unavailable 0 1000 5 acme "candidate/search" "GET" [] None
         (authorized_world acme "R1"))
  = ProxyFailed "Token refresh failed with status 503".
Proof.
  apply (proxy_route_reports_refresh_failure sample_config unavailable 0 1000 5 acme
           "candidate/search" "GET" "R1" [] None (authorized_world acme "R1") 503
           (sample_tokens "" ""));
    try (vm_compute; reflexivity).
  discriminate.
Defined.

Lemma request_api_first_response (env : Env) (url : string)
    (query : list (string * string)) (method : string) (headers : list (string * string))
    (body : option Json) (w : World) (status : Z) (data : Json) :
  vincere_api env (sent w) url query method headers body 0%nat = NetResponse status data ->
  request_api env url query method headers body w
  = (Ok (status, data), record_event (ApiRequest url query method headers body) w).
Proof.
  intros H. unfold request_api.
  rewrite (response_ends_request _ _ status data H). reflexivity.
Qed.

(** A call with a fresh cached id token, up to the sending of the request. *)
Lemma callVincereApi_cached (config : Config) (env : Env) (startTime now endTime : Z)
    (tenantHost path method idToken : string) (query : list (string * string))
    (body : option Json) (w : World) :
  cached_fresh now tenantHost w = Some idToken ->
  callVincereApi config env startTime now endTime tenantHost path method query body w
  = (url ← of_result (buildVincereUrl env tenantHost path query);
     response ← request_api env url query method
                  (api_headers idToken (stored_api_key tenantHost w))
                  (if String.eqb method "POST" then body else None);
     mret {| status := fst response; data := snd response;
             durationMs := endTime - startTime |})
      (record_event (KvGet (buildSecretName tenantHost SecretApiKey)) w).
Proof.
  intros Hhit. unfold callVincereApi. unfold mbind at 1, async_bind at 1.
  unfold getIdTokenForTenant. rewrite Hhit.
  unfold mbind at 1, async_bind at 1, getSecretOrNull. reflexivity.
Qed.

Lemma header_char_digits (z : Z) : every header_char (show_Z z) = true.
Proof.
  generalize (show_Z_digits z). apply every_impl.
  assert (Hall : forall c, implb (digit_or_minus c) (header_char c) = true) by by_all_ascii.
  intros c Hc. specialize (Hall c). rewrite Hc in Hall. exact Hall.
Qed.

Lemma setHeader_digits (name : string) (z : Z) : setHeader name (show_Z z) = Ok tt.
Proof. unfold setHeader. rewrite header_char_digits. reflexivity. Qed.

Lemma header_char_target (tenantHost path : string) :
  every header_char ("https://" +:+ tenantHost +:+ "/api/v2/" +:+ path)
  = every header_char tenantHost && every header_char path.
Proof. rewrite !every_app. reflexivity. Qed.

(** The [try] block once [callVincereApi] has returned. *)
Lemma proxy_forward_returned (config : Config) (env : Env) (startTime now endTime : Z)
    (tenantHost path method : string) (query : list (string * QueryValue))
    (body : option Json) (w w' : World) (response : VincereResponse) :
  callVincereApi config env startTime now endTime tenantHost path method
    (sanitizeQueryParams query) (if String.eqb method "POST" then body else None) w
  = (Ok response, w') ->
  proxy_forward config env startTime now endTime tenantHost path method query body w
  = (if negb (every header_char tenantHost)
     then Thrown ("Invalid character in header content [" +:+ DQUOTE +:+ "x-proxy-tenant"
                  +:+ DQUOTE +:+ "]")
     else if negb (every header_char path)
     then Thrown ("Invalid character in header content [" +:+ DQUOTE +:+ "x-proxy-target"
                  +:+ DQUOTE +:+ "]")
     else if negb ((100 <=? status response) && (status response <=? 999))
     then Thrown ("Invalid status code: " +:+ show_Z (status response))
     else Ok (Proxied response (extractRowCount (data response))), w').
Proof.
  intros Hcall. unfold proxy_forward. unfold mbind at 1, async_bind at 1. rewrite Hcall.
  unfold mbind at 1, async_bind at 1, of_result at 1, setHeader at 1.
  destruct (every header_char tenantHost) eqn:Hhost; [|reflexivity]. cbn [negb].
  unfold mbind at 1, async_bind at 1, of_result at 1, setHeader at 1.
  rewrite header_char_target, Hhost. cbn [andb].
  destruct (every header_char path) eqn:Hpath; [|reflexivity]. cbn [negb].
  unfold mbind at 1, async_bind at 1, of_result at 1. rewrite setHeader_digits.
  unfold mbind at 1, async_bind at 1, of_result at 1.
  assert (Hrows : match extractRowCount (data response) with
                  | Some n => setHeader "x-proxy-row-count" (show_Z (Z.of_nat n))
                  | None => Ok tt
                  end = Ok tt).
  { destruct (extractRowCount (data response)); [apply setHeader_digits | reflexivity]. }
  rewrite Hrows.
  unfold mbind at 1, async_bind at 1, of_result at 1, send_json.
  destruct ((100 <=? status response) && (status response <=? 999)); reflexivity.
Qed.



Lemma invalid_header_not_authorization (name : string) :
  name = "x-proxy-tenant" \/ name = "x-proxy-target" ->
  Js.includes
    ("Invalid character in header content [" +:+ DQUOTE +:+ name +:+ DQUOTE +:+ "]")
    "not authorized" = false.
Proof. intros [->| ->]; vm_compute; reflexivity. Qed.

(** X30. Passing validation does not mean being forwarded. With a host and
    a path that pass validation and a fresh cached id token: when [new URL]
    refuses the text built from host and path, with a message that does not
    contain [not authorized], the answer is 502 with that message, after the
    Key Vault was read for the API key and with nothing sent to the API; and
    when [new URL] accepts the text and the API answers, but the host or the
    path holds a control character other than a tab, the request has gone to
    the API and the answer is 502 with the message of [res.setHeader], not
    the API's answer. *)
Theorem proxy_route_fails_after_validation
    (config : Config) (env : Env) (startTime now endTime : Z)
    (tenantHost path method idToken : string) (query : list (string * QueryValue))
    (body : option Json) (w : World) :
  valid (validateTenantHost tenantHost) = true ->
  valid (validatePath path) = true ->
  cached_fresh now tenantHost w = Some idToken ->
  let headers := api_headers idToken (stored_api_key tenantHost w) in
  let sentBody := if String.eqb method "POST" then body else None in
  let w1 := record_event (KvGet (buildSecretName tenantHost SecretApiKey)) w in
  (forall message,
     buildVincereUrl env tenantHost path (sanitizeQueryParams query) = Thrown message ->
     Js.includes message "not authorized" = false ->
     proxy_route config env startTime now endTime tenantHost path method query body w
     = (ProxyFailed message, w1))
  /\ (forall url status data,
        buildVincereUrl env tenantHost path (sanitizeQueryParams query) = Ok url ->
        vincere_api env (sent w1) url (sanitizeQueryParams query) method headers sentBody
          0%nat = NetResponse status data ->
        every header_char tenantHost && every header_char path = false ->
        exists name,
          (name = "x-proxy-tenant" \/ name = "x-proxy-target")
          /\ proxy_route config env startTime now endTime tenantHost path method query body w
             = (ProxyFailed ("Invalid character in header content [" +:+ DQUOTE +:+ name
                             +:+ DQUOTE +:+ "]"),
                record_event
                  (ApiRequest url (sanitizeQueryParams query) method headers sentBody) w1)).
Proof.
  intros Hhost Hpath Hhit headers sentBody w1. split.
  - intros message Hurl Hmsg.
    rewrite (proxy_route_catches config env startTime now endTime tenantHost path method
               message query body w w1 Hhost Hpath); [rewrite Hmsg; reflexivity|].
    rewrite (callVincereApi_cached config env startTime now endTime tenantHost path method
               idToken _ _ w Hhit).
    unfold mbind at 1, async_bind at 1, of_result. rewrite Hurl. reflexivity.
  - intros url status data Hurl Hapi Hheader.
    assert (Hcall : callVincereApi config env startTime now endTime tenantHost path method
                      (sanitizeQueryParams query) sentBody w
                    = (Ok {| status := status; data := data;
                             durationMs := endTime - startTime |},
                       record_event
                         (ApiRequest url (sanitizeQueryParams query) method headers sentBody)
                         w1)).
    { rewrite (callVincereApi_cached config env startTime now endTime tenantHost path method
                 idToken _ _ w Hhit).
      unfold mbind at 1, async_bind at 1, of_result. rewrite Hurl.
      unfold mbind at 1, async_bind at 1.
      replace (if String.eqb method "POST" then sentBody else None) with sentBody
        by (subst sentBody; destruct (String.eqb method "POST"); reflexivity).
      fold headers w1.
      rewrite (request_api_first_response env _ _ _ _ _ _ status data Hapi). reflexivity. }
    unfold proxy_route. rewrite Hhost, Hpath. cbn [negb].
    rewrite (proxy_forward_returned config env startTime now endTime tenantHost path method
               query body w _ _ Hcall).
    destruct (every header_char tenantHost); cbn [negb].
    + cbn [andb] in Hheader. rewrite Hheader. cbn [negb].
      exists "x-proxy-target". split; [right; reflexivity|].
      rewrite (invalid_header_not_authorization "x-proxy-target") by (right; reflexivity).
      reflexivity.
    + exists "x-proxy-tenant". split; [left; reflexivity|].
      rewrite (invalid_header_not_authorization "x-proxy-tenant") by (left; reflexivity).
      reflexivity.
Qed.

Lemma proxy_route_fails_after_validation_witness :
  fst (proxy_route sample_config counting_provider 0 11000 7 spaced_host "candidate/search"
         "GET" [] None after_first_call_spaced)
  = ProxyFailed "Invalid URL".
Proof.
  destruct (proxy_route_fails_after_validation sample_config counting_provider 0 11000 7
              spaced_host "candidate/search" "GET" "T1" [] None after_first_call_spaced)
    as [Hrefused _].
  - vm_compute. reflexivity.
  - vm_compute. reflexivity.
  - vm_compute. reflexivity.
  - rewrite (Hrefused "Invalid URL"); [reflexivity | vm_compute; reflexivity | reflexivity].
Defined.

(** A host with a line feed in front passes validation and is forwarded; the
    answer is 502 all the same. *)
Example line_feed_host_forwarded_and_failed :
  let r := proxy_route sample_config counting_provider 0 11000 7 line_feed_host
             "candidate/search" "GET" [] None after_first_call_line_feed in
  valid (validateTenantHost line_feed_host) = true
  /\ proxy_status (fst r) = 502
  /\ count_sent is_api_request (snd r) = 1%nat.
Proof. vm_compute. repeat split; reflexivity. Qed.

(** ** Query parameters and logged headers *)

Lemma replace_control_clean (value : string) :
  every not_control (Js.replace_class_g control_char "" value) = true.
Proof.
  induction value as [|c value IH]; [reflexivity|].
  cbn [Js.replace_class_g]. destruct (control_char c) eqn:E.
  - rewrite app_nil_l. exact IH.
  - rewrite app_cons, app_nil_l. simpl. unfold not_control at 1. rewrite E. exact IH.
Qed.

Lemma replace_control_id (value : string) :
  every not_control value = true -> Js.replace_class_g control_char "" value = value.
Proof. apply replace_class_g_id. Qed.

(** X19. Sanitizing a query keeps its string-valued entries, in order and
    under their keys, and drops the others; the values it returns contain no
    control character ([\0]-[\x1F], [\x7F]); a value without control
    characters is returned as it is. *)
Theorem sanitizeQueryParams_behaviour (params : list (string * QueryValue)) :
  map fst (sanitizeQueryParams params) = map fst (string_entries params)
  /\ Forall (fun entry => every not_control (snd entry) = true) (sanitizeQueryParams params)
  /\ (Forall (fun entry => every not_control (snd entry) = true) (string_entries params) ->
      sanitizeQueryParams params = string_entries params).
Proof.
  induction params as [|[key [value|]] params (IHk & IHc & IHi)].
  - repeat split; constructor.
  - simpl. split; [f_equal; exact IHk|]. split.
    + constructor; [apply replace_control_clean | exact IHc].
    + intros H. apply Forall_cons_1 in H as [Hv Hrest]. simpl in Hv.
      rewrite (replace_control_id value Hv), (IHi Hrest). reflexivity.
  - simpl. auto.
Qed.

Lemma sanitizeQueryParams_behaviour_witness :
  sanitizeQueryParams [("q", QString "name:acme"); ("page", QOther)] = [("q", "name:acme")].
Proof.
  apply (sanitizeQueryParams_behaviour [("q", QString "name:acme"); ("page", QOther)]).
  repeat constructor.
Defined.

(** X20. The headers written to the log keep their keys and order; under
    [id-token], [x-api-key] and [authorization] a non-empty value is replaced
    by [[REDACTED]]; every other value is kept; redacting twice changes
    nothing more. *)
Theorem redactHeaders_behaviour (headers : list (string * string)) :
  map fst (redactHeaders headers) = map fst headers
  /\ Forall2
       (fun before after =>
          snd after
          = if Js.array_includes sensitiveKeys (fst before) && negb (Js.falsy (snd before))
            then "[REDACTED]" else snd before)
       headers (redactHeaders headers)
  /\ redactHeaders (redactHeaders headers) = redactHeaders headers.
Proof.
  induction headers as [|[key value] headers (IHk & IHv & IHi)].
  - repeat split; constructor.
  - cbn [redactHeaders map fst]. split; [f_equal; exact IHk|]. split.
    + constructor; [reflexivity | exact IHv].
    + rewrite IHi. destruct (Js.array_includes sensitiveKeys key); [|reflexivity].
      destruct value; reflexivity.
Qed.

Example redactHeaders_sample :
  redactHeaders (api_headers "T1" (Some "K1"))
  = [ ("id-token", "[REDACTED]"); ("Content-Type", "application/json");
      ("Accept", "application/json"); ("x-api-key", "[REDACTED]") ].
Proof. reflexivity. Qed.

(** ** The HTTP client, continued *)

(** X21. Whatever the network does, a request is transmitted at least once
    and at most four times, with the wait [retryDelay] before each
    retransmission, and it comes to what its last transmission met. It is
    rejected only with an error that carries no response, and only after four
    transmissions or when the failed transmissions and the waits have used up
    the timeout of 100 s. *)
Theorem axios_request_bounded {A : Type} (net : nat -> NetOutcome A) (random : nat -> Z) :
  let sending := axios_request axiosClient net random in
  (1 <= attempts sending <= 4)%nat
  /\ delays sending
     = map (fun i => retryDelay axiosClient (S i) (random i))
         (seq 0 (attempts sending - 1))
  /\ (forall status data,
        outcome sending = Resolved status data ->
        net (attempts sending - 1)%nat = NetResponse status data)
  /\ (forall e,
        outcome sending = Rejected e ->
        err_response e = None
        /\ (exists elapsed,
              net (attempts sending - 1)%nat = NetError (err_message e) elapsed)
        /\ (attempts sending = 4%nat
            \/ time_left axiosClient net random (attempts sending) <= 0)).
Proof.
  intros sending.
  destruct (axios_send_outcome net random 3 0 (timeout axiosClient))
    as (Hn & Hd & Hres & Hrej); [reflexivity | reflexivity | discriminate |].
  fold (axios_request axiosClient net random) in Hn, Hd, Hres, Hrej.
  fold sending in Hn, Hd, Hres, Hrej. cbn [Nat.add] in Hres, Hrej.
  refine (conj Hn (conj Hd (conj Hres Hrej))).
Qed.

(** X22. The first transmission that meets a response ends the request
    with that response, whatever its status: after [k] transmissions that
    failed without a response ([k] at most 3), each leaving some of the
    timeout after its wait, a response at transmission [k] is the outcome,
    after [k + 1] transmissions and [k] waits. *)
Theorem first_response_is_the_outcome {A : Type} (net : nat -> NetOutcome A)
    (random : nat -> Z) (messages : nat -> string) (elapsed : nat -> Z) (k : nat)
    (status : Z) (data : A) :
  (k <= 3)%nat ->
  (forall j, (j < k)%nat -> net j = NetError (messages j) (elapsed j)) ->
  (forall j, (j < k)%nat -> 0 < time_left axiosClient net random (S j)) ->
  net k = NetResponse status data ->
  axios_request axiosClient net random
  = {| outcome := Resolved status data;
       attempts := S k;
       delays := map (fun i => retryDelay axiosClient (S i) (random i)) (seq 0 k) |}.
Proof.
  intros Hk Herr Hleft Hresp. unfold axios_request.
  apply (axios_send_first_response net random k 3 0 (timeout axiosClient) status data);
    [reflexivity | exact Hk | reflexivity | discriminate | | | exact Hresp].
  - intros j Hj. exists (messages j), (elapsed j). apply Herr. lia.
  - intros j Hj. apply Hleft. lia.
Qed.

Lemma first_response_is_the_outcome_witness :
  axios_request axiosClient
    (fun k => if (k <? 2)%nat then NetError "socket hang up" 30 else NetResponse 503 tt)
    (fun _ => 250)
  = {| outcome := Resolved 503 tt; attempts := 3; delays := [2250; 4250] |}.
Proof.
  apply (first_response_is_the_outcome
           (fun k => if (k <? 2)%nat then NetError "socket hang up" 30 else NetResponse 503 tt)
           (fun _ => 250) (fun _ => "socket hang up") (fun _ => 30) 2 503 tt).
  - lia.
  - intros j Hj. destruct j as [|[|j]]; [reflexivity | reflexivity | lia].
  - intros j Hj. destruct j as [|[|j]]; [reflexivity | reflexivity | lia].
  - reflexivity.
Defined.



(** X24. A request whose four transmissions all fail without a response,
    the first three each leaving some of the timeout after its wait, is
    transmitted four times, after waits of 2 s, 4 s and 8 s plus jitter, and
    rejected with the message of the fourth failure. *)
Theorem retries_exhausted {A : Type} (net : nat -> NetOutcome A) (random : nat -> Z)
    (messages : nat -> string) (elapsed : nat -> Z) :
  (forall k, (k <= 3)%nat -> net k = NetError (messages k) (elapsed k)) ->
  (forall k, (k < 3)%nat -> 0 < time_left axiosClient net random (S k)) ->
  axios_request axiosClient net random
  = {| outcome := Rejected {| err_message := messages 3%nat; err_response := None |};
       attempts := 4;
       delays := [2000 + random 0%nat; 4000 + random 1%nat; 8000 + random 2%nat] |}.
Proof.
  intros Herr Hleft. unfold axios_request.
  apply (axios_send_all_fail net random 3 0 (timeout axiosClient) (messages 3%nat)
           (elapsed 3%nat));
    [reflexivity | reflexivity | discriminate | | | apply Herr; lia].
  - intros j Hj. exists (messages j), (elapsed j). apply Herr. lia.
  - intros j Hj. apply Hleft. lia.
Qed.

Lemma retries_exhausted_witness :
  axios_request axiosClient (fun _ => @NetError unit "connect ECONNREFUSED" 12)
    (fun _ => 0)
  = {| outcome := Rejected {| err_message := "connect ECONNREFUSED";
                              err_response := None |};
       attempts := 4;
       delays := [2000; 4000; 8000] |}.
Proof.
  apply (retries_exhausted (fun _ => @NetError unit "connect ECONNREFUSED" 12)
           (fun _ => 0) (fun _ => "connect ECONNREFUSED") (fun _ => 12)).
  - intros; reflexivity.
  - intros k Hk. destruct k as [|[|[|k]]]; [reflexivity | reflexivity | reflexivity | lia].
Defined.

(** X29. A timed-out request is not sent again. A transmission that fails
    98 s or more after it was sent, as every transmission that runs into the
    timeout of 100 s does, leaves nothing of the timeout after the wait of at
    least 2 s: the request is rejected with that failure after one
    transmission and no wait, and [refreshTokens] throws its message after
    the one post. *)
Theorem timed_out_request_not_retried
    (config : Config) (env : Env) (refreshToken message : string) (elapsed : Z) (w : World) :
  token_endpoint env (sent w) (refresh_form config refreshToken) 0%nat
  = NetError message elapsed ->
  98000 <= elapsed ->
  0 <= random_ms env 0%nat ->
  axios_request axiosClient (token_endpoint env (sent w) (refresh_form config refreshToken))
    (random_ms env)
  = {| outcome := Rejected {| err_message := message; err_response := None |};
       attempts := 1;
       delays := [] |}
  /\ refreshTokens config env refreshToken w
     = (Thrown message,
        record_event (TokenPost (tokenUrl config) (refresh_form config refreshToken)) w).
Proof.
  intros Hnet Hlate Hjitter.
  assert (Hsend : axios_request axiosClient
                    (token_endpoint env (sent w) (refresh_form config refreshToken))
                    (random_ms env)
                  = {| outcome := Rejected {| err_message := message; err_response := None |};
                       attempts := 1;
                       delays := [] |}).
  { apply (axios_request_out_of_time _ _ message elapsed Hnet).
    cbn [time_left]. rewrite Hnet.
    cbn [lastRequestDuration timeout retryDelay axiosClient createAxiosClient Z.of_nat
         Pos.of_succ_nat].
    change (2 ^ 1 * 1000) with 2000. lia. }
  split; [exact Hsend|].
  unfold refreshTokens, mbind, async_bind, post_token.
  fold (refresh_form config refreshToken). rewrite Hsend. reflexivity.
Qed.

Lemma timed_out_request_not_retried_witness :
  fst (refreshTokens sample_config timing_out "R1" empty_world)
  = Thrown "timeout of 100000ms exceeded".
Proof.
  destruct (timed_out_request_not_retried sample_config timing_out "R1"
              "timeout of 100000ms exceeded" 100001 empty_world) as [_ H].
  - reflexivity.
  - lia.
  - simpl. lia.
  - rewrite H. reflexivity.
Defined.

(** ** The guards *)

Lemma ipAllowList_verdict (allowedIps : list string) (clientIp : string) :
  ipAllowList allowedIps clientIp
  = if ip_ok allowedIps clientIp then Next else Respond 403 (Some "Forbidden").
Proof.
  unfold ipAllowList, ip_ok.
  destruct (length allowedIps =? 0)%nat; [reflexivity|].
  destruct (Js.array_includes allowedIps clientIp); reflexivity.
Qed.

(** [pskGuard] with [getPsk] reading the Key Vault, case by case. *)
Lemma pskGuard_cases (require : bool) (allowedIps : list string) (clientIp : string)
    (got : option string) (w : World) :
  pskGuard require (getSecretOrNull PSK_SECRET_NAME) allowedIps clientIp got w
  = if negb (ip_ok allowedIps clientIp) then (Respond 403 (Some "Forbidden"), w)
    else if negb require then (Next, w)
    else (match stored_psk w with
          | None => Respond 500 (Some "PSK check failed")
          | Some psk =>
              if bool_decide (got = Some psk) then Next
              else Respond 401 (Some "Unauthorized")
          end,
          record_event (KvGet PSK_SECRET_NAME) w).
Proof.
  unfold pskGuard. fold (ip_ok allowedIps clientIp).
  destruct (ip_ok allowedIps clientIp), require; try reflexivity.
  cbn [negb andb]. unfold getSecretOrNull. fold (stored_psk w).
  destruct (stored_psk w) as [psk|] eqn:Hpsk; [|reflexivity].
  assert (Hne : Js.absent (Some psk) = false).
  { unfold stored_psk in Hpsk. destruct (vault w !! PSK_SECRET_NAME) as [v|]; [|discriminate].
    destruct (Js.falsy v) eqn:Hv; [discriminate|]. injection Hpsk as <-. exact Hv. }
  rewrite Hne. destruct (bool_decide (got = Some psk)); reflexivity.
Qed.

(** X25. When the pre-shared key is required, [pskGuard] lets a request
    through exactly when its address is allowed, the Key Vault holds a
    non-empty key, and the [X-Proxy-Token] header is that key. *)
Theorem pskGuard_required_passes_iff
    (allowedIps : list string) (clientIp : string) (got : option string) (w : World) :
  fst (pskGuard true (getSecretOrNull PSK_SECRET_NAME) allowedIps clientIp got w) = Next
  <-> ip_ok allowedIps clientIp = true
      /\ exists psk, stored_psk w = Some psk /\ got = Some psk.
Proof.
  rewrite pskGuard_cases.
  destruct (ip_ok allowedIps clientIp); cbn [negb fst].
  2:{ split; [discriminate | intros [H _]; discriminate]. }
  destruct (stored_psk w) as [psk|].
  - destruct (bool_decide (got = Some psk)) eqn:Hgot.
    + apply bool_decide_eq_true in Hgot. split; [eauto | reflexivity].
    + apply bool_decide_eq_false in Hgot.
      split; [discriminate | intros [_ (psk' & [= <-] & H)]; contradiction].
  - split; [discriminate | intros [_ (psk & H & _)]; discriminate].
Qed.

(** X26. [pskGuard] reads the Key Vault only when the key is required and
    the address is allowed, and then once: when the key is not required its
    verdict is that of [ipAllowList] and the world is as it was, whatever
    [getPsk] is; a refused address is answered 403 before any read. *)
Theorem pskGuard_reads_only_when_needed
    (require : bool) (getPsk : Async (option string)) (allowedIps : list string)
    (clientIp : string) (got : option string) (w : World) :
  pskGuard false getPsk allowedIps clientIp got w = (ipAllowList allowedIps clientIp, w)
  /\ (ip_ok allowedIps clientIp = false ->
      pskGuard require getPsk allowedIps clientIp got w
      = (Respond 403 (Some "Forbidden"), w))
  /\ (ip_ok allowedIps clientIp = true ->
      snd (pskGuard true (getSecretOrNull PSK_SECRET_NAME) allowedIps clientIp got w)
      = record_event (KvGet PSK_SECRET_NAME) w).
Proof.
  split; [|split].
  - rewrite ipAllowList_verdict. unfold pskGuard. fold (ip_ok allowedIps clientIp).
    destruct (ip_ok allowedIps clientIp); reflexivity.
  - intros Hip. unfold pskGuard. fold (ip_ok allowedIps clientIp). rewrite Hip.
    destruct require; reflexivity.
  - intros Hip. rewrite pskGuard_cases, Hip. reflexivity.
Qed.

Lemma pskGuard_reads_only_when_needed_witness :
  pskGuard true (getSecretOrNull PSK_SECRET_NAME) ["10.0.0.1"] "10.0.0.2" (Some "s3cret")
    empty_world
  = (Respond 403 (Some "Forbidden"), empty_world).
Proof.
  apply (pskGuard_reads_only_when_needed true (getSecretOrNull PSK_SECRET_NAME)
           ["10.0.0.1"] "10.0.0.2" (Some "s3cret") empty_world).
  reflexivity.
Defined.

Lemma validateMethod_valid (method : string) :
  valid (validateMethod method) = true
  <-> Js.toUpperCase method = "GET" \/ Js.toUpperCase method = "POST".
Proof.
  unfold validateMethod, Js.array_includes. cbn [existsb].
  destruct (String.eqb_spec (Js.toUpperCase method) "GET") as [->|Hg].
  { simpl. split; auto. }
  destruct (String.eqb_spec (Js.toUpperCase method) "POST") as [->|Hp].
  { simpl. split; auto. }
  simpl. split; [discriminate | intros [H|H]; congruence].
Qed.

(** X27. The guards mounted on [/vincere] let a request through exactly
    when its address is allowed, the pre-shared key (when required) is on
    record and presented, the method is GET or POST up to letter case, and it
    is not a GET with a content length other than [0]. *)
Theorem vincere_guards_pass_iff
    (allowedIps : list string) (requirePsk : bool) (clientIp : string)
    (got : option string) (method contentLength : string) (w : World) :
  fst (vincere_guards allowedIps requirePsk clientIp got method contentLength w) = Next
  <-> ip_ok allowedIps clientIp = true
      /\ (requirePsk = true -> exists psk, stored_psk w = Some psk /\ got = Some psk)
      /\ (Js.toUpperCase method = "GET" \/ Js.toUpperCase method = "POST")
      /\ ~ (method = "GET" /\ contentLength <> "" /\ contentLength <> "0").
Proof.
  unfold vincere_guards. rewrite ipAllowList_verdict.
  destruct (ip_ok allowedIps clientIp) eqn:Hip.
  2:{ cbn [fst]. split; [discriminate | intros [H _]; discriminate]. }
  assert (Hpsk : fst (pskGuard requirePsk (getSecretOrNull PSK_SECRET_NAME) allowedIps
                        clientIp got w) = Next
                 <-> (requirePsk = true ->
                      exists psk, stored_psk w = Some psk /\ got = Some psk)).
  { rewrite pskGuard_cases, Hip. cbn [negb].
    destruct requirePsk; cbn [negb fst]; [|split; [discriminate | reflexivity]].
    destruct (stored_psk w) as [psk|].
    - destruct (bool_decide (got = Some psk)) eqn:Hgot.
      + apply bool_decide_eq_true in Hgot. split; [eauto | reflexivity].
      + apply bool_decide_eq_false in Hgot. split; [discriminate|].
        intros H. destruct (H eq_refl) as (psk' & [= <-] & H'). contradiction.
    - split; [discriminate|]. intros H. destruct (H eq_refl) as (psk & H' & _).
      discriminate. }
  destruct (pskGuard requirePsk (getSecretOrNull PSK_SECRET_NAME) allowedIps clientIp got w)
    as [[|status error] w'] eqn:Hguard; cbn [fst] in Hpsk.
  2:{ cbn [fst]. split; [discriminate|].
      intros (_ & H & _). apply Hpsk in H. discriminate. }
  assert (Hyes : requirePsk = true ->
                 exists psk, stored_psk w = Some psk /\ got = Some psk)
    by (apply Hpsk; reflexivity).
  unfold methodGuard.
  destruct (valid (validateMethod method)) eqn:Hmethod; cbn [negb].
  2:{ cbn [fst]. split; [discriminate|].
      intros (_ & _ & H & _). apply validateMethod_valid in H. congruence. }
  apply validateMethod_valid in Hmethod. cbn [fst]. unfold noBodyOnGet.
  destruct (String.eqb_spec method "GET") as [->|Hget]; cbn [andb].
  - destruct contentLength as [|c cl]; cbn [Js.falsy Js.is_empty negb andb].
    + split; [intros _|reflexivity]. repeat split; auto. intros (_ & H & _). congruence.
    + destruct (String.eqb_spec (String c cl) "0") as [->|H0]; cbn [negb].
      * split; [intros _|reflexivity]. repeat split; auto. intros (_ & _ & H). congruence.
      * split; [discriminate|]. intros (_ & _ & _ & H). exfalso. apply H.
        repeat split; [discriminate | exact H0].
  - split; [intros _|reflexivity]. repeat split; auto. intros (H & _). congruence.
Qed.

(** ** The allow-list of the configuration *)

Lemma trimStart_length (s : string) : (String.length (Js.trimStart s) <= String.length s)%nat.
Proof.
  induction s as [|c s IH]; [simpl; lia|].
  simpl. destruct (Js.is_white_space c); simpl; lia.
Qed.

Lemma trimStart_fixed (c : ascii) (s : string) :
  Js.trimStart (String c s) = String c s -> Js.is_white_space c = false.
Proof.
  simpl. destruct (Js.is_white_space c); [|reflexivity].
  intros H. pose proof (trimStart_length s) as Hlen. rewrite H in Hlen. simpl in Hlen. lia.
Qed.

Lemma trimStart_idem (s : string) : Js.trimStart (Js.trimStart s) = Js.trimStart s.
Proof.
  induction s as [|c s IH]; [reflexivity|].
  simpl. destruct (Js.is_white_space c) eqn:E; [exact IH|]. simpl. rewrite E. reflexivity.
Qed.

Lemma trimEnd_idem (s : string) : Js.trimEnd (Js.trimEnd s) = Js.trimEnd s.
Proof.
  induction s as [|c s IH]; [reflexivity|].
  cbn [Js.trimEnd].
  destruct (Js.is_white_space c && Js.is_empty (Js.trimEnd s)) eqn:E; [reflexivity|].
  cbn [Js.trimEnd]. rewrite IH, E. reflexivity.
Qed.

Lemma trimStart_trimEnd (s : string) :
  Js.trimStart s = s -> Js.trimStart (Js.trimEnd s) = Js.trimEnd s.
Proof.
  destruct s as [|c s]; [reflexivity|]. intros H.
  apply trimStart_fixed in H. cbn [Js.trimEnd]. rewrite H. cbn [andb Js.trimStart].
  rewrite H. reflexivity.
Qed.

Lemma trim_idem (s : string) : Js.trim (Js.trim s) = Js.trim s.
Proof.
  unfold Js.trim.
  rewrite (trimStart_trimEnd (Js.trimStart s) (trimStart_idem s)).
  apply trimEnd_idem.
Qed.

Lemma every_trimStart (p : ascii -> bool) (s : string) :
  every p s = true -> every p (Js.trimStart s) = true.
Proof.
  induction s as [|c s IH]; [reflexivity|]. simpl. intros H.
  apply andb_prop in H as [Hc Hs].
  destruct (Js.is_white_space c); [auto|]. simpl. rewrite Hc, Hs. reflexivity.
Qed.

Lemma every_trimEnd (p : ascii -> bool) (s : string) :
  every p s = true -> every p (Js.trimEnd s) = true.
Proof.
  induction s as [|c s IH]; [reflexivity|]. cbn [every Js.trimEnd]. intros H.
  apply andb_prop in H as [Hc Hs].
  destruct (Js.is_white_space c && Js.is_empty (Js.trimEnd s)); [reflexivity|].
  simpl. rewrite Hc, (IH Hs). reflexivity.
Qed.

Lemma split_parts_without_sep (sep : ascii) (s : string) :
  Forall (fun part => every (fun c => negb (Js.is_char sep c)) part = true) (Js.split sep s).
Proof.
  induction s as [|c s IH]; [repeat constructor|].
  simpl. destruct (Ascii.eqb c sep) eqn:E.
  - constructor; [reflexivity | exact IH].
  - destruct (Js.split sep s) as [|h t]; [repeat constructor; simpl|].
    + unfold Js.is_char. rewrite Ascii.eqb_sym, E. reflexivity.
    + apply Forall_cons_1 in IH as [Hh Ht]. constructor; [|exact Ht].
      simpl. unfold Js.is_char at 1. rewrite Ascii.eqb_sym, E. exact Hh.
Qed.

(** X28. Every entry of the parsed allow-list is non-empty, has no white
    space around it and contains no comma; an absent or blank setting gives
    the empty list, with which [ipAllowList] lets every address through. *)
Theorem parseAllowedIps_entries (input : string) :
  Forall (fun ip => ip <> "" /\ Js.trim ip = ip /\ every not_comma ip = true)
    (parseAllowedIps input)
  /\ (Js.trim input = "" ->
      parseAllowedIps input = []
      /\ forall clientIp, ipAllowList (parseAllowedIps input) clientIp = Next).
Proof.
  unfold parseAllowedIps. split.
  - destruct (Js.falsy input || Js.is_empty (Js.trim input)); [constructor|].
    apply Forall_forall. intros ip Hin. apply list_elem_of_In in Hin.
    apply filter_In in Hin as [Hin Hne]. apply in_map_iff in Hin as (part & <- & Hpart).
    split; [intros H; rewrite H in Hne; discriminate|]. split; [apply trim_idem|].
    pose proof (split_parts_without_sep "," input) as Hall.
    rewrite Forall_forall in Hall. apply list_elem_of_In in Hpart.
    specialize (Hall part Hpart). unfold Js.trim.
    apply every_trimEnd, every_trimStart. exact Hall.
  - intros Hblank. rewrite Hblank. rewrite orb_true_r. split; reflexivity.
Qed.

Lemma parseAllowedIps_entries_witness :
  parseAllowedIps "   " = []
  /\ forall clientIp, ipAllowList (parseAllowedIps "   ") clientIp = Next.
Proof. apply (parseAllowedIps_entries "   "). reflexivity. Defined.

Example parseAllowedIps_sample :
  parseAllowedIps " 10.0.0.1, ,10.0.0.2 ,," = ["10.0.0.1"; "10.0.0.2"].
Proof. reflexivity. Qed.
